(** * The altitude orchestration runner of garage-mcp

    A shallow embedding of
    - [services/mcp/modules/orchestra_runner.py] (class [OrchestrationRunner]),
    - [services/mcp/modules/orchestra.py] ([orchestra_invoke], the identifier
      validator and the simulated sub-agents),
    - [services/mcp/modules/error_sink.py] ([build_error_record]),
    together with the properties of the plan-execution engine.

    Conventions of the embedding.
    - Python [str] values are [string]s of ASCII characters; [str.lower] and
      the character classes of [re] act on ASCII only.
    - A dict with a fixed set of keys is a record; an optional key is an
      [option] field.  Free-form dicts (payload, meta, parameters, the
      details of a log entry) are [gmap string JVal].
    - The nested mutable objects of an HDO (its log list, its meta dict and
      its payload dict) live in a store and are referred to by location:
      [dict.copy()] copies the top-level record and therefore shares them.
    - [async] functions are run to completion one after the other (one
      logical thread per invocation); [asyncio.sleep] advances a logical
      clock, and [datetime.now] reads it.
    - [uuid.uuid4], [str()] of a mapping and [isoformat] are parameters. *)

From Stdlib Require Import ZArith Ascii String List Bool Lia DecimalString
  DecimalNat.
From stdpp Require Import base option list gmap strings fin_maps.

Local Open Scope string_scope.

(** ** Strings as Python uses them *)

Module PyStr.

(** [needle in hay] on [str]. *)
Fixpoint contains (needle hay : string) : bool :=
  String.prefix needle hay ||
  match hay with
  | EmptyString => false
  | String _ rest => contains needle rest
  end.

Definition is_upper (c : ascii) : bool :=
  (65 <=? nat_of_ascii c)%nat && (nat_of_ascii c <=? 90)%nat.

Definition lower_char (c : ascii) : ascii :=
  if is_upper c then ascii_of_nat (nat_of_ascii c + 32) else c.

(** [s.lower()] *)
Fixpoint lower (s : string) : string :=
  match s with
  | EmptyString => EmptyString
  | String c rest => String (lower_char c) (lower rest)
  end.

(** [s[:n]] *)
Definition take (n : nat) (s : string) : string := String.substring 0 n s.

(** [x in xs] for a list of strings. *)
Definition mem (x : string) (xs : list string) : bool :=
  existsb (String.eqb x) xs.

(** The specification side: [needle] occurs somewhere inside [hay]. *)
Definition occurs_in (needle hay : string) : Prop :=
  exists pre post, hay = pre ++ needle ++ post.

(** Two strings that differ only in the case of their ASCII letters. *)
Definition same_up_to_case (s t : string) : Prop := lower s = lower t.

End PyStr.

(** ** Regular expressions, as far as the identifier patterns need them *)

Module Re.

Inductive re : Type :=
| Empty                        (* matches nothing *)
| Eps                          (* matches the empty string *)
| Chr (p : ascii -> bool)      (* one character of a class *)
| Seq (r1 r2 : re)
| Alt (r1 r2 : re)
| Star (r : re).

Fixpoint lit (s : string) : re :=
  match s with
  | EmptyString => Eps
  | String c rest => Seq (Chr (Ascii.eqb c)) (lit rest)
  end.

(** [r+] *)
Definition plus (r : re) : re := Seq r (Star r).

(** [r{n}] *)
Fixpoint times (n : nat) (r : re) : re :=
  match n with
  | O => Eps
  | S k => Seq r (times k r)
  end.

(** [r{0,n}] *)
Fixpoint upto (n : nat) (r : re) : re :=
  match n with
  | O => Eps
  | S k => Alt Eps (Seq r (upto k r))
  end.

(** [r{n,m}] *)
Definition between (n m : nat) (r : re) : re := Seq (times n r) (upto (m - n) r).

Fixpoint nullable (r : re) : bool :=
  match r with
  | Empty => false
  | Eps => true
  | Chr _ => false
  | Seq r1 r2 => nullable r1 && nullable r2
  | Alt r1 r2 => nullable r1 || nullable r2
  | Star _ => true
  end.

Fixpoint deriv (c : ascii) (r : re) : re :=
  match r with
  | Empty => Empty
  | Eps => Empty
  | Chr p => if p c then Eps else Empty
  | Seq r1 r2 =>
      if nullable r1 then Alt (Seq (deriv c r1) r2) (deriv c r2)
      else Seq (deriv c r1) r2
  | Alt r1 r2 => Alt (deriv c r1) (deriv c r2)
  | Star r1 => Seq (deriv c r1) (Star r1)
  end.

Fixpoint fullmatch (r : re) (s : string) : bool :=
  match s with
  | EmptyString => nullable r
  | String c rest => fullmatch (deriv c r) rest
  end.

Definition newline : ascii := ascii_of_nat 10.

Fixpoint chop_newline (s : string) : option string :=
  match s with
  | EmptyString => None
  | String c EmptyString => if Ascii.eqb c newline then Some EmptyString else None
  | String c rest => option_map (String c) (chop_newline rest)
  end.

(** [re.match('^' + r + '$', s)]: the whole of [s], where [$] also matches
    just before one newline that ends the string. *)
Definition match_anchored (r : re) (s : string) : bool :=
  fullmatch r s ||
  match chop_newline s with
  | Some s' => fullmatch r s'
  | None => false
  end.

Definition is_digit (c : ascii) : bool :=
  (48 <=? nat_of_ascii c)%nat && (nat_of_ascii c <=? 57)%nat.

Definition is_lower (c : ascii) : bool :=
  (97 <=? nat_of_ascii c)%nat && (nat_of_ascii c <=? 122)%nat.

(** [\d] *)
Definition digit : re := Chr is_digit.

(** [[a-z0-9_]] *)
Definition slug_char : re :=
  Chr (fun c => is_lower c || is_digit c || Ascii.eqb c "_"%char).

End Re.

(** ** Data model *)

Set Warnings "-register-all".

(** JSON values held in free-form dicts.  Numbers are the integers. *)
Inductive JVal : Type :=
| JNull
| JBool (b : bool)
| JNum (n : Z)
| JStr (s : string)
| JList (l : list JVal)
| JObj (o : list (string * JVal)).

(** Python truthiness of a value. *)
Definition truthy (v : JVal) : bool :=
  match v with
  | JNull => false
  | JBool b => b
  | JNum n => negb (n =? 0)%Z
  | JStr s => negb (String.eqb s "")
  | JList l => match l with [] => false | _ => true end
  | JObj o => match o with [] => false | _ => true end
  end.

(** [o.get(k)] on an object held as a value. *)
Fixpoint assoc_get (k : string) (o : list (string * JVal)) : option JVal :=
  match o with
  | [] => None
  | (k', v) :: rest => if String.eqb k k' then Some v else assoc_get k rest
  end.

(** [o[k] = v] on an object held as a value. *)
Fixpoint assoc_set (k : string) (v : JVal) (o : list (string * JVal))
  : list (string * JVal) :=
  match o with
  | [] => [(k, v)]
  | (k', v') :: rest =>
      if String.eqb k k' then (k, v) :: rest else (k', v') :: assoc_set k v rest
  end.

Abbreviation Dict := (gmap string JVal).

(** [d.update(u)] *)
Definition dict_update (u d : Dict) : Dict := u ∪ d.

(** An exception: the name of its class and [str(e)]. *)
Record Exn : Type := mkExn { exn_type : string; exn_msg : string }.

Definition ValueError (msg : string) : Exn := mkExn "ValueError" msg.
Definition KeyError (key : string) : Exn := mkExn "KeyError" ("'" ++ key ++ "'").
Definition TypeError (msg : string) : Exn := mkExn "TypeError" msg.
Definition RuntimeError (msg : string) : Exn := mkExn "RuntimeError" msg.
Definition UnboundLocalError (msg : string) : Exn := mkExn "UnboundLocalError" msg.
Definition RecursionError (msg : string) : Exn := mkExn "RecursionError" msg.

Record LogEntry : Type := mkLogEntry {
  le_timestamp : string;
  le_agent_id : string;
  le_action : string;
  le_status : string;
  le_duration_ms : option Z;
  le_error_id : option JVal;       (* the key [error_id], when present *)
  le_details : Dict
}.

Record When : Type := mkWhen {
  condition : option string;
  depends_on : option (list string);
  expression : option string
}.

Record RetryPolicy : Type := mkRetryPolicy {
  max_retries : option Z;
  retry_on : option (list string);
  backoff_seconds : option Z
}.

Record Step : Type := mkStep {
  step_id : string;
  agent_id : string;
  action : string;
  altitude : Z;
  parameters : option Dict;
  timeout_seconds : option Z;
  when : option When;
  retry_policy : option RetryPolicy
}.

Record Plan : Type := mkPlan {
  plan_id : string;
  version : string;
  steps : option (list Step)
}.

(** Locations of the store. *)
Abbreviation loc := positive.

(** The top-level dict of an HDO.  [payload], [meta] and [log] hold
    references to objects of the store. *)
Record HDO : Type := mkHDO {
  process_id : string;
  blueprint_id : option string;
  stage : option string;
  validated : option bool;
  promoted_to : option (option string);
  payload : option loc;
  meta : option loc;
  log : option loc;
  timestamp_last_touched : option string
}.

Record Store : Type := mkStore {
  lists : gmap loc (list LogEntry);
  dicts : gmap loc Dict
}.

(** [hdo.copy()]: a new top-level dict with the same values, so the nested
    objects are shared with the original. *)
Definition dict_copy (hdo : HDO) : HDO :=
  mkHDO (process_id hdo) (blueprint_id hdo) (stage hdo) (validated hdo)
        (promoted_to hdo) (payload hdo) (meta hdo) (log hdo)
        (timestamp_last_touched hdo).

(** What a reference to an HDO shows of its nested objects. *)
Definition log_of (s : Store) (hdo : HDO) : option (list LogEntry) :=
  match log hdo with
  | Some l => lists s !! l
  | None => None
  end.

Definition meta_of (s : Store) (hdo : HDO) : option Dict :=
  match meta hdo with
  | Some m => dicts s !! m
  | None => None
  end.

Definition payload_of (s : Store) (hdo : HDO) : option Dict :=
  match payload hdo with
  | Some p => dicts s !! p
  | None => None
  end.

(** Reading a location; one that the store does not hold reads as an empty
    object. *)
Definition list_at (s : Store) (l : loc) : list LogEntry :=
  default [] (lists s !! l).

Definition dict_at (s : Store) (d : loc) : Dict :=
  default ∅ (dicts s !! d).

(** No dangling reference: every nested object of the HDO is in the store. *)
Definition hdo_in_store (s : Store) (hdo : HDO) : Prop :=
  (forall l, log hdo = Some l -> is_Some (lists s !! l)) /\
  (forall m, meta hdo = Some m -> is_Some (dicts s !! m)) /\
  (forall p, payload hdo = Some p -> is_Some (dicts s !! p)).

(** The [hdo_updates] sub-mapping of a delegate's result. *)
Record HdoUpdates : Type := mkHdoUpdates {
  u_payload : option Dict;
  u_meta : option Dict;
  u_stage : option string;
  u_validated : option bool;
  u_promoted_to : option (option string)
}.

Definition no_updates : HdoUpdates := mkHdoUpdates None None None None None.

(** The result mapping of a delegate: its keys other than [hdo_updates],
    and [hdo_updates]. *)
Record AgentResult : Type := mkAgentResult {
  res_fields : list (string * JVal);
  res_hdo_updates : option HdoUpdates
}.

(** [bool(result)] for a mapping. *)
Definition result_truthy (r : AgentResult) : bool :=
  match res_fields r, res_hdo_updates r with
  | [], None => false
  | _, _ => true
  end.

(** The MCP calling context: the keys this code reads from it.  It is taken
    not to rebind the keys [process_id], [hdo] and [plan], which
    [_invoke_step] sets itself. *)
Record CurrentStep : Type := mkCurrentStep {
  cs_step_id : option string;
  cs_agent_id : option string;
  cs_action : option string;
  cs_altitude : option Z
}.

Record CallContext : Type := mkCallContext {
  ctx_current_agent_id : option string;
  ctx_current_step : option CurrentStep;
  ctx_mcp_session_id : option string;
  ctx_mcp_tool_name : option string
}.

Definition empty_context : CallContext := mkCallContext None None None None.

Inductive Severity : Type := low | medium | high | critical.

Record ErrorRecord : Type := mkErrorRecord {
  error_id : string;
  occurred_at : string;
  er_process_id : string;
  er_blueprint_id : string;
  er_plan_id : JVal;
  er_plan_version : JVal;
  er_agent_id : string;
  er_stage : string;
  severity : Severity;
  message : string;
  error_type : string;
  snapshot_log : option (list LogEntry);     (* hdo_snapshot['log'] *)
  context_session : option string            (* context['mcp_session_id'] *)
}.

(** ** The state of one invocation, and the monad of the embedding *)

(** Who called [build_error_record]. *)
Inductive Origin : Type := ByInvoke | ByRunner.

Record ExecutionContext : Type := mkExecutionContext {
  ec_execution_id : string;
  ec_agent_id : string;
  ec_action : string;
  ec_step_id : string;
  ec_altitude : Z;
  ec_process_id : string;
  ec_started_at : string;
  ec_timeout_seconds : Z
}.

Record SidecarEvent : Type := mkSidecarEvent {
  ev_type : string;
  ev_timestamp : string;
  ev_execution_id : string;
  ev_agent_id : string
}.

(** [store], [current_hdo], [current_plan], [clock], [uuids] and
    [active_orchestrations] are what the program has; the other fields only
    record what happened: every error record built (with its call site),
    every error record handed to [_insert_error_record], every event posted
    to the sidecar, every delegation (agent, action, and whether it
    raised), and the store and HDO after each mutation of either. *)
Record St : Type := mkSt {
  store : Store;
  current_hdo : HDO;
  current_plan : Plan;
  clock : Z;                     (* milliseconds *)
  uuids : nat;                   (* calls of uuid4 so far *)
  active_orchestrations : gmap string ExecutionContext;
  built : list (Origin * ErrorRecord);
  inserted : list ErrorRecord;
  sidecar : list SidecarEvent;
  delegated : list (string * string * bool);
  trace : list (Store * HDO)
}.

Inductive Outcome (A : Type) : Type :=
| Returned (a : A)
| Raised (e : Exn).
Arguments Returned {A} a.
Arguments Raised {A} e.

Definition has_raised {A} (o : Outcome A) : bool :=
  match o with
  | Returned _ => false
  | Raised _ => true
  end.

Definition M (A : Type) : Type := St -> Outcome A * St.

Definition ret {A} (a : A) : M A := fun st => (Returned a, st).

Definition bind {A B} (m : M A) (k : A -> M B) : M B :=
  fun st =>
    match m st with
    | (Returned a, st') => k a st'
    | (Raised e, st') => (Raised e, st')
    end.

Definition raise {A} (e : Exn) : M A := fun st => (Raised e, st).

(** [try: m  except Exception as e: h e] *)
Definition try_except {A} (m : M A) (h : Exn -> M A) : M A :=
  fun st =>
    match m st with
    | (Returned a, st') => (Returned a, st')
    | (Raised e, st') => h e st'
    end.

(** [try: m  finally: f] *)
Definition try_finally {A} (m : M A) (f : M unit) : M A :=
  fun st =>
    match m st with
    | (r, st') =>
        match f st' with
        | (Returned _, st'') => (r, st'')
        | (Raised e, st'') => (Raised e, st'')
        end
    end.

Definition gets {A} (f : St -> A) : M A := fun st => (Returned (f st), st).

Definition modify (f : St -> St) : M unit := fun st => (Returned tt, f st).

Notation "'let*' x ':=' m 'in' k" := (bind m (fun x => k))
  (at level 10, x pattern, m at level 100, k at level 200).
Notation "m1 ';;;' m2" := (bind m1 (fun _ => m2))
  (at level 100, m2 at level 200, right associativity).

Definition when_ (b : bool) (m : M unit) : M unit := if b then m else ret tt.

(** [for x in xs: body x] *)
Fixpoint for_each {A} (xs : list A) (body : A -> M unit) : M unit :=
  match xs with
  | [] => ret tt
  | x :: rest => body x ;;; for_each rest body
  end.

(** *** Field updates *)

Definition with_store (s : Store) (st : St) : St :=
  mkSt s (current_hdo st) (current_plan st) (clock st) (uuids st)
       (active_orchestrations st) (built st) (inserted st) (sidecar st)
       (delegated st) (trace st).

Definition with_current_hdo (h : HDO) (st : St) : St :=
  mkSt (store st) h (current_plan st) (clock st) (uuids st)
       (active_orchestrations st) (built st) (inserted st) (sidecar st)
       (delegated st) (trace st).

Definition with_current_plan (p : Plan) (st : St) : St :=
  mkSt (store st) (current_hdo st) p (clock st) (uuids st)
       (active_orchestrations st) (built st) (inserted st) (sidecar st)
       (delegated st) (trace st).

Definition with_clock (c : Z) (st : St) : St :=
  mkSt (store st) (current_hdo st) (current_plan st) c (uuids st)
       (active_orchestrations st) (built st) (inserted st) (sidecar st)
       (delegated st) (trace st).

Definition with_uuids (n : nat) (st : St) : St :=
  mkSt (store st) (current_hdo st) (current_plan st) (clock st) n
       (active_orchestrations st) (built st) (inserted st) (sidecar st)
       (delegated st) (trace st).

Definition with_active (a : gmap string ExecutionContext) (st : St) : St :=
  mkSt (store st) (current_hdo st) (current_plan st) (clock st) (uuids st)
       a (built st) (inserted st) (sidecar st) (delegated st) (trace st).

Definition with_built (b : list (Origin * ErrorRecord)) (st : St) : St :=
  mkSt (store st) (current_hdo st) (current_plan st) (clock st) (uuids st)
       (active_orchestrations st) b (inserted st) (sidecar st)
       (delegated st) (trace st).

Definition with_inserted (i : list ErrorRecord) (st : St) : St :=
  mkSt (store st) (current_hdo st) (current_plan st) (clock st) (uuids st)
       (active_orchestrations st) (built st) i (sidecar st)
       (delegated st) (trace st).

Definition with_sidecar (e : list SidecarEvent) (st : St) : St :=
  mkSt (store st) (current_hdo st) (current_plan st) (clock st) (uuids st)
       (active_orchestrations st) (built st) (inserted st) e
       (delegated st) (trace st).

Definition with_delegated (d : list (string * string * bool)) (st : St) : St :=
  mkSt (store st) (current_hdo st) (current_plan st) (clock st) (uuids st)
       (active_orchestrations st) (built st) (inserted st) (sidecar st)
       d (trace st).

Definition with_trace (t : list (Store * HDO)) (st : St) : St :=
  mkSt (store st) (current_hdo st) (current_plan st) (clock st) (uuids st)
       (active_orchestrations st) (built st) (inserted st) (sidecar st)
       (delegated st) t.

Definition with_lists (ls : gmap loc (list LogEntry)) (s : Store) : Store :=
  mkStore ls (dicts s).

Definition with_dicts (ds : gmap loc Dict) (s : Store) : Store :=
  mkStore (lists s) ds.

Definition set_stage (v : option string) (h : HDO) : HDO :=
  mkHDO (process_id h) (blueprint_id h) v (validated h) (promoted_to h)
        (payload h) (meta h) (log h) (timestamp_last_touched h).

Definition set_validated (v : option bool) (h : HDO) : HDO :=
  mkHDO (process_id h) (blueprint_id h) (stage h) v (promoted_to h)
        (payload h) (meta h) (log h) (timestamp_last_touched h).

Definition set_promoted_to (v : option (option string)) (h : HDO) : HDO :=
  mkHDO (process_id h) (blueprint_id h) (stage h) (validated h) v
        (payload h) (meta h) (log h) (timestamp_last_touched h).

Definition set_meta (v : option loc) (h : HDO) : HDO :=
  mkHDO (process_id h) (blueprint_id h) (stage h) (validated h) (promoted_to h)
        (payload h) v (log h) (timestamp_last_touched h).

Definition set_log (v : option loc) (h : HDO) : HDO :=
  mkHDO (process_id h) (blueprint_id h) (stage h) (validated h) (promoted_to h)
        (payload h) (meta h) v (timestamp_last_touched h).

Definition set_timestamp_last_touched (v : option string) (h : HDO) : HDO :=
  mkHDO (process_id h) (blueprint_id h) (stage h) (validated h) (promoted_to h)
        (payload h) (meta h) (log h) v.

Arguments with_store _ _ /.
Arguments with_current_hdo _ _ /.
Arguments with_current_plan _ _ /.
Arguments with_clock _ _ /.
Arguments with_uuids _ _ /.
Arguments with_active _ _ /.
Arguments with_built _ _ /.
Arguments with_inserted _ _ /.
Arguments with_sidecar _ _ /.
Arguments with_delegated _ _ /.
Arguments with_trace _ _ /.
Arguments with_lists _ _ /.
Arguments with_dicts _ _ /.
Arguments set_stage _ _ /.
Arguments set_validated _ _ /.
Arguments set_promoted_to _ _ /.
Arguments set_meta _ _ /.
Arguments set_log _ _ /.
Arguments set_timestamp_last_touched _ _ /.

(** A mutation of the store or of the runner's HDO; the state it leaves is
    added to the trace. *)
Definition mutate (f : St -> St) : M unit :=
  fun st =>
    let st' := f st in
    (Returned tt, with_trace (trace st' ++ [(store st', current_hdo st')]) st').

(** The log, meta and payload that [self.current_hdo] shows. *)
Definition log_at (p : Store * HDO) : list LogEntry :=
  default [] (log_of p.1 p.2).

Definition meta_at (p : Store * HDO) : Dict :=
  default ∅ (meta_of p.1 p.2).

Definition cur_log (st : St) : list LogEntry :=
  log_at (store st, current_hdo st).

Definition cur_meta (st : St) : Dict :=
  meta_at (store st, current_hdo st).

(** ** The entries the runner writes to the log

    Each function is the dict literal of the method that appends it. *)

(** [_initialize_hdo_execution] *)
Definition start_entry (t : string) (plan : Plan) : LogEntry :=
  mkLogEntry t "orchestra-runner" "start_orchestration" "started" None None
    {[ "plan_id" := JStr (plan_id plan);
       "plan_version" := JStr (version plan);
       "total_steps" := JNum (Z.of_nat (length (default [] (steps plan)))) ]}.

Definition step_parameters (step : Step) : Dict :=
  default ∅ (parameters step).

(** [_record_step_start] *)
Definition started_entry (step : Step) (t : string) : LogEntry :=
  mkLogEntry t (agent_id step) (action step) "started" None None
    {[ "step_id" := JStr (step_id step);
       "altitude" := JNum (altitude step);
       "parameters" := JObj (map_to_list (step_parameters step)) ]}.

(** [_record_step_completion] *)
Definition completed_entry (step : Step) (t : string) (duration_ms : Z)
    (summary : JVal) : LogEntry :=
  mkLogEntry t (agent_id step) (action step) "completed" (Some duration_ms) None
    {[ "step_id" := JStr (step_id step);
       "altitude" := JNum (altitude step);
       "result_summary" := summary ]}.

(** [_record_step_failure] *)
Definition failed_entry (step : Step) (t : string) (duration_ms : Z)
    (error : Exn) : LogEntry :=
  mkLogEntry t (agent_id step) (action step) "failed" (Some duration_ms)
    (Some JNull)
    {[ "step_id" := JStr (step_id step);
       "altitude" := JNum (altitude step);
       "error_message" := JStr (exn_msg error);
       "error_type" := JStr (exn_type error) ]}.

(** [_record_step_skipped] *)
Definition skipped_entry (step : Step) (t : string) : LogEntry :=
  mkLogEntry t (agent_id step) (action step) "skipped" None None
    {[ "step_id" := JStr (step_id step);
       "altitude" := JNum (altitude step);
       "skip_reason" := JStr "condition_not_met" ]}.

(** [_complete_hdo_execution] *)
Definition complete_entry (t : string) (plan : Plan) (executed : Z) : LogEntry :=
  mkLogEntry t "orchestra-runner" "complete_orchestration" "completed" None None
    {[ "plan_id" := JStr (plan_id plan);
       "total_steps_executed" := JNum executed ]}.

(** ** The program *)

Section Program.

(** Library functions that are left open: [uuid.uuid4] as the sequence of
    identifiers it hands out, [datetime.isoformat] and [strftime] on an
    instant of the clock, and [str()] of a value and of a result mapping. *)
Context (uuid4 : nat -> string)
        (isoformat : Z -> string)
        (strftime : Z -> string)
        (py_str : JVal -> string)
        (str_result : AgentResult -> string).

(** [datetime.now(timezone.utc)] *)
Definition now : M Z := gets clock.

(** [await asyncio.sleep(ms / 1000)] *)
Definition sleep (ms : Z) : M unit :=
  modify (fun st => with_clock (clock st + Z.max 0 ms) st).

(** [str(uuid.uuid4())] *)
Definition new_uuid : M string :=
  fun st => (Returned (uuid4 (uuids st)), with_uuids (S (uuids st)) st).

Definition lift {A} (o : Outcome A) : M A := fun st => (o, st).

(** A value inside an f-string. *)
Definition fmt (v : JVal) : string :=
  match v with
  | JStr s => s
  | _ => py_str v
  end.

(** *** error_sink.py *)

Definition _map_altitude_to_stage (altitude : option Z) : string :=
  match altitude with
  | None => "unknown"
  | Some a =>
      if (a =? 30000)%Z then "overall"
      else if (a =? 20000)%Z then "input"
      else if (a =? 10000)%Z then "middle"
      else if (a =? 5000)%Z then "output"
      else "altitude_" ++ py_str (JNum a)
  end.

Definition critical_keywords : list string :=
  ["database connection"; "authentication failed"; "permission denied";
   "out of memory"; "disk full"].

Definition high_keywords : list string :=
  ["timeout"; "network error"; "service unavailable";
   "invalid data"; "validation failed"].

Definition _determine_error_severity (err : Exn) (ctx : CallContext) : Severity :=
  let error_type := exn_type err in
  let error_message := PyStr.lower (exn_msg err) in
  if existsb (fun keyword => PyStr.contains keyword error_message) critical_keywords
  then critical
  else if existsb (fun keyword => PyStr.contains keyword error_message) high_keywords
  then high
  else if PyStr.mem error_type ["ValueError"; "KeyError"; "AttributeError"]
  then medium
  else if PyStr.mem error_type ["Warning"; "UserWarning"]
  then low
  else high.

(** [xs[-n:]] *)
Definition last_n {A} (n : nat) (xs : list A) : list A :=
  drop (length xs - n) xs.

(** [build_error_record(hdo, ctx, err)].  [origin] only names the caller
    in the record of calls. *)
Definition build_error_record (origin : Origin) (hdo : HDO) (ctx : CallContext)
    (err : Exn) : M ErrorRecord :=
  let* new_id := new_uuid in
  let* s := gets store in
  let process_id := process_id hdo in
  let blueprint_id := default "unknown" (blueprint_id hdo) in
  let hdo_meta := default ∅ (meta_of s hdo) in
  let plan_id := default (JStr "unknown") (hdo_meta !! "plan_id") in
  let plan_version := default (JStr "unknown") (hdo_meta !! "plan_version") in
  let agent_id0 := default "unknown" (ctx_current_agent_id ctx) in
  let stage0 := default "unknown" (stage hdo) in
  let '(agent_id, stage) :=
    match ctx_current_step ctx with
    | Some current_step =>
        (default agent_id0 (cs_agent_id current_step),
         _map_altitude_to_stage (cs_altitude current_step))
    | None => (agent_id0, stage0)
    end in
  let severity := _determine_error_severity err ctx in
  let* t := now in
  let error_record :=
    mkErrorRecord new_id (isoformat t) process_id blueprint_id plan_id
      plan_version agent_id stage severity (exn_msg err) (exn_type err)
      (option_map (last_n 10) (log_of s hdo)) (ctx_mcp_session_id ctx) in
  modify (fun st => with_built (built st ++ [(origin, error_record)]) st) ;;;
  ret error_record.

(** *** orchestra.py: identifier validation *)

(** [^PROC-[a-z0-9_]+-\d{8}-\d{6}-\d{3,6}$] *)
Definition process_id_pattern : Re.re :=
  Re.Seq (Re.lit "PROC-")
 (Re.Seq (Re.plus Re.slug_char)
 (Re.Seq (Re.lit "-")
 (Re.Seq (Re.times 8 Re.digit)
 (Re.Seq (Re.lit "-")
 (Re.Seq (Re.times 6 Re.digit)
 (Re.Seq (Re.lit "-")
         (Re.between 3 6 Re.digit))))))).

(** [^IDEM-PROC-[a-z0-9_]+-\d{8}-\d{6}-\d{3,6}$] *)
Definition idem_pattern : Re.re :=
  Re.Seq (Re.lit "IDEM-PROC-")
 (Re.Seq (Re.plus Re.slug_char)
 (Re.Seq (Re.lit "-")
 (Re.Seq (Re.times 8 Re.digit)
 (Re.Seq (Re.lit "-")
 (Re.Seq (Re.times 6 Re.digit)
 (Re.Seq (Re.lit "-")
         (Re.between 3 6 Re.digit))))))).

Definition _validate_heir_ids (process_id : string) (s : Store) (hdo : HDO)
  : Outcome unit :=
  if negb (Re.match_anchored process_id_pattern process_id)
  then Raised (ValueError ("Invalid process_id format: " ++ process_id))
  else
    match default ∅ (meta_of s hdo) !! "idempotency_key" with
    | None => Returned tt
    | Some idempotency_key =>
        if negb (truthy idempotency_key) then Returned tt
        else
          match idempotency_key with
          | JStr key =>
              if negb (Re.match_anchored idem_pattern key)
              then Raised (ValueError ("Invalid idempotency_key format: " ++ key))
              else
                let expected_idem := "IDEM-" ++ process_id in
                if negb (String.eqb key expected_idem)
                then Raised (ValueError ("idempotency_key " ++ key ++
                                         " does not match process_id " ++ process_id))
                else Returned tt
          | _ => Raised (TypeError "expected string or bytes-like object")
          end
    end.

(** *** orchestra.py: the simulated sub-agents

    A delegate gets the agent id, the action, the parameters, the HDO (with
    the store it refers into), the timeout, the instant of the call and the
    number of earlier delegations of the invocation.  It answers with the
    time it took (milliseconds) and either a result or an exception. *)
Definition Delegate : Type :=
  string -> string -> Dict -> Store * HDO -> Z -> Z -> nat ->
  Z * Outcome AgentResult.

Definition _get_target_stage (agent_id : string) : string :=
  if PyStr.contains "input" agent_id then "input"
  else if PyStr.contains "middle" agent_id then "middle"
  else if PyStr.contains "output" agent_id then "output"
  else "input".

Definition param (parameters : Dict) (k : string) (dflt : JVal) : JVal :=
  default dflt (parameters !! k).

Definition _simulate_orchestrator (agent_id action : string) (parameters : Dict)
    (t : Z) : Z * Outcome AgentResult :=
  let result :=
    mkAgentResult
      [("status", JStr "delegated");
       ("action_taken", JStr ("Orchestrator " ++ agent_id ++ " coordinated " ++ action));
       ("delegation_plan", param parameters "subflow" (JStr "default_subflow"))]
      (Some (mkHdoUpdates None None (Some (_get_target_stage agent_id))
                          (Some false) None)) in
  (100%Z, Returned result).

Definition _simulate_mapper (agent_id action : string) (parameters : Dict)
    (t : Z) : Z * Outcome AgentResult :=
  let mapping_schema := param parameters "mapping_schema" (JStr "default") in
  let result :=
    mkAgentResult
      [("status", JStr "completed");
       ("action_taken", JStr ("Mapped client data using schema " ++ fmt mapping_schema));
       ("mapped_records", JNum 42);
       ("normalization_applied", JBool true)]
      (Some (mkHdoUpdates
               (Some {[ "mapped_data" := JStr ("normalized_data_from_" ++ fmt mapping_schema);
                        "mapping_metadata" :=
                          JObj [("schema_version", JStr "1.0.0");
                                ("records_processed", JNum 42)] ]})
               None None None None)) in
  (500%Z, Returned result).

Definition _simulate_validator (agent_id action : string) (parameters : Dict)
    (t : Z) : Z * Outcome AgentResult :=
  let validation_schema := param parameters "validation_schema" (JStr "default") in
  let heir_compliance := param parameters "heir_compliance" (JBool true) in
  let validation_passed := true in
  let result :=
    mkAgentResult
      [("status", JStr "completed");
       ("action_taken", JStr ("Validated data against schema " ++ fmt validation_schema));
       ("validation_passed", JBool validation_passed);
       ("heir_compliant", heir_compliance);
       ("issues_found", JNum 0)]
      (Some (mkHdoUpdates
               (Some {[ "validation_results" :=
                          JObj [("schema", validation_schema);
                                ("passed", JBool validation_passed);
                                ("heir_compliant", heir_compliance)] ]})
               None None (Some validation_passed) None)) in
  (300%Z, Returned result).

Definition is_str (v : JVal) (s : string) : bool :=
  match v with
  | JStr s' => String.eqb s' s
  | _ => false
  end.

Definition _simulate_db_agent (agent_id action : string) (parameters : Dict)
    (t : Z) : Z * Outcome AgentResult :=
  let mode := param parameters "mode" (JStr "plan") in
  if is_str mode "plan" then
    (800%Z, Returned (mkAgentResult
      [("status", JStr "completed");
       ("action_taken", JStr "Created database execution plan");
       ("plan_created", JBool true);
       ("dry_run_successful", JBool true);
       ("rollback_plan_ready", JBool true);
       ("estimated_changes", JNum 3)]
      (Some (mkHdoUpdates
               (Some {[ "db_plan" :=
                          JObj [("mode", JStr "plan");
                                ("changes", JList [JStr "INSERT client_record";
                                                   JStr "UPDATE status";
                                                   JStr "LOG transaction"]);
                                ("rollback_sql", JStr "DELETE FROM clients WHERE id = ?")] ]})
               None None None None))))
  else if is_str mode "apply" then
    (800%Z, Returned (mkAgentResult
      [("status", JStr "completed");
       ("action_taken", JStr "Applied planned database changes");
       ("transaction_committed", JBool true);
       ("records_affected", JNum 3)]
      (Some (mkHdoUpdates
               (Some {[ "db_result" :=
                          JObj [("mode", JStr "apply");
                                ("transaction_id", JStr "txn_12345");
                                ("committed_at", JStr (isoformat t))] ]})
               None None None None))))
  else
    (* neither branch binds [result]; [return result] fails after the sleep *)
    (800%Z, Raised (UnboundLocalError
      "cannot access local variable 'result' where it is not associated with a value")).

Definition _simulate_enforcer (agent_id action : string) (parameters : Dict)
    (t : Z) : Z * Outcome AgentResult :=
  let rules_engine := param parameters "rules_engine" (JStr "default") in
  let promotion_decision := true in
  let result :=
    mkAgentResult
      [("status", JStr "completed");
       ("action_taken", JStr ("Applied business rules using " ++ fmt rules_engine));
       ("rules_evaluated", JNum 5);
       ("violations_found", JNum 0);
       ("promotion_decision", JBool promotion_decision)]
      (Some (mkHdoUpdates
               (Some {[ "enforcement_result" :=
                          JObj [("rules_engine", rules_engine);
                                ("promotion_approved", JBool promotion_decision);
                                ("evaluated_rules", JList [JStr "client_eligibility";
                                                           JStr "data_quality";
                                                           JStr "business_hours"])] ]})
               None None None
               (Some (if promotion_decision then Some "output" else None)))) in
  (400%Z, Returned result).

(** [len(v)], where it is defined. *)
Definition py_len (v : JVal) : option Z :=
  match v with
  | JStr s => Some (Z.of_nat (String.length s))
  | JList l => Some (Z.of_nat (length l))
  | JObj o => Some (Z.of_nat (length o))
  | _ => None
  end.

Definition _simulate_notifier (agent_id action : string) (parameters : Dict)
    (t : Z) : Z * Outcome AgentResult :=
  let notification_type := param parameters "notification_type" (JStr "generic") in
  let channels := param parameters "channels" (JList [JStr "email"]) in
  match py_len channels with
  | None => (0%Z, Raised (TypeError "object has no len()"))
  | Some n =>
      (200%Z, Returned (mkAgentResult
        [("status", JStr "completed");
         ("action_taken", JStr ("Sent " ++ fmt notification_type ++ " notifications"));
         ("notifications_sent", JNum n);
         ("channels_used", channels)]
        (Some (mkHdoUpdates
                 (Some {[ "notifications" :=
                            JObj [("type", notification_type);
                                  ("channels", channels);
                                  ("sent_at", JStr (isoformat t))] ]})
                 None None None None))))
  end.

Definition _simulate_reporter (agent_id action : string) (parameters : Dict)
    (t : Z) : Z * Outcome AgentResult :=
  let report_template := param parameters "report_template" (JStr "default") in
  let artifact_path := param parameters "artifact_path" (JStr "reports/") in
  let git_commit := param parameters "git_commit" (JBool false) in
  let report_filename := fmt artifact_path ++ "report_" ++ strftime t ++ ".json" in
  let result :=
    mkAgentResult
      [("status", JStr "completed");
       ("action_taken", JStr ("Generated report using " ++ fmt report_template));
       ("report_generated", JBool true);
       ("artifact_path", JStr report_filename);
       ("git_committed", git_commit)]
      (Some (mkHdoUpdates
               (Some {[ "report" :=
                          JObj [("template", report_template);
                                ("path", JStr report_filename);
                                ("generated_at", JStr (isoformat t))] ]})
               None None None None)) in
  (300%Z, Returned result).

Definition _simulate_generic_agent (agent_id action : string) (parameters : Dict)
    (t : Z) : Z * Outcome AgentResult :=
  let result :=
    mkAgentResult
      [("status", JStr "completed");
       ("action_taken", JStr ("Agent " ++ agent_id ++ " performed " ++ action));
       ("parameters_received", JObj (map_to_list parameters))]
      (Some (mkHdoUpdates
               (Some {[ "generic_result" :=
                          JObj [("agent_id", JStr agent_id);
                                ("action", JStr action);
                                ("completed_at", JStr (isoformat t))] ]})
               None None None None)) in
  (200%Z, Returned result).

(** The behaviours [_delegate_to_agent] chooses between. *)
Inductive Category : Type :=
| Orchestrator | Mapper | Validator | DbAgent | Enforcer | Notifier | Reporter
| Generic.

(** The chain of tests of [_delegate_to_agent]. *)
Definition select_category (agent_id : string) : Category :=
  if PyStr.contains "orchestrator" agent_id then Orchestrator
  else if PyStr.contains "mapper" agent_id then Mapper
  else if PyStr.contains "validator" agent_id then Validator
  else if PyStr.contains "db" agent_id then DbAgent
  else if PyStr.contains "enforcer" agent_id then Enforcer
  else if PyStr.contains "notifier" agent_id then Notifier
  else if PyStr.contains "reporter" agent_id then Reporter
  else Generic.

Definition behaviour (c : Category)
  : string -> string -> Dict -> Z -> Z * Outcome AgentResult :=
  match c with
  | Orchestrator => _simulate_orchestrator
  | Mapper => _simulate_mapper
  | Validator => _simulate_validator
  | DbAgent => _simulate_db_agent
  | Enforcer => _simulate_enforcer
  | Notifier => _simulate_notifier
  | Reporter => _simulate_reporter
  | Generic => _simulate_generic_agent
  end.

Definition _delegate_to_agent : Delegate :=
  fun agent_id action parameters hdo timeout_seconds t calls =>
    behaviour (select_category agent_id) agent_id action parameters t.

(** *** orchestra.py: [orchestra_invoke]

    The delegate is the seam where real sub-agents replace the simulation;
    the code below is written against any delegate, and the repository's
    own is [_delegate_to_agent]. *)
Context (delegate : Delegate).

Record InvokeArgs : Type := mkInvokeArgs {
  a_agent_id : string;
  a_action : string;
  a_parameters : Dict;
  a_step_id : string;
  a_altitude : Z;
  a_timeout_seconds : Z
}.

Record InvokeContext : Type := mkInvokeContext {
  ic_process_id : string;
  ic_hdo : HDO;
  ic_plan : Plan;
  ic_call : CallContext        (* the keys of mcp_call_context *)
}.

Definition _post_sidecar_event (event_type : string)
    (execution_context : ExecutionContext) : M unit :=
  let* t := now in
  let event := mkSidecarEvent event_type (isoformat t)
                 (ec_execution_id execution_context)
                 (ec_agent_id execution_context) in
  modify (fun st => with_sidecar (sidecar st ++ [event]) st).

Definition _insert_error_record (error_record : ErrorRecord) : M unit :=
  modify (fun st => with_inserted (inserted st ++ [error_record]) st).

(** The call of the delegate: it takes its time, then returns or raises. *)
Definition call_delegate (agent_id action : string) (parameters : Dict)
    (hdo : HDO) (timeout_seconds : Z) : M AgentResult :=
  fun st =>
    let '(took, outcome) :=
      delegate agent_id action parameters (store st, hdo) timeout_seconds
               (clock st) (length (delegated st)) in
    (outcome,
     with_clock (clock st + Z.max 0 took)
       (with_delegated (delegated st ++ [(agent_id, action, has_raised outcome)]) st)).

Definition orchestra_invoke (args : InvokeArgs) (ctx : InvokeContext)
  : M AgentResult :=
  let agent_id := a_agent_id args in
  let action := a_action args in
  let parameters := a_parameters args in
  let step_id := a_step_id args in
  let altitude := a_altitude args in
  let timeout_seconds := a_timeout_seconds args in
  let process_id := ic_process_id ctx in
  let hdo := ic_hdo ctx in
  if String.eqb agent_id "" then raise (ValueError "agent_id is required")
  else if String.eqb action "" then raise (ValueError "action is required")
  else if String.eqb process_id "" then
    raise (ValueError "process_id is required in context")
  else
    let* s := gets store in
    lift (_validate_heir_ids process_id s hdo) ;;;
    let* execution_id := new_uuid in
    let* started := now in
    let execution_context :=
      mkExecutionContext execution_id agent_id action step_id altitude
        process_id (isoformat started) timeout_seconds in
    modify (fun st =>
      with_active (<[execution_id := execution_context]> (active_orchestrations st)) st) ;;;
    try_finally
      (try_except
         (_post_sidecar_event "orchestration_started" execution_context ;;;
          let* result :=
            call_delegate agent_id action parameters hdo timeout_seconds in
          _post_sidecar_event "orchestration_completed" execution_context ;;;
          ret result)
         (fun e =>
            let error_ctx :=
              mkCallContext (ctx_current_agent_id (ic_call ctx))
                (Some (mkCurrentStep (Some step_id) (Some agent_id)
                                     (Some action) (Some altitude)))
                (ctx_mcp_session_id (ic_call ctx))
                (ctx_mcp_tool_name (ic_call ctx)) in
            let* error_record := build_error_record ByInvoke hdo error_ctx e in
            _insert_error_record error_record ;;;
            _post_sidecar_event "orchestration_failed" execution_context ;;;
            raise (RuntimeError ("Agent " ++ agent_id ++ " failed; error_id=" ++
                                 error_id error_record))))
      (modify (fun st =>
         with_active (delete execution_id (active_orchestrations st)) st)).

(** *** orchestra_runner.py: reading the log *)

(** [entry.get('details', {}).get('step_id')] *)
Definition entry_step_id (entry : LogEntry) : option JVal :=
  le_details entry !! "step_id".

Definition opt_truthy (v : option JVal) : bool :=
  match v with
  | Some v => truthy v
  | None => false
  end.

(** The dict comprehension of the two dependency checks: the status of the
    last completed or failed entry of each step id.  Step ids are strings. *)
Definition completed_steps (lg : list LogEntry) : gmap string string :=
  fold_left
    (fun acc entry =>
       if opt_truthy (entry_step_id entry) &&
          PyStr.mem (le_status entry) ["completed"; "failed"]
       then match entry_step_id entry with
            | Some (JStr sid) => <[sid := le_status entry]> acc
            | _ => acc
            end
       else acc)
    lg ∅.

Definition _all_dependencies_successful (lg : list LogEntry)
    (step_ids : list string) : bool :=
  match step_ids with
  | [] => true
  | _ =>
      let done := completed_steps lg in
      forallb (fun step_id =>
                 match done !! step_id with
                 | Some status => String.eqb status "completed"
                 | None => false
                 end) step_ids
  end.

Definition _any_dependencies_failed (lg : list LogEntry)
    (step_ids : list string) : bool :=
  match step_ids with
  | [] => false
  | _ =>
      let done := completed_steps lg in
      existsb (fun step_id =>
                 match done !! step_id with
                 | Some status => String.eqb status "failed"
                 | None => false
                 end) step_ids
  end.

(** [entry.get('details', {}).get('promotion_decision') is not None] *)
Definition promotion_of (entry : LogEntry) : option JVal :=
  match le_details entry !! "promotion_decision" with
  | Some JNull => None
  | other => other
  end.

(** The loop over [reversed(log)], written over the reversed list.  The
    value found is only ever used as a condition, so its truth value is
    what is returned. *)
Fixpoint first_promotion_decision (rev_log : list LogEntry) : bool :=
  match rev_log with
  | [] => false
  | entry :: rest =>
      if String.eqb (le_agent_id entry) "middle-subagent-enforcer" &&
         String.eqb (le_status entry) "completed" &&
         bool_decide (is_Some (promotion_of entry))
      then opt_truthy (promotion_of entry)
      else first_promotion_decision rest
  end.

Definition _check_promotion_decision (lg : list LogEntry) : bool :=
  first_promotion_decision (rev lg).

Definition _evaluate_condition_expression (lg : list LogEntry)
    (expression : string) : bool :=
  if String.eqb expression "true" then true
  else if String.eqb expression "false" then false
  else if PyStr.contains "enforcer.promotion_decision == true" expression
  then _check_promotion_decision lg
  else true.

Definition _should_execute_step (lg : list LogEntry) (step : Step) : bool :=
  let condition :=
    default "always" (w ← when step; condition w) in
  let deps := default [] (w ← when step; depends_on w) in
  if String.eqb condition "always" then true
  else if String.eqb condition "on_success" then
    _all_dependencies_successful lg deps
  else if String.eqb condition "on_failure" then
    _any_dependencies_failed lg deps
  else if String.eqb condition "conditional" then
    _evaluate_condition_expression lg
      (default "true" (w ← when step; expression w))
  else false.

Definition is_failed_entry_of (step_id : string) (entry : LogEntry) : bool :=
  match entry_step_id entry with
  | Some (JStr sid) => String.eqb sid step_id && String.eqb (le_status entry) "failed"
  | _ => false
  end.

Definition _get_step_retry_count (lg : list LogEntry) (step_id : string) : Z :=
  Z.of_nat (length (filter (fun e => is_failed_entry_of step_id e = true) lg)).

Definition step_max_retries (step : Step) : Z :=
  default 0%Z (p ← retry_policy step; max_retries p).

Definition step_retry_on (step : Step) : list string :=
  default [] (p ← retry_policy step; retry_on p).

Definition step_backoff_seconds (step : Step) : Z :=
  default 5%Z (p ← retry_policy step; backoff_seconds p).

Definition _should_retry_step (lg : list LogEntry) (step : Step) (error : Exn)
  : bool :=
  let max_retries := step_max_retries step in
  let retry_on := step_retry_on step in
  if (max_retries <=? 0)%Z then false
  else
    let retry_count := _get_step_retry_count lg (step_id step) in
    if (retry_count >=? max_retries)%Z then false
    else if PyStr.contains "timeout" (PyStr.lower (exn_msg error)) &&
            PyStr.mem "timeout" retry_on
    then true
    else if PyStr.mem "agent_failure" retry_on then true
    else false.

(** *** orchestra_runner.py: writing the HDO *)

(** [self.current_hdo['log'].append(entry)] *)
Definition log_append (entry : LogEntry) : M unit :=
  let* h := gets current_hdo in
  match log h with
  | None => raise (KeyError "log")
  | Some l =>
      mutate (fun st =>
        with_store (with_lists (<[l := (list_at (store st) l ++ [entry])%list]>
                                  (lists (store st)))
                               (store st)) st)
  end.

(** [self.current_hdo['timestamp_last_touched'] = t] *)
Definition touch (t : string) : M unit :=
  mutate (fun st =>
    with_current_hdo (set_timestamp_last_touched (Some t) (current_hdo st)) st).

(** [self.current_hdo[key].update(u)] for [key] one of payload and meta. *)
Definition dict_update_at (key : string) (ref : option loc) (u : Dict) : M unit :=
  match ref with
  | None => raise (KeyError key)
  | Some p =>
      mutate (fun st =>
        with_store (with_dicts (<[p := dict_update u (dict_at (store st) p)]>
                                  (dicts (store st)))
                               (store st)) st)
  end.

(** A new object of the store. *)
Definition new_list : M loc :=
  fun st =>
    let l := fresh (dom (lists (store st))) in
    (Returned l,
     with_store (with_lists (<[l := []]> (lists (store st))) (store st)) st).

Definition new_dict : M loc :=
  fun st =>
    let d := fresh (dom (dicts (store st))) in
    (Returned d,
     with_store (with_dicts (<[d := ∅]> (dicts (store st))) (store st)) st).

(** [if 'log' not in self.current_hdo: self.current_hdo['log'] = []] *)
Definition ensure_log : M unit :=
  let* h := gets current_hdo in
  match log h with
  | None =>
      let* l := new_list in
      mutate (fun st => with_current_hdo (set_log (Some l) (current_hdo st)) st)
  | Some _ => ret tt
  end.

(** [if 'meta' not in self.current_hdo: self.current_hdo['meta'] = {}] *)
Definition ensure_meta : M unit :=
  let* h := gets current_hdo in
  match meta h with
  | None =>
      let* m := new_dict in
      mutate (fun st => with_current_hdo (set_meta (Some m) (current_hdo st)) st)
  | Some _ => ret tt
  end.

(** [if 'altitude_trace' not in self.current_hdo.get('meta', {}): ...] *)
Definition ensure_altitude_trace : M unit :=
  let* hdo_meta := gets cur_meta in
  match hdo_meta !! "altitude_trace" with
  | None =>
      ensure_meta ;;;
      let* h := gets current_hdo in
      dict_update_at "meta" (meta h) {[ "altitude_trace" := JObj [] ]}
  | Some _ => ret tt
  end.

Definition _initialize_hdo_execution : M unit :=
  let* t := now in
  ensure_log ;;;
  ensure_altitude_trace ;;;
  let* plan := gets current_plan in
  log_append (start_entry (isoformat t) plan) ;;;
  touch (isoformat t).

Definition _record_step_start (step : Step) (start_time : Z) : M unit :=
  log_append (started_entry step (isoformat start_time)) ;;;
  touch (isoformat start_time).

Definition result_summary (result : AgentResult) : JVal :=
  if result_truthy result then JStr (PyStr.take 200 (str_result result))
  else JNull.

Definition _record_step_completion (step : Step) (start_time end_time : Z)
    (duration_ms : Z) (result : AgentResult) : M unit :=
  log_append (completed_entry step (isoformat end_time) duration_ms
                (result_summary result)) ;;;
  touch (isoformat end_time).

Definition _record_step_failure (step : Step) (start_time end_time : Z)
    (duration_ms : Z) (error : Exn) : M unit :=
  log_append (failed_entry step (isoformat end_time) duration_ms error) ;;;
  touch (isoformat end_time).

Definition _record_step_skipped (step : Step) : M unit :=
  let* t := now in
  log_append (skipped_entry step (isoformat t)) ;;;
  touch (isoformat t).

Definition _complete_hdo_execution : M unit :=
  let* t := now in
  let* plan := gets current_plan in
  let* lg := gets cur_log in
  log_append
    (complete_entry (isoformat t) plan
       (Z.of_nat (length (filter (fun entry =>
                    opt_truthy (entry_step_id entry) = true) lg)))) ;;;
  touch (isoformat t) ;;;
  mutate (fun st => with_current_hdo (set_stage (Some "output") (current_hdo st)) st) ;;;
  mutate (fun st => with_current_hdo (set_validated (Some true) (current_hdo st)) st).

Definition _apply_hdo_updates (updates : HdoUpdates) : M unit :=
  (match u_payload updates with
   | Some u => let* h := gets current_hdo in dict_update_at "payload" (payload h) u
   | None => ret tt
   end) ;;;
  (match u_meta updates with
   | Some u => let* h := gets current_hdo in dict_update_at "meta" (meta h) u
   | None => ret tt
   end) ;;;
  (match u_stage updates with
   | Some v =>
       mutate (fun st => with_current_hdo (set_stage (Some v) (current_hdo st)) st)
   | None => ret tt
   end) ;;;
  (match u_validated updates with
   | Some v =>
       mutate (fun st => with_current_hdo (set_validated (Some v) (current_hdo st)) st)
   | None => ret tt
   end) ;;;
  (match u_promoted_to updates with
   | Some v =>
       mutate (fun st => with_current_hdo (set_promoted_to (Some v) (current_hdo st)) st)
   | None => ret tt
   end).

Definition initial_error_context : JVal :=
  JObj [("last_error_id", JNull); ("error_count", JNum 0);
        ("retry_count", JNum 0); ("max_retries", JNum 3)].

(** [self.current_hdo['meta'][key] = v] *)
Definition meta_set (key : string) (v : JVal) : M unit :=
  let* h := gets current_hdo in
  match meta h with
  | None => raise (KeyError "meta")
  | Some m =>
      mutate (fun st =>
        with_store (with_dicts (<[m := <[key := v]> (dict_at (store st) m)]>
                                  (dicts (store st)))
                               (store st)) st)
  end.

Definition _record_hdo_error (error_record : ErrorRecord) : M unit :=
  ensure_meta ;;;
  let* hdo_meta := gets cur_meta in
  (match hdo_meta !! "error_context" with
   | None => meta_set "error_context" initial_error_context
   | Some _ => ret tt
   end) ;;;
  (* ...['error_context']['last_error_id'] = error_record['error_id'] *)
  let* hdo_meta := gets cur_meta in
  (match hdo_meta !! "error_context" with
   | Some (JObj o) =>
       meta_set "error_context"
         (JObj (assoc_set "last_error_id" (JStr (error_id error_record)) o))
   | Some _ => raise (TypeError "object does not support item assignment")
   | None => raise (KeyError "error_context")
   end) ;;;
  (* ...['error_context']['error_count'] += 1 *)
  let* hdo_meta := gets cur_meta in
  match hdo_meta !! "error_context" with
  | Some (JObj o) =>
      match assoc_get "error_count" o with
      | Some (JNum n) =>
          meta_set "error_context" (JObj (assoc_set "error_count" (JNum (n + 1)) o))
      | Some (JBool b) =>
          meta_set "error_context"
            (JObj (assoc_set "error_count" (JNum ((if b then 1 else 0) + 1)) o))
      | Some _ => raise (TypeError "unsupported operand type(s) for +=")
      | None => raise (KeyError "error_count")
      end
  | Some _ => raise (TypeError "object is not subscriptable")
  | None => raise (KeyError "error_context")
  end.

(** *** orchestra_runner.py: executing the plan *)

Definition _invoke_step (step : Step) (mcp_call_context : option CallContext)
  : M AgentResult :=
  let invoke_args :=
    mkInvokeArgs (agent_id step) (action step) (step_parameters step)
      (step_id step) (altitude step) (default 120%Z (timeout_seconds step)) in
  let* h := gets current_hdo in
  let* plan := gets current_plan in
  let invoke_context :=
    mkInvokeContext (process_id h) h plan
      (default empty_context mcp_call_context) in
  let* result := orchestra_invoke invoke_args invoke_context in
  (match res_hdo_updates result with
   | Some updates => _apply_hdo_updates updates
   | None => ret tt
   end) ;;;
  ret result.

(** [_execute_step] calls itself to retry; [depth] bounds the nesting of
    these calls, and running out of it is Python's [RecursionError]. *)
Fixpoint _execute_step (depth : nat) (step : Step)
    (mcp_call_context : option CallContext) : M unit :=
  match depth with
  | O => raise (RecursionError "maximum recursion depth exceeded")
  | S depth' =>
      let* go := gets (fun st => _should_execute_step (cur_log st) step) in
      if negb go then _record_step_skipped step
      else
        let* start_time := now in
        try_except
          (_record_step_start step start_time ;;;
           let* step_result := _invoke_step step mcp_call_context in
           let* end_time := now in
           let duration_ms := (end_time - start_time)%Z in
           _record_step_completion step start_time end_time duration_ms step_result)
          (fun e =>
             let* end_time := now in
             let duration_ms := (end_time - start_time)%Z in
             _record_step_failure step start_time end_time duration_ms e ;;;
             let* again := gets (fun st => _should_retry_step (cur_log st) step e) in
             if again then
               sleep (step_backoff_seconds step * 1000) ;;;
               _execute_step depth' step mcp_call_context
             else raise e)
  end.

(** Enough depth for every retry the policy of [step] allows. *)
Definition retry_depth (step : Step) : nat :=
  S (Z.to_nat (step_max_retries step)).

(** The [try] suite of [run_altitude_plan]. *)
Definition plan_body (plan : Plan) (mcp_call_context : option CallContext)
  : M HDO :=
  _initialize_hdo_execution ;;;
  for_each (default [] (steps plan))
    (fun step => _execute_step (retry_depth step) step mcp_call_context) ;;;
  _complete_hdo_execution ;;;
  gets current_hdo.

(** The message of the error that [run_altitude_plan] raises. *)
Definition failure_message (plan : Plan) (error_record : ErrorRecord) : string :=
  "Orchestration plan " ++ plan_id plan ++ " failed; error_id=" ++
  error_id error_record.

(** The [except] suite of [run_altitude_plan]. *)
Definition plan_failed (plan : Plan) (mcp_call_context : option CallContext)
    (e : Exn) : M HDO :=
  let* h := gets current_hdo in
  let* error_record :=
    build_error_record ByRunner h (default empty_context mcp_call_context) e in
  _insert_error_record error_record ;;;
  _record_hdo_error error_record ;;;
  raise (RuntimeError (failure_message plan error_record)).

Definition run_altitude_plan (plan : Plan) (hdo : HDO)
    (mcp_call_context : option CallContext) : M HDO :=
  modify (with_current_plan plan) ;;;
  mutate (with_current_hdo (dict_copy hdo)) ;;;
  try_except (plan_body plan mcp_call_context)
             (plan_failed plan mcp_call_context).

End Program.

(** The state in which an invocation starts: the caller's store, the clock
    and the number of identifiers handed out so far; nothing recorded. *)
Definition start_state (s : Store) (t : Z) (n : nat) (plan : Plan) (hdo : HDO) : St :=
  mkSt s hdo plan t n ∅ [] [] [] [] [].

(** ** error_sink.py: the snapshot of an HDO *)

Section ErrorSinkSnapshot.

Context (py_str : JVal -> string).

(** [snapshot['payload_summary']]: the names of the payload's keys and the
    length of its printed form.  The keys come in the order in which the
    map enumerates them. *)
Record PayloadSummary : Type := mkPayloadSummary {
  ps_keys : list string;
  ps_size : Z
}.

Record Snapshot : Type := mkSnapshot {
  sn_process_id : option string;
  sn_blueprint_id : option string;
  sn_stage : option string;
  sn_validated : option bool;
  sn_promoted_to : option (option string);
  sn_timestamp_last_touched : option string;
  sn_meta : option Dict;
  sn_log : option (list LogEntry);
  sn_payload_summary : option PayloadSummary
}.

Definition safe_meta_keys : list string :=
  ["plan_id"; "plan_version"; "plan_hash"; "idempotency_key"; "error_context"].

(** The loop [for key in safe_meta_keys: if key in hdo['meta']: ...]. *)
Definition copy_safe_keys (hdo_meta : Dict) : Dict :=
  fold_left
    (fun snapshot_meta key =>
       match hdo_meta !! key with
       | Some v => <[key := v]> snapshot_meta
       | None => snapshot_meta
       end)
    safe_meta_keys ∅.

(** [_create_hdo_snapshot(hdo)] *)
Definition _create_hdo_snapshot (s : Store) (hdo : HDO) : Snapshot :=
  mkSnapshot
    (Some (process_id hdo)) (blueprint_id hdo) (stage hdo) (validated hdo)
    (promoted_to hdo) (timestamp_last_touched hdo)
    (option_map copy_safe_keys (meta_of s hdo))
    (option_map (last_n 10) (log_of s hdo))
    (option_map
       (fun hdo_payload =>
          mkPayloadSummary
            (map fst (map_to_list hdo_payload))
            (Z.of_nat (String.length (py_str (JObj (map_to_list hdo_payload))))))
       (payload_of s hdo)).

End ErrorSinkSnapshot.

(** ** orchestra.py: monitoring *)

(** [get_active_orchestrations()]: a copy of the registry. *)
Definition get_active_orchestrations : M (gmap string ExecutionContext) :=
  gets active_orchestrations.

(** * Notions used to state the properties *)

(** ** The severity policy *)

Module SeverityPolicy.
Import PyStr.







End SeverityPolicy.

(** ** Dispatch of the agent delegate *)

Module Dispatch.
Import PyStr.

(** The categories in the order in which [_delegate_to_agent] tries them. *)
Definition table : list (string * Category) :=
  [("orchestrator", Orchestrator); ("mapper", Mapper); ("validator", Validator);
   ("db", DbAgent); ("enforcer", Enforcer); ("notifier", Notifier);
   ("reporter", Reporter)].

(** [c] is the category of the first word of the table that occurs in
    [agent_id] as it is written, or [Generic] when none occurs. *)
Definition first_match (agent_id : string) (c : Category) : Prop :=
  (exists before word after,
      table = (before ++ (word, c) :: after)%list /\
      occurs_in word agent_id /\
      Forall (fun entry => ~ occurs_in entry.1 agent_id) before)
  \/ (c = Generic /\ Forall (fun entry => ~ occurs_in entry.1 agent_id) table).

(** What the claim asks of a selection [f]: identifiers that differ only in
    letter case get the same behaviour. *)
Definition case_insensitive (f : string -> Category) : Prop :=
  forall a b, same_up_to_case a b -> f a = f b.

End Dispatch.

(** ** States, logs and traces of an invocation *)

(** [m] relates every state to the state it leaves, whatever the outcome. *)
Definition keeps {A} (R : St -> St -> Prop) (m : M A) : Prop :=
  forall st, R st (m st).2.

(** The entries that the runner itself appends. *)
Inductive made : LogEntry -> Prop :=
| made_start t plan : made (start_entry t plan)
| made_started step t : made (started_entry step t)
| made_completed step t d summary : made (completed_entry step t d summary)
| made_failed step t d e : made (failed_entry step t d e)
| made_skipped step t : made (skipped_entry step t)
| made_complete t plan n : made (complete_entry t plan n).

(** The logs of the states of a trace only grow. *)
Definition chain (tr : list (Store * HDO)) : Prop :=
  forall i j p q, i <= j -> tr !! i = Some p -> tr !! j = Some q ->
    log_at p `prefix_of` log_at q.

Definition trace_ok (st : St) : Prop :=
  chain (trace st) /\
  Forall (fun p => log_at p `prefix_of` cur_log st) (trace st).

(** What every operation of the runner respects: the plan and the process
    id stay, the log grows by entries of the runner, error records are only
    added (by callers that [Q] admits), the HDO keeps the log list it has,
    and the trace stays a chain. *)
Record frame (Q : Origin -> Prop) (st st' : St) : Prop := mkFrame {
  fr_plan : current_plan st' = current_plan st;
  fr_pid : process_id (current_hdo st') = process_id (current_hdo st);
  fr_log : exists new, cur_log st' = (cur_log st ++ new)%list /\ Forall made new;
  fr_built : exists nb, built st' = (built st ++ nb)%list /\
                        Forall (fun p => Q p.1) nb;
  fr_logref : forall l, log (current_hdo st) = Some l ->
                        log (current_hdo st') = Some l;
  fr_trace : trace_ok st -> trace_ok st';
  fr_history : trace st `prefix_of` trace st'
}.

(** The state in which the body starts: the plan is bound and the HDO
    copied. *)
Definition entered (s : Store) (t : Z) (n : nat) (plan : Plan) (hdo : HDO) : St :=
  mkSt s (dict_copy hdo) plan t n ∅ [] [] [] [] [(s, dict_copy hdo)].

Definition no_promotion (e : LogEntry) : Prop :=
  le_details e !! "promotion_decision" = None.

Definition promotion_expression : string := "enforcer.promotion_decision == true".

(** A step whose [when] is the conditional on the enforcer's decision. *)
Definition asks_promotion (step : Step) : Prop :=
  exists w expr,
    when step = Some w /\ condition w = Some "conditional" /\
    expression w = Some expr /\ PyStr.occurs_in promotion_expression expr.

(** The check that [orchestra_invoke] makes when called from [_invoke_step]
    in state [st]. *)
Definition ids_check (st : St) : Outcome unit :=
  _validate_heir_ids (process_id (current_hdo st)) (store st) (current_hdo st).

(** Nothing but the log (and the time stamp of the HDO) has changed. *)
Record only_logged (st st' : St) : Prop := mkOnlyLogged {
  ol_pid : process_id (current_hdo st') = process_id (current_hdo st);
  ol_dicts : dicts (store st') = dicts (store st);
  ol_log : log (current_hdo st') = log (current_hdo st);
  ol_meta : meta (current_hdo st') = meta (current_hdo st);
  ol_payload : payload (current_hdo st') = payload (current_hdo st);
  ol_plan : current_plan st' = current_plan st;
  ol_clock : clock st' = clock st;
  ol_uuids : uuids st' = uuids st;
  ol_built : built st' = built st;
  ol_delegated : delegated st' = delegated st
}.



(** [meta.error_context.last_error_id] of the runner's HDO. *)
Definition last_error_id (st : St) : option JVal :=
  match cur_meta st !! "error_context" with
  | Some (JObj o) => assoc_get "last_error_id" o
  | _ => None
  end.

(** The error context the caller passed in, if any, is a mapping with a
    count that can be incremented. *)
Definition error_context_ok (m : Dict) : Prop :=
  match m !! "error_context" with
  | None => True
  | Some (JObj o) =>
      match assoc_get "error_count" o with
      | Some (JNum _) | Some (JBool _) => True
      | _ => False
      end
  | Some _ => False
  end.

(** Error records and delegations are as they were. *)
Definition hushed (st st' : St) : Prop :=
  built st' = built st /\ delegated st' = delegated st.

Definition record_error_kind (e : Exn) : Prop :=
  exn_type e = "KeyError" \/ exn_type e = "TypeError".

(** The checks before delegation, and what they raise. *)
Definition precheck (args : InvokeArgs) (ictx : InvokeContext) (st : St)
  : option Exn :=
  if String.eqb (a_agent_id args) "" then Some (ValueError "agent_id is required")
  else if String.eqb (a_action args) "" then Some (ValueError "action is required")
  else if String.eqb (ic_process_id ictx) "" then
    Some (ValueError "process_id is required in context")
  else
    match _validate_heir_ids (ic_process_id ictx) (store st) (ic_hdo ictx) with
    | Raised e => Some e
    | Returned _ => None
    end.

(** What a delegation leaves of the state: the HDO, the store, the plan
    and the trace are as before; time has passed and the call is noted. *)
Record delegated_once (args : InvokeArgs) (took : Z) (raised : bool)
    (st st1 : St) : Prop :=
  mkDelegatedOnce {
  do_store : store st1 = store st;
  do_hdo : current_hdo st1 = current_hdo st;
  do_plan : current_plan st1 = current_plan st;
  do_trace : trace st1 = trace st;
  do_clock : clock st1 = (clock st + Z.max 0 took)%Z;
  do_delegated :
    delegated st1
    = (delegated st ++ [(a_agent_id args, a_action args, raised)])%list
}.

Definition failed_calls (d : list (string * string * bool)) : nat :=
  length (filter (fun c => c.2 = true) d).

Definition by_invoke (o : Origin) : bool :=
  match o with
  | ByInvoke => true
  | ByRunner => false
  end.

Definition invoke_records (b : list (Origin * ErrorRecord)) : nat :=
  length (filter (fun p => by_invoke p.1 = true) b).

(** As many records were built inside [orchestra_invoke] as delegations
    have raised. *)
Definition tally (st st' : St) : Prop :=
  invoke_records (built st') + failed_calls (delegated st)
  = invoke_records (built st) + failed_calls (delegated st').

(** The delegate raises whenever it is called for [step]. *)
Definition always_raises (delegate : Delegate) (step : Step) : Prop :=
  forall h timeout now calls,
    exists took e,
      delegate (agent_id step) (action step) (step_parameters step) h timeout
               now calls = (took, Raised e).

(** The state in which the steps start. *)
Definition initialized (isoformat : Z -> string) (s : Store) (t : Z) (n : nat)
    (plan : Plan) (hdo : HDO) : St :=
  (_initialize_hdo_execution isoformat (entered s t n plan hdo)).2.



(** The delegate answers [res] after [took] whenever it is called for
    [step]. *)
Definition answers (delegate : Delegate) (step : Step) (took : Z)
    (res : AgentResult) : Prop :=
  forall h timeout now calls,
    delegate (agent_id step) (action step) (step_parameters step) h timeout
             now calls = (took, Returned res).

(** What an update of the payload and of top-level fields leaves. *)
Record payload_updated (st st' : St) : Prop := mkPayloadUpdated {
  pu_lists : lists (store st') = lists (store st);
  pu_log : log (current_hdo st') = log (current_hdo st);
  pu_payload : payload (current_hdo st') = payload (current_hdo st);
  pu_pid : process_id (current_hdo st') = process_id (current_hdo st);
  pu_key : cur_meta st' !! "idempotency_key" = cur_meta st !! "idempotency_key";
  pu_plan : current_plan st' = current_plan st;
  pu_clock : clock st' = clock st
}.

(** ** The language of a regular expression *)

Module ReSpec.
Import Re.








End ReSpec.

(** ** What the log says of a dependency *)

(** The entry settles the outcome of step [sid]: it carries that step id
    and its status is completed or failed. *)
Definition settles (sid : string) (entry : LogEntry) : bool :=
  match entry_step_id entry with
  | Some (JStr s) =>
      String.eqb s sid && negb (String.eqb s "") &&
      PyStr.mem (le_status entry) ["completed"; "failed"]
  | _ => false
  end.

(** The status of the last entry of the log that settles [sid]. *)
Definition last_settled (lg : list LogEntry) (sid : string) : option string :=
  le_status <$> last (filter (fun entry => settles sid entry = true) lg).

(** ** What an invocation leaves behind *)

(** [f] of the state is as it was. *)
Definition still {X} (f : St -> X) (st st' : St) : Prop := f st' = f st.

(** The events posted to the sidecar come in pairs, one pair for each
    delegation and in the same order: [orchestration_started], then
    [orchestration_failed] when the delegate raised and
    [orchestration_completed] when it returned, both of the same
    execution and of the agent delegated to. *)
Fixpoint paired (events : list SidecarEvent)
    (calls : list (string * string * bool)) : Prop :=
  match events, calls with
  | [], [] => True
  | first :: second :: events', (agent, action, raised) :: calls' =>
      ev_type first = "orchestration_started" /\
      ev_type second = (if raised : bool then "orchestration_failed"
                        else "orchestration_completed") /\
      ev_execution_id second = ev_execution_id first /\
      ev_agent_id first = agent /\ ev_agent_id second = agent /\
      paired events' calls'
  | _, _ => False
  end.

(** The numbers [indices] go up, from [lo] at least and below [hi]. *)
Fixpoint within (lo hi : nat) (indices : list nat) : Prop :=
  match indices with
  | [] => lo <= hi
  | i :: rest => lo <= i /\ within (S i) hi rest
  end.

(** From [st] to [st']: no orchestration has been added to the registry
    of active ones; the error records built have been inserted, in the
    order in which they were built, each with an identifier that [uuid4]
    handed out in between, later ones later; and the sidecar has got its
    pair of events for every delegation. *)
Record ledger (uuid4 : nat -> string) (st st' : St) : Prop := mkLedger {
  lg_active : active_orchestrations st' ⊆ active_orchestrations st;
  lg_records :
    exists new_records indices,
      built st' = (built st ++ new_records)%list /\
      inserted st' = (inserted st ++ map snd new_records)%list /\
      map (fun p => error_id p.2) new_records = map uuid4 indices /\
      within (uuids st) (uuids st') indices;
  lg_events :
    exists new_events new_calls,
      sidecar st' = (sidecar st ++ new_events)%list /\
      delegated st' = (delegated st ++ new_calls)%list /\
      paired new_events new_calls
}.

(** ** Retries *)

(** The retries that the policy of [step] still allows when the log holds
    the failed entries of [lg]. *)
Definition attempts_left (step : Step) (lg : list LogEntry) : nat :=
  Z.to_nat (step_max_retries step - _get_step_retry_count lg (step_id step)).

Section Attempt.
Context (uuid4 : nat -> string)
        (isoformat : Z -> string)
        (py_str : JVal -> string)
        (str_result : AgentResult -> string)
        (delegate : Delegate).

(** One attempt of a step: the [try] suite of [_execute_step]. *)
Definition attempt (step : Step) (ctx : option CallContext) (start_time : Z)
  : M unit :=
  _record_step_start isoformat step start_time ;;;
  let* step_result := _invoke_step uuid4 isoformat py_str delegate step ctx in
  let* end_time := now in
  let duration_ms := (end_time - start_time)%Z in
  _record_step_completion isoformat str_result step start_time end_time
    duration_ms step_result.

End Attempt.

(** ** Steps that wait for other steps *)

(** The [when] of [step] makes it wait, on_success or on_failure, for the
    steps [deps]. *)
Definition waits_for (step : Step) (deps : list string) : Prop :=
  exists w,
    when step = Some w /\
    (condition w = Some "on_success" \/ condition w = Some "on_failure") /\
    depends_on w = Some deps.

(** The entry carries a step id, as the count of [_complete_hdo_execution]
    asks. *)
Definition carries_step_id (entry : LogEntry) : bool :=
  opt_truthy (entry_step_id entry).

(** ** The error context of an HDO *)

(** The [meta.error_context] that [_record_hdo_error] updates: the one the
    HDO has, or the initial one. *)
Definition context_before (hdo_meta : Dict) : list (string * JVal) :=
  match hdo_meta !! "error_context" with
  | Some (JObj o) => o
  | _ => match initial_error_context with
         | JObj o => o
         | _ => []
         end
  end.

(** Its [error_count], as a number. *)
Definition count_of (o : list (string * JVal)) : Z :=
  match assoc_get "error_count" o with
  | Some (JNum n) => n
  | Some (JBool b) => if b then 1 else 0
  | _ => 0
  end.

(** ** The shape of the log *)

(** The entries that executing [step] appends: a skipped entry; or a
    started entry followed by a completed entry; or a started entry
    followed by a failed entry and, when the step is retried, by the
    entries of the retry. *)
Inductive step_trace (step : Step) : list LogEntry -> Prop :=
| trace_skipped t :
    step_trace step [skipped_entry step t]
| trace_completed t t' d summary :
    step_trace step [started_entry step t; completed_entry step t' d summary]
| trace_failed t t' d e :
    step_trace step [started_entry step t; failed_entry step t' d e]
| trace_retried t t' d e rest :
    step_trace step rest ->
    step_trace step (started_entry step t :: failed_entry step t' d e :: rest).

(** What stays of the log when nothing is appended: its entries, and the
    list the HDO refers to. *)
Definition log_view (st : St) : list LogEntry * option loc :=
  (cur_log st, log (current_hdo st)).

(** ** Sample inputs

    Concrete stand-ins for the library functions, and the plans and HDOs
    on which the properties are exercised. *)

Module Sample.

Definition uuid4 (n : nat) : string :=
  "uuid-" ++ NilEmpty.string_of_uint (Nat.to_uint n).

Definition isoformat (t : Z) : string :=
  "T" ++ NilZero.string_of_int (Z.to_int t).

Definition strftime (t : Z) : string :=
  NilZero.string_of_int (Z.to_int t).

Definition py_str (v : JVal) : string := "<value>".

Definition str_result (r : AgentResult) : string := "<result>".

(** The repository's simulated sub-agents. *)
Definition simulation : Delegate := _delegate_to_agent isoformat strftime py_str.


(** The caller's objects: an empty log list and an empty payload dict. *)
Definition objects : Store := mkStore {[ 1%positive := [] ]} {[ 1%positive := ∅ ]}.

Definition demo_hdo : HDO :=
  mkHDO "PROC-demo-20250101-120000-001" None None None None
        (Some 1%positive) None (Some 1%positive) None.


Definition s1 : Step := mkStep "s1" "input-mapper" "map" 20000 None None None None.

Definition s2 : Step :=
  mkStep "s2" "input-validator" "validate" 20000 None None None None.

Definition demo_plan : Plan := mkPlan "demo-plan" "1.0.0" (Some [s1; s2]).


(** A step of the database agent in a mode it does not know, which makes
    the simulation raise at every attempt; one retry is allowed. *)
Definition rollback : Step :=
  mkStep "s3" "middle-db-agent" "migrate" 10000
         (Some {[ "mode" := JStr "rollback" ]}) None None
         (Some (mkRetryPolicy (Some 1%Z) (Some ["agent_failure"]) (Some 0%Z))).

Definition rollback_plan : Plan := mkPlan "rollback-plan" "1.0.0" (Some [rollback]).





(** A step waiting for the enforcer's decision. *)
Definition promoted_only : Step :=
  mkStep "s6" "output-notifier" "notify" 5000 None None
         (Some (mkWhen (Some "conditional") None
                       (Some "enforcer.promotion_decision == true")))
         None.

(** An invocation on the caller's objects, at instant 0. *)
Definition run (d : Delegate) (plan : Plan) (hdo : HDO) : Outcome HDO * St :=
  run_altitude_plan uuid4 isoformat py_str str_result d plan hdo None
                    (start_state objects 0 0 plan hdo).

(** The state of the runner before an invocation. *)
Definition idle (plan : Plan) (hdo : HDO) : St := start_state objects 0 0 plan hdo.

End Sample.

(** ** More sample inputs *)

Module Cases.

(** A step that waits for the success of [s1]. *)
Definition after_s1 : Step :=
  mkStep "s7" "output-reporter" "report" 5000 None None
         (Some (mkWhen (Some "on_success") (Some ["s1"]) None)) None.


(** A log in which [s1] has completed. *)
Definition s1_done : list LogEntry :=
  [started_entry Sample.s1 "T0"; completed_entry Sample.s1 "T500" 500 JNull].

(** An update of the payload and of the stage. *)
Definition sample_update : HdoUpdates :=
  mkHdoUpdates (Some {[ "mapped_data" := JStr "normalized" ]}) None
               (Some "middle") None None.

Definition sample_record : ErrorRecord :=
  mkErrorRecord "uuid-9" "T0" "PROC-demo-20250101-120000-001" "unknown"
                (JStr "unknown") (JStr "unknown") "unknown" "unknown" high
                "boom" "RuntimeError" None None.

End Cases.

(** * Properties *)

(** ** Substrings *)

Module PyStrFacts.
Import PyStr.

Lemma append_cons (c : ascii) (a b : string) : String c a ++ b = String c (a ++ b).
Proof. reflexivity. Qed.

Lemma append_nil (a : string) : "" ++ a = a.
Proof. reflexivity. Qed.


Lemma prefix_spec (a b : string) :
  String.prefix a b = true <-> exists post, b = a ++ post.
Proof.
  revert b. induction a as [|c a IH]; intros b.
  - split; [intros _; exists b; reflexivity | destruct b; reflexivity].
  - destruct b as [|c' b]; simpl.
    + split; [discriminate | intros [post H]; discriminate].
    + destruct (ascii_dec c c') as [->|Hne].
      * rewrite IH. split; intros [post H]; exists post;
          [rewrite H; reflexivity | rewrite append_cons in H; inversion H; reflexivity].
      * split; [discriminate |
                intros [post H]; rewrite append_cons in H; inversion H; congruence].
Qed.

Lemma contains_spec (needle hay : string) :
  contains needle hay = true <-> occurs_in needle hay.
Proof.
  induction hay as [|c hay IH]; cbn [contains].
  - rewrite orb_false_r, prefix_spec. split.
    + intros [post H]. exists "", post. exact H.
    + intros [pre [post H]]. destruct pre as [|? ?]; [|discriminate].
      exists post. exact H.
  - rewrite orb_true_iff, prefix_spec, IH. split.
    + intros [[post H]|[pre [post H]]].
      * exists "", post. exact H.
      * exists (String c pre), post. rewrite append_cons, H. reflexivity.
    + intros [pre [post H]]. destruct pre as [|c' pre].
      * left. exists post. exact H.
      * right. rewrite append_cons in H. inversion H. exists pre, post. reflexivity.
Qed.

Lemma contains_false (needle hay : string) :
  contains needle hay = false <-> ~ occurs_in needle hay.
Proof.
  rewrite <- contains_spec. destruct (contains needle hay); split;
    congruence.
Qed.



Lemma occurs_in_refl (s : string) : occurs_in s s.
Proof.
  exists "", "". rewrite append_nil.
  induction s as [|c s IH]; [reflexivity|].
  rewrite append_cons, <- IH. reflexivity.
Qed.


End PyStrFacts.

(** ** Severity of an error record *)

Module SeverityFacts.
Import PyStr PyStrFacts SeverityPolicy.






End SeverityFacts.

(** ** Dispatch of the agent delegate *)

Module DispatchFacts.
Import PyStr PyStrFacts Dispatch.

Lemma select_category_first_match (agent_id : string) :
  first_match agent_id (select_category agent_id).
Proof.
  unfold select_category, first_match.
  destruct (contains "orchestrator" agent_id) eqn:H1.
  { left. exists [], "orchestrator", (tl table).
    repeat split; [apply contains_spec; exact H1 | constructor]. }
  destruct (contains "mapper" agent_id) eqn:H2.
  { left. exists (firstn 1 table), "mapper", (skipn 2 table).
    repeat split; [apply contains_spec; exact H2|].
    repeat constructor; apply contains_false; assumption. }
  destruct (contains "validator" agent_id) eqn:H3.
  { left. exists (firstn 2 table), "validator", (skipn 3 table).
    repeat split; [apply contains_spec; exact H3|].
    repeat constructor; apply contains_false; assumption. }
  destruct (contains "db" agent_id) eqn:H4.
  { left. exists (firstn 3 table), "db", (skipn 4 table).
    repeat split; [apply contains_spec; exact H4|].
    repeat constructor; apply contains_false; assumption. }
  destruct (contains "enforcer" agent_id) eqn:H5.
  { left. exists (firstn 4 table), "enforcer", (skipn 5 table).
    repeat split; [apply contains_spec; exact H5|].
    repeat constructor; apply contains_false; assumption. }
  destruct (contains "notifier" agent_id) eqn:H6.
  { left. exists (firstn 5 table), "notifier", (skipn 6 table).
    repeat split; [apply contains_spec; exact H6|].
    repeat constructor; apply contains_false; assumption. }
  destruct (contains "reporter" agent_id) eqn:H7.
  { left. exists (firstn 6 table), "reporter", (skipn 7 table).
    repeat split; [apply contains_spec; exact H7|].
    repeat constructor; apply contains_false; assumption. }
  right. split; [reflexivity|].
  repeat constructor; apply contains_false; assumption.
Qed.

(** C6, as the code has it.  The behaviour is chosen by the first of the
    words orchestrator, mapper, validator, db, enforcer, notifier, reporter
    that occurs in [agent_id] exactly as written (the match is
    case-sensitive), and is the generic one when none occurs. *)
Theorem C6_dispatch_case_sensitive
    (isoformat strftime : Z -> string) (py_str : JVal -> string)
    (agent_id action : string) (parameters : Dict) (hdo : Store * HDO)
    (timeout_seconds t : Z) (calls : nat) :
  first_match agent_id (select_category agent_id) /\
  _delegate_to_agent isoformat strftime py_str
    agent_id action parameters hdo timeout_seconds t calls
  = behaviour isoformat strftime py_str (select_category agent_id)
      agent_id action parameters t.
Proof.
  split; [apply select_category_first_match | reflexivity].
Qed.

(** C6 as stated fails: [Input-Mapper] and [input-mapper] differ only in
    letter case, yet the first gets the generic behaviour and the second
    the mapper's. *)
Lemma C6_case_matters :
  same_up_to_case "Input-Mapper" "input-mapper" /\
  select_category "Input-Mapper" = Generic /\
  select_category "input-mapper" = Mapper /\
  ~ case_insensitive select_category.
Proof.
  assert (H : same_up_to_case "Input-Mapper" "input-mapper") by reflexivity.
  repeat split; try reflexivity.
  intros Hci. specialize (Hci _ _ H). vm_compute in Hci. discriminate.
Qed.

End DispatchFacts.

(** ** Reasoning about the monad *)

Lemma bind_Returned {A B} (m : M A) (k : A -> M B) st b st' :
  bind m k st = (Returned b, st') ->
  exists a st1, m st = (Returned a, st1) /\ k a st1 = (Returned b, st').
Proof.
  unfold bind. destruct (m st) as [[a|e] st1]; intros H.
  - exists a, st1. split; [reflexivity | exact H].
  - discriminate.
Qed.

Lemma bind_Raised {A B} (m : M A) (k : A -> M B) st e st' :
  bind m k st = (Raised e, st') ->
  m st = (Raised e, st') \/
  exists a st1, m st = (Returned a, st1) /\ k a st1 = (Raised e, st').
Proof.
  unfold bind. destruct (m st) as [[a|e0] st1]; intros H.
  - right. exists a, st1. split; [reflexivity | exact H].
  - left. inversion H. reflexivity.
Qed.

Lemma bind_run {A B} (m : M A) (k : A -> M B) st a st1 :
  m st = (Returned a, st1) -> bind m k st = k a st1.
Proof. unfold bind. intros ->. reflexivity. Qed.

Lemma bind_fail {A B} (m : M A) (k : A -> M B) st e st1 :
  m st = (Raised e, st1) -> bind m k st = (Raised e, st1).
Proof. unfold bind. intros ->. reflexivity. Qed.

Section Keeps.
Context (R : St -> St -> Prop) `{!PreOrder R}.

Lemma keeps_ret {A} (a : A) : keeps R (ret a).
Proof. intros st. reflexivity. Qed.

Lemma keeps_raise {A} (e : Exn) : keeps R (raise (A := A) e).
Proof. intros st. reflexivity. Qed.

Lemma keeps_gets {A} (f : St -> A) : keeps R (gets f).
Proof. intros st. reflexivity. Qed.

Lemma keeps_bind {A B} (m : M A) (k : A -> M B) :
  keeps R m -> (forall a, keeps R (k a)) -> keeps R (bind m k).
Proof.
  intros Hm Hk st. unfold bind. specialize (Hm st).
  destruct (m st) as [[a|e] st1]; simpl in *.
  - etransitivity; [exact Hm | apply Hk].
  - exact Hm.
Qed.

Lemma keeps_try_except {A} (m : M A) (h : Exn -> M A) :
  keeps R m -> (forall e, keeps R (h e)) -> keeps R (try_except m h).
Proof.
  intros Hm Hh st. unfold try_except. specialize (Hm st).
  destruct (m st) as [[a|e] st1]; simpl in *.
  - exact Hm.
  - etransitivity; [exact Hm | apply Hh].
Qed.

Lemma keeps_try_finally {A} (m : M A) (f : M unit) :
  keeps R m -> keeps R f -> keeps R (try_finally m f).
Proof.
  intros Hm Hf st. unfold try_finally. specialize (Hm st).
  destruct (m st) as [r st1]; simpl in *. specialize (Hf st1).
  destruct (f st1) as [[u|e] st2]; simpl in *;
    (etransitivity; [exact Hm | exact Hf]).
Qed.

Lemma keeps_for_each {A} (xs : list A) (body : A -> M unit) :
  (forall x, keeps R (body x)) -> keeps R (for_each xs body).
Proof.
  intros Hb. induction xs as [|x xs IH]; simpl.
  - apply keeps_ret.
  - apply keeps_bind; [apply Hb | intros _; exact IH].
Qed.

Lemma keeps_if {A} (b : bool) (m1 m2 : M A) :
  keeps R m1 -> keeps R m2 -> keeps R (if b then m1 else m2).
Proof. destruct b; auto. Qed.

End Keeps.

(** ** What the runner does to the log *)

Global Instance frame_preorder Q : PreOrder (frame Q).
Proof.
  split.
  - intros st. split.
    + reflexivity.
    + reflexivity.
    + exists []. rewrite app_nil_r. split; [reflexivity | constructor].
    + exists []. rewrite app_nil_r. split; [reflexivity | constructor].
    + tauto.
    + tauto.
    + reflexivity.
  - intros a b c [p1 i1 [n1 [l1 m1]] [b1 [e1 q1]] r1 t1 h1]
                 [p2 i2 [n2 [l2 m2]] [b2 [e2 q2]] r2 t2 h2].
    split.
    + congruence.
    + congruence.
    + exists (n1 ++ n2)%list. rewrite l2, l1, app_assoc.
      split; [reflexivity | apply Forall_app; split; assumption].
    + exists (b1 ++ b2)%list. rewrite e2, e1, app_assoc.
      split; [reflexivity | apply Forall_app; split; assumption].
    + intros l Hl. apply r2, r1, Hl.
    + tauto.
    + etransitivity; eassumption.
Qed.

Lemma frame_weaken (Q Q' : Origin -> Prop) st st' :
  (forall o, Q o -> Q' o) -> frame Q st st' -> frame Q' st st'.
Proof.
  intros HQ [p i l [nb [e q]] r t h]. split; try assumption.
  exists nb. split; [exact e|]. eapply Forall_impl; [exact q|].
  intros x Hx. apply HQ. exact Hx.
Qed.

Lemma chain_snoc tr p :
  chain tr -> Forall (fun q => log_at q `prefix_of` log_at p) tr ->
  chain (tr ++ [p]).
Proof.
  intros Hc Hall i j a b Hij Ha Hb.
  destruct (decide (j < length tr)) as [Hj|Hj].
  - rewrite lookup_app_l in Ha by lia. rewrite lookup_app_l in Hb by lia.
    eapply (Hc i j); eassumption.
  - assert (j = length tr) as ->.
    { apply lookup_lt_Some in Hb. rewrite length_app in Hb. simpl in Hb. lia. }
    rewrite lookup_app_r in Hb by lia. rewrite Nat.sub_diag in Hb.
    simpl in Hb. inversion Hb; subst b.
    destruct (decide (i < length tr)) as [Hi|Hi].
    + rewrite lookup_app_l in Ha by lia.
      rewrite Forall_forall in Hall. apply Hall.
      eapply list_elem_of_lookup_2. exact Ha.
    + assert (i = length tr) as -> by lia.
      rewrite lookup_app_r in Ha by lia. rewrite Nat.sub_diag in Ha.
      simpl in Ha. inversion Ha. reflexivity.
Qed.

(** A mutation [f] that itself keeps the records and the trace, and under
    which the log grows by entries of the runner. *)
Lemma frame_mutate_at Q (f : St -> St) (st : St) :
  current_plan (f st) = current_plan st ->
  process_id (current_hdo (f st)) = process_id (current_hdo st) ->
  (exists new, cur_log (f st) = (cur_log st ++ new)%list /\ Forall made new) ->
  built (f st) = built st ->
  (forall l, log (current_hdo st) = Some l -> log (current_hdo (f st)) = Some l) ->
  trace (f st) = trace st ->
  frame Q st (mutate f st).2.
Proof.
  intros Hp Hi [new [Hl Hm]] Hb Hr Ht.
  unfold mutate. cbn [snd].
  set (st' := with_trace (trace (f st) ++ [(store (f st), current_hdo (f st))]) (f st)).
  assert (Hlog : cur_log st' = cur_log (f st)) by reflexivity.
  assert (Htr : trace st' = (trace st ++ [(store (f st), current_hdo (f st))])%list)
    by (rewrite <- Ht; reflexivity).
  split.
  - exact Hp.
  - exact Hi.
  - exists new. rewrite Hlog. split; assumption.
  - exists []. rewrite app_nil_r. split; [exact Hb | constructor].
  - exact Hr.
  - intros [Hc Hall]. unfold trace_ok. rewrite Hlog, Htr.
    assert (Hall' : Forall (fun q => log_at q `prefix_of` cur_log (f st)) (trace st)).
    { eapply Forall_impl; [exact Hall|]. intros q Hq. cbv beta in Hq.
      etransitivity; [exact Hq|]. rewrite Hl. apply prefix_app_r. reflexivity. }
    split.
    + apply chain_snoc; assumption.
    + apply Forall_app. split; [exact Hall'|].
      constructor; [reflexivity | constructor].
  - rewrite Htr. apply prefix_app_r. reflexivity.
Qed.

Lemma frame_quiet Q st st' :
  lists (store st') = lists (store st) ->
  log (current_hdo st') = log (current_hdo st) ->
  process_id (current_hdo st') = process_id (current_hdo st) ->
  current_plan st' = current_plan st -> built st' = built st ->
  trace st' = trace st -> frame Q st st'.
Proof.
  intros Hs Hh Hi Hp Hb Ht.
  assert (Hl : cur_log st' = cur_log st).
  { unfold cur_log, log_at, log_of. simpl. rewrite Hs, Hh. reflexivity. }
  split.
  - exact Hp.
  - exact Hi.
  - exists []. rewrite app_nil_r. split; [exact Hl | constructor].
  - exists []. rewrite app_nil_r. split; [exact Hb | constructor].
  - rewrite Hh. tauto.
  - unfold trace_ok. rewrite Ht, Hl. tauto.
  - rewrite Ht. reflexivity.
Qed.

Lemma keeps_modify_quiet Q (f : St -> St) :
  (forall st, lists (store (f st)) = lists (store st) /\
              current_hdo (f st) = current_hdo st /\
              current_plan (f st) = current_plan st /\
              built (f st) = built st /\ trace (f st) = trace st) ->
  keeps (frame Q) (modify f).
Proof.
  intros Hf st. destruct (Hf st) as (H1 & H2 & H3 & H4 & H5).
  apply frame_quiet; simpl; try assumption; rewrite H2; reflexivity.
Qed.

(** A mutation that does not touch the log. *)
Lemma keeps_mutate_quiet Q (f : St -> St) :
  (forall st, lists (store (f st)) = lists (store st) /\
              log (current_hdo (f st)) = log (current_hdo st) /\
              process_id (current_hdo (f st)) = process_id (current_hdo st) /\
              current_plan (f st) = current_plan st /\
              built (f st) = built st /\ trace (f st) = trace st) ->
  keeps (frame Q) (mutate f).
Proof.
  intros Hf st.
  destruct (Hf st) as (H1 & H2 & H3 & H4 & H5 & H6).
  apply frame_mutate_at; try assumption.
  - exists []. rewrite app_nil_r. split; [|constructor].
    unfold cur_log, log_at, log_of. simpl. rewrite H1, H2. reflexivity.
  - rewrite H2. tauto.
Qed.

Lemma cur_log_append (l : loc) (entry : LogEntry) (st : St) :
  log (current_hdo st) = Some l ->
  cur_log (with_store
             (with_lists (<[l := (list_at (store st) l ++ [entry])%list]>
                            (lists (store st))) (store st)) st)
  = (cur_log st ++ [entry])%list.
Proof.
  intros Hl. unfold cur_log, log_at, log_of. simpl. rewrite Hl.
  rewrite lookup_insert_eq. reflexivity.
Qed.

Lemma keeps_run {A} (R : St -> St -> Prop) (m : M A) st o st' :
  keeps R m -> m st = (o, st') -> R st st'.
Proof. intros Hk H. specialize (Hk st). rewrite H in Hk. exact Hk. Qed.

Lemma try_except_Returned {A} (m : M A) (h : Exn -> M A) st a st' :
  try_except m h st = (Returned a, st') ->
  m st = (Returned a, st') \/
  exists e st1, m st = (Raised e, st1) /\ h e st1 = (Returned a, st').
Proof.
  unfold try_except. destruct (m st) as [[x|e] st1]; intros H.
  - left. exact H.
  - right. exists e, st1. split; [reflexivity | exact H].
Qed.

Lemma try_except_Raised {A} (m : M A) (h : Exn -> M A) st e st' :
  try_except m h st = (Raised e, st') ->
  exists e0 st1, m st = (Raised e0, st1) /\ h e0 st1 = (Raised e, st').
Proof.
  unfold try_except. destruct (m st) as [[x|e0] st1]; intros H.
  - discriminate.
  - exists e0, st1. split; [reflexivity | exact H].
Qed.

Lemma frame_length Q st st' :
  frame Q st st' -> length (cur_log st) <= length (cur_log st').
Proof.
  intros [_ _ [new [Hl _]] _ _ _]. rewrite Hl, length_app. lia.
Qed.

Lemma frame_prefix Q st st' :
  frame Q st st' -> cur_log st `prefix_of` cur_log st'.
Proof. intros [_ _ [new [Hl _]] _ _ _]. exists new. exact Hl. Qed.

Lemma log_append_Returned entry st st' :
  log_append entry st = (Returned tt, st') ->
  cur_log st' = (cur_log st ++ [entry])%list.
Proof.
  unfold log_append, bind, gets.
  destruct (log (current_hdo st)) as [l|] eqn:Hl; [|discriminate].
  unfold mutate. intros H. inversion H; subst st'. clear H.
  unfold cur_log, log_at, log_of, list_at. simpl. rewrite Hl, lookup_insert_eq.
  reflexivity.
Qed.

Set Default Proof Using "Type".

Section RunnerFacts.
Context (uuid4 : nat -> string)
        (isoformat : Z -> string)
        (strftime : Z -> string)
        (py_str : JVal -> string)
        (str_result : AgentResult -> string)
        (delegate : Delegate).

Abbreviation new_uuid := (new_uuid uuid4).
Abbreviation build_error_record := (build_error_record uuid4 isoformat py_str).
Abbreviation _post_sidecar_event := (_post_sidecar_event isoformat).
Abbreviation call_delegate := (call_delegate delegate).
Abbreviation orchestra_invoke := (orchestra_invoke uuid4 isoformat py_str delegate).
Abbreviation _initialize_hdo_execution := (_initialize_hdo_execution isoformat).
Abbreviation _record_step_start := (_record_step_start isoformat).
Abbreviation _record_step_completion := (_record_step_completion isoformat str_result).
Abbreviation _record_step_failure := (_record_step_failure isoformat).
Abbreviation _record_step_skipped := (_record_step_skipped isoformat).
Abbreviation _complete_hdo_execution := (_complete_hdo_execution isoformat).
Abbreviation _invoke_step := (_invoke_step uuid4 isoformat py_str delegate).
Abbreviation _execute_step :=
  (_execute_step uuid4 isoformat py_str str_result delegate).
Abbreviation run_altitude_plan :=
  (run_altitude_plan uuid4 isoformat py_str str_result delegate).
Abbreviation plan_body := (plan_body uuid4 isoformat py_str str_result delegate).
Abbreviation plan_failed := (plan_failed uuid4 isoformat py_str).
Abbreviation initialized := (initialized isoformat).
Abbreviation always_raises := (always_raises delegate).
Abbreviation answers := (answers delegate).

Ltac keeps_step :=
  lazymatch goal with
  | |- keeps ?R (ret _) => apply (keeps_ret R)
  | |- keeps ?R (raise _) => apply (keeps_raise R)
  | |- keeps ?R (gets _) => apply (keeps_gets R)
  | |- keeps ?R now => apply (keeps_gets R)
  | |- keeps ?R (lift _) => intros ?; reflexivity
  | |- keeps ?R (bind _ _) => apply (keeps_bind R); [|intros ?]
  | |- keeps ?R (try_except _ _) => apply (keeps_try_except R); [|intros ?]
  | |- keeps ?R (try_finally _ _) => apply (keeps_try_finally R)
  | |- keeps ?R (for_each _ _) => apply (keeps_for_each R); intros ?
  | |- keeps _ (match ?x with _ => _ end) => destruct x
  end.

Ltac quiet :=
  lazymatch goal with
  | |- keeps _ (modify _) => apply keeps_modify_quiet
  | |- keeps _ (mutate _) => apply keeps_mutate_quiet
  end;
  intros ?; repeat split; reflexivity.

Lemma keeps_sleep Q ms : keeps (frame Q) (sleep ms).
Proof. unfold sleep. quiet. Qed.

Lemma keeps_new_uuid Q : keeps (frame Q) new_uuid.
Proof. intros st. apply frame_quiet; reflexivity. Qed.

Lemma keeps_post_sidecar_event Q ty ec :
  keeps (frame Q) (_post_sidecar_event ty ec).
Proof. unfold _post_sidecar_event. repeat keeps_step. quiet. Qed.

Lemma keeps_insert_error_record Q r : keeps (frame Q) (_insert_error_record r).
Proof. unfold _insert_error_record. quiet. Qed.

Lemma keeps_call_delegate Q a ac ps h t :
  keeps (frame Q) (call_delegate a ac ps h t).
Proof.
  intros st. unfold call_delegate. destruct (delegate _ _ _ _ _ _ _) as [took o].
  apply frame_quiet; reflexivity.
Qed.

Lemma keeps_build_error_record (Q : Origin -> Prop) origin hdo ctx err :
  Q origin -> keeps (frame Q) (build_error_record origin hdo ctx err).
Proof.
  intros HQ. unfold build_error_record.
  apply keeps_bind; [apply _ | apply keeps_new_uuid | intros new_id].
  keeps_step; [keeps_step|].
  keeps_step. keeps_step; [keeps_step|]. keeps_step; [|keeps_step].
  intros st. cbn [snd modify].
  split.
  - reflexivity.
  - reflexivity.
  - exists []. rewrite app_nil_r. split; [reflexivity | constructor].
  - eexists [_]. split; [reflexivity|]. repeat constructor. exact HQ.
  - intros l Hl. exact Hl.
  - intros Ht. exact Ht.
  - reflexivity.
Qed.

Lemma keeps_log_append Q entry : made entry -> keeps (frame Q) (log_append entry).
Proof.
  intros Hm st. unfold log_append, bind, gets.
  destruct (log (current_hdo st)) as [l|] eqn:Hl; [|reflexivity].
  apply frame_mutate_at; try reflexivity.
  - exists [entry]. split; [apply cur_log_append; exact Hl | repeat constructor; exact Hm].
  - simpl. tauto.
Qed.

Lemma keeps_touch Q t : keeps (frame Q) (touch t).
Proof. unfold touch. quiet. Qed.

Lemma keeps_dict_update_at Q key ref u : keeps (frame Q) (dict_update_at key ref u).
Proof. unfold dict_update_at. destruct ref; [quiet | keeps_step]. Qed.

Lemma keeps_meta_set Q key v : keeps (frame Q) (meta_set key v).
Proof. unfold meta_set. keeps_step; [keeps_step|]. keeps_step; [quiet | keeps_step]. Qed.

Lemma keeps_new_dict Q : keeps (frame Q) new_dict.
Proof. intros st. apply frame_quiet; reflexivity. Qed.

Lemma keeps_record_step_start Q step t : keeps (frame Q) (_record_step_start step t).
Proof.
  unfold _record_step_start. keeps_step; [|apply keeps_touch].
  apply keeps_log_append. constructor.
Qed.

Lemma keeps_record_step_completion Q step s e d r :
  keeps (frame Q) (_record_step_completion step s e d r).
Proof.
  unfold _record_step_completion. keeps_step; [|apply keeps_touch].
  apply keeps_log_append. constructor.
Qed.

Lemma keeps_record_step_failure Q step s e d err :
  keeps (frame Q) (_record_step_failure step s e d err).
Proof.
  unfold _record_step_failure. keeps_step; [|apply keeps_touch].
  apply keeps_log_append. constructor.
Qed.

Lemma keeps_record_step_skipped Q step :
  keeps (frame Q) (_record_step_skipped step).
Proof.
  unfold _record_step_skipped. keeps_step; [keeps_step|].
  keeps_step; [|apply keeps_touch].
  apply keeps_log_append. constructor.
Qed.

Lemma keeps_complete_hdo_execution Q : keeps (frame Q) _complete_hdo_execution.
Proof.
  unfold _complete_hdo_execution.
  do 3 (keeps_step; [keeps_step|]).
  keeps_step; [apply keeps_log_append; constructor|].
  keeps_step; [apply keeps_touch|].
  keeps_step; quiet.
Qed.

Lemma keeps_apply_hdo_updates Q u : keeps (frame Q) (_apply_hdo_updates u).
Proof.
  unfold _apply_hdo_updates.
  repeat first [ apply keeps_dict_update_at | keeps_step | quiet ].
Qed.

Lemma keeps_orchestra_invoke (Q : Origin -> Prop) args ctx :
  Q ByInvoke -> keeps (frame Q) (orchestra_invoke args ctx).
Proof.
  intros HQ. unfold orchestra_invoke.
  repeat first
    [ apply keeps_new_uuid | apply keeps_post_sidecar_event
    | apply keeps_call_delegate | apply keeps_insert_error_record
    | apply keeps_build_error_record; exact HQ
    | keeps_step | quiet ].
Qed.

Lemma keeps_invoke_step (Q : Origin -> Prop) step ctx :
  Q ByInvoke -> keeps (frame Q) (_invoke_step step ctx).
Proof.
  intros HQ. unfold _invoke_step.
  repeat first
    [ apply keeps_orchestra_invoke; exact HQ | apply keeps_apply_hdo_updates
    | keeps_step ].
Qed.

Lemma keeps_execute_step (Q : Origin -> Prop) depth step ctx :
  Q ByInvoke -> keeps (frame Q) (_execute_step depth step ctx).
Proof.
  intros HQ. induction depth as [|depth IH]; cbn [_execute_step].
  - keeps_step.
  - repeat first
      [ keeps_step
      | lazymatch goal with
        | |- keeps _ (_execute_step _ _ _) => exact IH
        | |- keeps _ (_record_step_skipped _) =>
            apply keeps_record_step_skipped
        | |- keeps _ (_record_step_start _ _) => apply keeps_record_step_start
        | |- keeps _ (_record_step_completion _ _ _ _ _) =>
            apply keeps_record_step_completion
        | |- keeps _ (_record_step_failure _ _ _ _ _) =>
            apply keeps_record_step_failure
        | |- keeps _ (_invoke_step _ _) => apply keeps_invoke_step; exact HQ
        | |- keeps _ (sleep _) => apply keeps_sleep
        end ].
Qed.

Lemma ensure_log_run st :
  exists st', ensure_log st = (Returned tt, st') /\
    is_Some (log (current_hdo st')) /\
    cur_log st' = cur_log st /\
    cur_meta st' = cur_meta st /\
    meta (current_hdo st') = meta (current_hdo st) /\
    payload (current_hdo st') = payload (current_hdo st) /\
    dicts (store st') = dicts (store st) /\
    process_id (current_hdo st') = process_id (current_hdo st).
Proof.
  unfold ensure_log, bind, gets.
  destruct (log (current_hdo st)) as [l|] eqn:Hl.
  - eexists. split; [reflexivity|]. rewrite Hl. repeat split; eauto.
  - eexists. split; [reflexivity|]. simpl. repeat split; eauto.
    unfold cur_log, log_at, log_of. simpl. rewrite Hl, lookup_insert_eq. reflexivity.
Qed.
Lemma cur_meta_fresh_dict st :
  meta (current_hdo st) = None ->
  cur_meta st = ∅.
Proof. intros H. unfold cur_meta, meta_at, meta_of. simpl. rewrite H. reflexivity. Qed.

Lemma initialize_run st :
  exists st', _initialize_hdo_execution st = (Returned tt, st') /\
    cur_log st' = (cur_log st ++ [start_entry (isoformat (clock st)) (current_plan st)])%list /\
    is_Some (log (current_hdo st')) /\
    is_Some (meta (current_hdo st')) /\
    cur_meta st' !! "idempotency_key" = cur_meta st !! "idempotency_key" /\
    process_id (current_hdo st') = process_id (current_hdo st) /\
    built st' = built st /\ delegated st' = delegated st /\
    current_plan st' = current_plan st /\ clock st' = clock st /\
    uuids st' = uuids st /\
    payload (current_hdo st') = payload (current_hdo st).
Proof.
  unfold _initialize_hdo_execution, ensure_log, ensure_altitude_trace,
    ensure_meta, log_append, touch, dict_update_at, bind, gets, now, ret,
    mutate, new_list, new_dict.
  unfold cur_meta, meta_at, meta_of, cur_log, log_at, log_of, list_at, dict_at.
  simpl.
  destruct (log (current_hdo st)) as [l|] eqn:Hl; simpl; rewrite ?Hl;
  destruct (meta (current_hdo st)) as [m|] eqn:Hm; simpl; rewrite ?Hm; simpl;
  repeat match goal with
    | |- context [match ?x !! "altitude_trace" with _ => _ end] =>
        destruct (x !! "altitude_trace") eqn:?; simpl; rewrite ?Hl, ?Hm; simpl
    end;
  try (rewrite lookup_empty in *; discriminate);
  repeat progress (rewrite ?Hl, ?Hm; simpl);
  (eexists; split; [reflexivity|]); simpl;
  rewrite ?Hl, ?Hm, ?lookup_insert_eq; simpl;
  repeat split; eauto;
  unfold dict_update; rewrite lookup_union_r; try reflexivity;
  apply lookup_singleton_ne; discriminate.
Qed.
Lemma keeps_ensure_log Q : keeps (frame Q) ensure_log.
Proof.
  intros st. unfold ensure_log, bind, gets, new_list, mutate.
  destruct (log (current_hdo st)) as [l|] eqn:Hl; [reflexivity|].
  simpl.
  assert (Hnil : cur_log st = []).
  { unfold cur_log, log_at, log_of. simpl. rewrite Hl. reflexivity. }
  split; simpl; try reflexivity.
  - exists []. rewrite app_nil_r, Hnil.
    unfold cur_log, log_at, log_of. simpl. rewrite lookup_insert_eq.
    split; [reflexivity | constructor].
  - exists []. rewrite app_nil_r. split; [reflexivity | constructor].
  - intros l. rewrite Hl. discriminate.
  - intros [Hc Hall]. rewrite Hnil in Hall. unfold trace_ok. simpl.
    assert (Hnew : forall x, cur_log x = [] -> 
               Forall (fun p => log_at p `prefix_of` cur_log x) (trace st)).
    { intros x Hx. rewrite Hx. exact Hall. }
    split.
    + apply chain_snoc; [exact Hc|].
      unfold log_at at 2, log_of. simpl. rewrite lookup_insert_eq. exact Hall.
    + unfold cur_log, log_at at 2, log_of. simpl. rewrite lookup_insert_eq.
      apply Forall_app. split; [exact Hall|].
      constructor; [|constructor].
      unfold log_at, log_of. simpl. rewrite lookup_insert_eq. reflexivity.
  - apply prefix_app_r. reflexivity.
Qed.

Lemma keeps_ensure_meta Q : keeps (frame Q) ensure_meta.
Proof.
  unfold ensure_meta.
  repeat first [ apply keeps_new_dict | quiet | keeps_step ].
Qed.

Lemma keeps_ensure_altitude_trace Q : keeps (frame Q) ensure_altitude_trace.
Proof.
  unfold ensure_altitude_trace.
  repeat first [ apply keeps_ensure_meta | apply keeps_dict_update_at | keeps_step ].
Qed.

Lemma keeps_initialize_hdo_execution Q :
  keeps (frame Q) _initialize_hdo_execution.
Proof.
  unfold _initialize_hdo_execution.
  repeat first
    [ apply keeps_ensure_log | apply keeps_ensure_altitude_trace
    | apply keeps_touch | apply keeps_log_append; constructor | keeps_step ].
Qed.

Lemma keeps_record_hdo_error Q r : keeps (frame Q) (_record_hdo_error r).
Proof.
  unfold _record_hdo_error.
  repeat first [ apply keeps_ensure_meta | apply keeps_meta_set | keeps_step ].
Qed.

Lemma complete_run st l :
  log (current_hdo st) = Some l ->
  exists st', _complete_hdo_execution st = (Returned tt, st') /\
    (exists n, cur_log st' =
       (cur_log st ++ [complete_entry (isoformat (clock st)) (current_plan st) n])%list) /\
    stage (current_hdo st') = Some "output" /\
    validated (current_hdo st') = Some true /\
    built st' = built st /\ delegated st' = delegated st.
Proof.
  intros Hl.
  unfold _complete_hdo_execution, log_append, touch, bind, gets, now, ret, mutate.
  simpl. rewrite Hl. simpl.
  eexists. split; [reflexivity|]. simpl.
  repeat split; try reflexivity.
  eexists. unfold cur_log, log_at, log_of, list_at. simpl. rewrite Hl, lookup_insert_eq.
  reflexivity.
Qed.

Lemma record_Returned_length (entry : LogEntry) (t : string) st st' :
  (log_append entry ;;; touch t) st = (Returned tt, st') ->
  cur_log st' = (cur_log st ++ [entry])%list.
Proof.
  intros H. apply bind_Returned in H. destruct H as (u & s1 & H1 & H2).
  destruct u. apply log_append_Returned in H1.
  unfold touch, mutate in H2. inversion H2; subst st'. 
  rewrite <- H1. reflexivity.
Qed.

(** A step that returns has written to the log. *)
Lemma execute_step_Returned_length depth step ctx st st' :
  _execute_step depth step ctx st = (Returned tt, st') ->
  S (length (cur_log st)) <= length (cur_log st').
Proof.
  revert st st'. induction depth as [|depth IH]; intros st st' H; simpl in H.
  - discriminate.
  - unfold bind at 1, gets at 1 in H.
    destruct (_should_execute_step (cur_log st) step); simpl in H.
    + unfold bind at 1, now, gets at 1 in H.
      apply try_except_Returned in H.
      destruct H as [H | (e & s1 & Hb & H)].
      * apply bind_Returned in H. destruct H as ([] & s1 & H1 & H2).
        apply record_Returned_length in H1.
        assert (Hf : frame (fun _ => True) s1 st').
        { eapply keeps_run; [|exact H2].
          apply keeps_bind; [apply _ | apply keeps_invoke_step; exact I | intros r].
          apply keeps_bind; [apply _ | apply keeps_gets; apply _ | intros t].
          apply keeps_record_step_completion. }
        apply frame_length in Hf. rewrite H1, length_app in Hf. simpl in Hf. lia.
      * assert (Hf : frame (fun _ => True) st s1).
        { eapply keeps_run; [|exact Hb].
          apply keeps_bind; [apply _ | apply keeps_record_step_start | intros _].
          apply keeps_bind; [apply _ | apply keeps_invoke_step; exact I | intros r].
          apply keeps_bind; [apply _ | apply keeps_gets; apply _ | intros t].
          apply keeps_record_step_completion. }
        apply frame_length in Hf.
        unfold bind at 1, now, gets at 1 in H.
        apply bind_Returned in H. destruct H as ([] & s2 & H1 & H2).
        apply record_Returned_length in H1.
        unfold bind at 1, gets at 1 in H2.
        destruct (_should_retry_step (cur_log s2) step e); [|discriminate].
        apply bind_Returned in H2. destruct H2 as ([] & s3 & H3 & H4).
        apply IH in H4.
        assert (Hs : cur_log s3 = cur_log s2).
        { unfold sleep, modify in H3. inversion H3. reflexivity. }
        rewrite Hs, H1, length_app in H4. simpl in H4. lia.
    + unfold _record_step_skipped in H.
      unfold bind at 1, now, gets at 1 in H.
      apply record_Returned_length in H. rewrite H, length_app. simpl. lia.
Qed.

Lemma for_each_Returned_length (xs : list Step) ctx st st' :
  for_each xs (fun step => _execute_step (retry_depth step) step ctx) st
    = (Returned tt, st') ->
  length (cur_log st) + length xs <= length (cur_log st').
Proof.
  revert st. induction xs as [|x xs IH]; intros st H; cbn [for_each] in H.
  - inversion H. simpl. lia.
  - apply bind_Returned in H. destruct H as ([] & s1 & H1 & H2).
    apply execute_step_Returned_length in H1. apply IH in H2. simpl. lia.
Qed.

Lemma run_altitude_plan_unfold plan hdo ctx s t n :
  run_altitude_plan plan hdo ctx (start_state s t n plan hdo)
  = try_except (plan_body plan ctx) (plan_failed plan ctx) (entered s t n plan hdo).
Proof. reflexivity. Qed.

Lemma dict_copy_id hdo : dict_copy hdo = hdo.
Proof. destruct hdo. reflexivity. Qed.

Lemma cur_log_entered s t n plan hdo :
  cur_log (entered s t n plan hdo) = log_at (s, hdo).
Proof. unfold cur_log. simpl. rewrite dict_copy_id. reflexivity. Qed.

Lemma keeps_for_each_steps (Q : Origin -> Prop) xs ctx :
  Q ByInvoke ->
  keeps (frame Q)
    (for_each xs (fun step => _execute_step (retry_depth step) step ctx)).
Proof.
  intros HQ. apply keeps_for_each; [apply _|]. intros step.
  apply keeps_execute_step. exact HQ.
Qed.

Lemma keeps_plan_body (Q : Origin -> Prop) plan ctx :
  Q ByInvoke -> keeps (frame Q) (plan_body plan ctx).
Proof.
  intros HQ. unfold plan_body.
  repeat first
    [ apply keeps_initialize_hdo_execution | apply keeps_for_each_steps; exact HQ
    | apply keeps_complete_hdo_execution | keeps_step ].
Qed.

Lemma keeps_plan_failed (Q : Origin -> Prop) plan ctx e :
  Q ByRunner -> keeps (frame Q) (plan_failed plan ctx e).
Proof.
  intros HQ. unfold plan_failed.
  repeat first
    [ apply keeps_build_error_record; exact HQ | apply keeps_insert_error_record
    | apply keeps_record_hdo_error | keeps_step ].
Qed.

Lemma trace_ok_entered s t n plan hdo : trace_ok (entered s t n plan hdo).
Proof.
  split.
  - intros i j p q Hij Hp Hq.
    destruct i; [|destruct i; discriminate].
    destruct j; [|destruct j; discriminate].
    simpl in Hp, Hq. inversion Hp; inversion Hq; subst. reflexivity.
  - constructor; [reflexivity | constructor].
Qed.

Lemma plan_body_Returned_length plan ctx st h st' :
  plan_body plan ctx st = (Returned h, st') ->
  h = current_hdo st' /\
  length (default [] (steps plan)) <= length (cur_log st').
Proof.
  unfold plan_body. intros H.
  apply bind_Returned in H. destruct H as ([] & s1 & _ & H).
  apply bind_Returned in H. destruct H as ([] & s2 & H2 & H).
  apply bind_Returned in H. destruct H as ([] & s3 & H3 & H).
  unfold gets in H. inversion H; subst.
  split; [reflexivity|].
  apply for_each_Returned_length in H2.
  apply (keeps_run _ _ _ _ _ (keeps_complete_hdo_execution (fun _ => True))) in H3.
  apply frame_length in H3. lia.
Qed.

(** C8.  Along one invocation of [run_altitude_plan] the log only grows:
    of any two states the invocation goes through, the log of the earlier
    is a prefix of the log of the later, so no entry is removed or changed
    once appended, whichever operation comes next; every such log extends
    the log the caller passed in and is extended by the final log.  When
    the invocation returns, the log of the returned HDO has at least as
    many entries as the plan has steps. *)
Theorem C8_log_append_only (plan : Plan) (hdo : HDO) (ctx : option CallContext)
    (s : Store) (t : Z) (n : nat) :
  let '(r, st') := run_altitude_plan plan hdo ctx (start_state s t n plan hdo) in
  chain (trace st') /\
  Forall (fun p => log_at (s, hdo) `prefix_of` log_at p /\
                   log_at p `prefix_of` cur_log st') (trace st') /\
  match r with
  | Returned h =>
      log_at (store st', h) = cur_log st' /\
      length (default [] (steps plan)) <= length (log_at (store st', h))
  | Raised _ => True
  end.
Proof.
  rewrite run_altitude_plan_unfold.
  destruct (try_except _ _ _) as [r st'] eqn:Hrun.
  assert (Hf : frame (fun _ => True) (entered s t n plan hdo) st').
  { eapply keeps_run; [|exact Hrun].
    apply keeps_try_except; [apply _ | apply keeps_plan_body; exact I |].
    intros e. apply keeps_plan_failed. exact I. }
  destruct (fr_trace _ _ _ Hf (trace_ok_entered s t n plan hdo)) as [Hc Hall].
  split; [exact Hc|]. split.
  - destruct (fr_history _ _ _ Hf) as [more Hmore]. simpl in Hmore.
    rewrite Forall_forall in Hall. apply Forall_forall. intros p Hp.
    split; [|apply Hall; exact Hp].
    apply list_elem_of_lookup_1 in Hp. destruct Hp as [i Hi].
    assert (H0 : trace st' !! 0 = Some (s, dict_copy hdo)) by (rewrite Hmore; reflexivity).
    rewrite <- (dict_copy_id hdo) at 1.
    apply (Hc 0 i _ _ ltac:(lia) H0 Hi).
  - destruct r as [h|e]; [|exact I].
    apply try_except_Returned in Hrun. destruct Hrun as [Hb | (e & s1 & _ & Hh)].
    + apply plan_body_Returned_length in Hb. destruct Hb as [-> Hlen].
      split; [reflexivity | exact Hlen].
    + unfold plan_failed in Hh.
      apply bind_Returned in Hh. destruct Hh as (h0 & s2 & _ & Hh).
      apply bind_Returned in Hh. destruct Hh as (r0 & s3 & _ & Hh).
      apply bind_Returned in Hh. destruct Hh as ([] & s4 & _ & Hh).
      apply bind_Returned in Hh. destruct Hh as ([] & s5 & _ & Hh).
      discriminate.
Qed.

(** *** The promotion check *)

Lemma completed_entry_details step t d summary :
  dom (le_details (completed_entry step t d summary))
  = ({[ "step_id"; "altitude"; "result_summary" ]} : gset string).
Proof.
  unfold completed_entry. simpl.
  rewrite !dom_insert_L, ?dom_singleton_L, ?dom_empty_L. set_solver.
Qed.

Lemma made_no_promotion e : made e -> no_promotion e.
Proof. intros []; reflexivity. Qed.

Lemma first_promotion_decision_none lg :
  Forall no_promotion lg -> first_promotion_decision lg = false.
Proof.
  induction 1 as [|e lg He _ IH]; simpl; [reflexivity|].
  unfold promotion_of. rewrite He.
  rewrite bool_decide_eq_false_2 by (intros [x Hx]; discriminate).
  rewrite andb_false_r. exact IH.
Qed.

Lemma check_promotion_decision_none lg :
  Forall no_promotion lg -> _check_promotion_decision lg = false.
Proof.
  intros H. unfold _check_promotion_decision.
  apply first_promotion_decision_none. apply Forall_rev. exact H.
Qed.

Lemma evaluate_promotion_none lg expr :
  PyStr.occurs_in promotion_expression expr ->
  Forall no_promotion lg ->
  _evaluate_condition_expression lg expr = false.
Proof.
  intros Hocc Hlg. unfold _evaluate_condition_expression.
  destruct (String.eqb_spec expr "true") as [->|_].
  { apply PyStrFacts.contains_spec in Hocc. discriminate. }
  destruct (String.eqb_spec expr "false") as [->|_]; [reflexivity|].
  apply PyStrFacts.contains_spec in Hocc. unfold promotion_expression in Hocc.
  rewrite Hocc. apply check_promotion_decision_none. exact Hlg.
Qed.

Lemma should_execute_promotion_none lg step :
  asks_promotion step -> Forall no_promotion lg ->
  _should_execute_step lg step = false.
Proof.
  intros (w & expr & Hw & Hc & He & Hocc) Hlg.
  unfold _should_execute_step. rewrite Hw. simpl. rewrite Hc, He. simpl.
  apply evaluate_promotion_none; assumption.
Qed.

Lemma execute_step_promotion_skipped depth step ctx st :
  asks_promotion step -> Forall no_promotion (cur_log st) ->
  _execute_step (S depth) step ctx st = _record_step_skipped step st.
Proof.
  intros Ha Hlg. simpl. unfold bind at 1, gets at 1.
  rewrite (should_execute_promotion_none _ _ Ha Hlg). reflexivity.
Qed.

Lemma Forall_prefix {A} (P : A -> Prop) (l1 l2 : list A) :
  l1 `prefix_of` l2 -> Forall P l2 -> Forall P l1.
Proof. intros [k ->] H. apply Forall_app in H. tauto. Qed.

Lemma record_step_skipped_run step st l :
  log (current_hdo st) = Some l ->
  exists st', _record_step_skipped step st = (Returned tt, st') /\
    cur_log st' = (cur_log st ++ [skipped_entry step (isoformat (clock st))])%list /\
    delegated st' = delegated st /\ built st' = built st.
Proof.
  intros Hl.
  unfold _record_step_skipped, log_append, touch, bind, gets, now, ret, mutate.
  simpl. rewrite Hl. simpl.
  eexists. split; [reflexivity|]. simpl.
  repeat split; try reflexivity.
  unfold cur_log, log_at, log_of, list_at. simpl. rewrite Hl, lookup_insert_eq.
  reflexivity.
Qed.

(** C10.  A completed entry of the step executor has exactly the details
    step_id, altitude and result_summary, and no entry the runner writes
    has a promotion_decision.  So when the log the caller passes in holds
    only entries written by the runner (an empty log, for one), then in
    every state the invocation goes through any conditional expression
    containing [enforcer.promotion_decision == true] evaluates to false,
    and executing a step with such a condition records it as skipped and
    does nothing else. *)
Theorem C10_promotion_condition_never_holds (plan : Plan) (hdo : HDO)
    (ctx : option CallContext) (s : Store) (t : Z) (n : nat) :
  Forall made (log_at (s, hdo)) ->
  let '(r, st') := run_altitude_plan plan hdo ctx (start_state s t n plan hdo) in
  (forall step ts d summary,
      dom (le_details (completed_entry step ts d summary))
      = ({[ "step_id"; "altitude"; "result_summary" ]} : gset string)) /\
  (forall e, made e -> no_promotion e) /\
  Forall (fun p =>
    Forall made (log_at p) /\
    (forall expr, PyStr.occurs_in promotion_expression expr ->
                  _evaluate_condition_expression (log_at p) expr = false) /\
    (forall step depth ctx' st,
        asks_promotion step -> (store st, current_hdo st) = p ->
        _execute_step (S depth) step ctx' st = _record_step_skipped step st /\
        (is_Some (log (current_hdo st)) ->
         exists st'', _record_step_skipped step st = (Returned tt, st'') /\
           cur_log st'' =
             (cur_log st ++ [skipped_entry step (isoformat (clock st))])%list /\
           delegated st'' = delegated st)))
    (trace st').
Proof.
  intros Hmade. rewrite run_altitude_plan_unfold.
  destruct (try_except _ _ _) as [r st'] eqn:Hrun.
  assert (Hf : frame (fun _ => True) (entered s t n plan hdo) st').
  { eapply keeps_run; [|exact Hrun].
    apply keeps_try_except; [apply _ | apply keeps_plan_body; exact I |].
    intros e. apply keeps_plan_failed. exact I. }
  split; [apply completed_entry_details|].
  split; [apply made_no_promotion|].
  destruct (fr_trace _ _ _ Hf (trace_ok_entered s t n plan hdo)) as [_ Hall].
  destruct (fr_log _ _ _ Hf) as [new [Hlog Hnew]].
  assert (Hfinal : Forall made (cur_log st')).
  { rewrite Hlog. apply Forall_app. split; [|exact Hnew].
    unfold cur_log. simpl. rewrite dict_copy_id. exact Hmade. }
  eapply Forall_impl; [exact Hall|]. intros p Hp. cbv beta in Hp.
  assert (Hpm : Forall made (log_at p)) by (eapply Forall_prefix; eassumption).
  assert (Hpn : Forall no_promotion (log_at p)).
  { eapply Forall_impl; [exact Hpm|]. apply made_no_promotion. }
  split; [exact Hpm|]. split.
  - intros expr Hocc. apply evaluate_promotion_none; assumption.
  - intros step depth ctx' st Ha Hst. split.
    + apply execute_step_promotion_skipped; [exact Ha|].
      unfold cur_log. rewrite Hst. exact Hpn.
    + intros [l Hl]. destruct (record_step_skipped_run step st l Hl)
        as (st'' & H1 & H2 & H3 & _).
      exists st''. repeat split; assumption.
Qed.

(** *** Identifier validation, as the runner meets it *)

Lemma only_logged_cur_meta st st' : only_logged st st' -> cur_meta st' = cur_meta st.
Proof.
  intros H. unfold cur_meta, meta_at, meta_of. simpl.
  rewrite (ol_meta _ _ H), (ol_dicts _ _ H). reflexivity.
Qed.

Lemma ids_check_ext st st' :
  process_id (current_hdo st') = process_id (current_hdo st) ->
  cur_meta st' !! "idempotency_key" = cur_meta st !! "idempotency_key" ->
  ids_check st' = ids_check st.
Proof.
  intros Hp Hm. unfold ids_check, _validate_heir_ids.
  change (default ∅ (meta_of (store st') (current_hdo st'))) with (cur_meta st').
  change (default ∅ (meta_of (store st) (current_hdo st))) with (cur_meta st).
  rewrite Hp, Hm. reflexivity.
Qed.

Lemma only_logged_ids_check st st' : only_logged st st' -> ids_check st' = ids_check st.
Proof.
  intros H. apply ids_check_ext; [apply (ol_pid _ _ H)|].
  rewrite (only_logged_cur_meta _ _ H). reflexivity.
Qed.

Lemma record_run (entry : LogEntry) (t : string) st l :
  log (current_hdo st) = Some l ->
  exists st', (log_append entry ;;; touch t) st = (Returned tt, st') /\
    cur_log st' = (cur_log st ++ [entry])%list /\ only_logged st st'.
Proof.
  intros Hl. unfold log_append, touch, bind, gets, mutate. simpl. rewrite Hl.
  eexists. split; [reflexivity|]. split.
  - unfold cur_log, log_at, log_of, list_at. simpl. rewrite Hl, lookup_insert_eq.
    reflexivity.
  - split; reflexivity.
Qed.



Lemma should_execute_always lg step :
  when step = None -> _should_execute_step lg step = true.
Proof. intros H. unfold _should_execute_step. rewrite H. reflexivity. Qed.






(** *** The error path *)

Lemma assoc_get_set_eq k v o : assoc_get k (assoc_set k v o) = Some v.
Proof.
  induction o as [|[k' v'] o IH]; simpl.
  - rewrite String.eqb_refl. reflexivity.
  - destruct (String.eqb k k') eqn:E; simpl; rewrite ?String.eqb_refl, ?E; auto.
Qed.

Lemma assoc_get_set_ne k k' v o :
  k <> k' -> assoc_get k (assoc_set k' v o) = assoc_get k o.
Proof.
  intros Hne. induction o as [|[k'' v''] o IH]; simpl.
  - destruct (String.eqb_spec k k'); [contradiction | reflexivity].
  - destruct (String.eqb_spec k' k'') as [->|Hk]; simpl.
    + destruct (String.eqb_spec k k''); [contradiction | reflexivity].
    + destruct (String.eqb_spec k k''); [reflexivity | exact IH].
Qed.

Lemma ensure_meta_run st :
  exists st' m, ensure_meta st = (Returned tt, st') /\
    meta (current_hdo st') = Some m /\ cur_meta st' = cur_meta st /\
    hushed st st'.
Proof.
  unfold ensure_meta, bind, gets, new_dict, mutate.
  destruct (meta (current_hdo st)) as [m|] eqn:Hm.
  - exists st, m. repeat split; assumption.
  - eexists _, _. split; [reflexivity|]. split; [reflexivity|].
    split; [|split; reflexivity].
    unfold cur_meta, meta_at, meta_of. simpl. rewrite Hm, lookup_insert_eq.
    reflexivity.
Qed.

Lemma meta_set_run key v st m :
  meta (current_hdo st) = Some m ->
  exists st', meta_set key v st = (Returned tt, st') /\
    meta (current_hdo st') = Some m /\
    cur_meta st' = <[key := v]> (cur_meta st) /\ hushed st st'.
Proof.
  intros Hm. unfold meta_set, bind, gets, mutate. rewrite Hm.
  eexists. split; [reflexivity|]. split; [exact Hm|].
  split; [|split; reflexivity].
  unfold cur_meta, meta_at, meta_of, dict_at. simpl. rewrite Hm, lookup_insert_eq.
  reflexivity.
Qed.

Lemma hushed_trans a b c : hushed a b -> hushed b c -> hushed a c.
Proof. intros [H1 H2] [K1 K2]. split; congruence. Qed.

Lemma record_hdo_error_spec rec st :
  exists r st', _record_hdo_error rec st = (r, st') /\ hushed st st' /\
    match r with
    | Returned _ => last_error_id st' = Some (JStr (error_id rec))
    | Raised e => record_error_kind e
    end /\
    (error_context_ok (cur_meta st) -> r = Returned tt).
Proof.
  unfold _record_hdo_error.
  destruct (ensure_meta_run st) as (s1 & m & Hr1 & Hm1 & Hcm1 & Hh1).
  rewrite (bind_run _ _ _ _ _ Hr1).
  unfold bind at 1, gets at 1.
  (* the context to update, and the state that holds it *)
  assert (Hctx : exists s2 r2,
    (match cur_meta s1 !! "error_context" with
     | Some _ => ret tt
     | None => meta_set "error_context" initial_error_context
     end) s1 = (Returned r2, s2) /\
    meta (current_hdo s2) = Some m /\ hushed s1 s2 /\
    is_Some (cur_meta s2 !! "error_context") /\
    (cur_meta s1 !! "error_context" = None ->
     cur_meta s2 !! "error_context" = Some initial_error_context) /\
    (forall v, cur_meta s1 !! "error_context" = Some v ->
     cur_meta s2 !! "error_context" = Some v)).
  { destruct (cur_meta s1 !! "error_context") as [v|] eqn:Hv.
    - exists s1, tt.
      split; [reflexivity|]. split; [exact Hm1|]. split; [split; reflexivity|].
      split; [rewrite Hv; eexists; reflexivity|]. split; [discriminate|].
      intros v' Hv'. rewrite Hv. exact Hv'.
    - destruct (meta_set_run "error_context" initial_error_context s1 m Hm1)
        as (s2 & Hr2 & Hm2 & Hcm2 & Hh2).
      exists s2, tt. rewrite Hcm2, lookup_insert_eq.
      split; [exact Hr2|]. split; [exact Hm2|]. split; [exact Hh2|].
      split; [eexists; reflexivity|]. split; [reflexivity|].
      discriminate. }
  destruct Hctx as (s2 & [] & Hr2 & Hm2 & Hh2 & [v Hv] & Hnone & Hsome).
  rewrite (bind_run _ _ _ _ _ Hr2).
  unfold bind at 1, gets at 1. rewrite Hv.
  assert (Hh02 : hushed st s2) by (eapply hushed_trans; eassumption).
  assert (Hok : error_context_ok (cur_meta st) ->
                exists o, v = JObj o /\
                  match assoc_get "error_count" o with
                  | Some (JNum _) | Some (JBool _) => True
                  | _ => False
                  end).
  { unfold error_context_ok. rewrite <- Hcm1.
    destruct (cur_meta s1 !! "error_context") as [v1|] eqn:Hv1.
    - rewrite (Hsome v1 eq_refl) in Hv. inversion Hv; subst v1.
      destruct v; try contradiction. intros H. eexists. split; [reflexivity | exact H].
    - rewrite (Hnone eq_refl) in Hv. inversion Hv; subst v.
      intros _. eexists. split; [reflexivity|]. exact I. }
  destruct v as [| | | |?|o];
    try (eexists _, s2; split; [reflexivity|]; split; [exact Hh02|];
         split; [right; reflexivity|];
         intros H; destruct (Hok H) as (o' & Ho' & _); discriminate).
  destruct (meta_set_run "error_context"
              (JObj (assoc_set "last_error_id" (JStr (error_id rec)) o)) s2 m Hm2)
    as (s3 & Hr3 & Hm3 & Hcm3 & Hh3).
  rewrite (bind_run _ _ _ _ _ Hr3).
  unfold bind at 1, gets at 1. rewrite Hcm3, lookup_insert_eq.
  assert (Hh03 : hushed st s3) by (eapply hushed_trans; eassumption).
  rewrite assoc_get_set_ne by discriminate.
  assert (Hfin : forall k,
    exists s4, meta_set "error_context"
      (JObj (assoc_set "error_count" (JNum k)
               (assoc_set "last_error_id" (JStr (error_id rec)) o))) s3
      = (Returned tt, s4) /\ hushed st s4 /\
      last_error_id s4 = Some (JStr (error_id rec))).
  { intros k.
    destruct (meta_set_run "error_context"
                (JObj (assoc_set "error_count" (JNum k)
                   (assoc_set "last_error_id" (JStr (error_id rec)) o))) s3 m Hm3)
      as (s4 & Hr4 & _ & Hcm4 & Hh4).
    exists s4. split; [exact Hr4|]. split; [eapply hushed_trans; eassumption|].
    unfold last_error_id. rewrite Hcm4, lookup_insert_eq.
    rewrite assoc_get_set_ne by discriminate. apply assoc_get_set_eq. }
  destruct (assoc_get "error_count" o) as [c|] eqn:Hc.
  - destruct c as [|b|k| | |];
      try (eexists _, s3; split; [reflexivity|]; split; [exact Hh03|];
           split; [right; reflexivity|];
           intros H; destruct (Hok H) as (o' & Ho' & Hcnt);
           inversion Ho'; subst o'; rewrite Hc in Hcnt; contradiction).
    + destruct (Hfin ((if b then 1 else 0) + 1)%Z) as (s4 & Hr4 & Hh4 & Hl4).
      exists (Returned tt), s4.
      split; [exact Hr4|]. split; [exact Hh4|]. split; [exact Hl4|].
      intros _. reflexivity.
    + destruct (Hfin (k + 1)%Z) as (s4 & Hr4 & Hh4 & Hl4).
      exists (Returned tt), s4.
      split; [exact Hr4|]. split; [exact Hh4|]. split; [exact Hl4|].
      intros _. reflexivity.
  - eexists _, s3. split; [reflexivity|]. split; [exact Hh03|].
    split; [left; reflexivity|].
    intros H. destruct (Hok H) as (o' & Ho' & Hcnt).
    inversion Ho'; subst o'. rewrite Hc in Hcnt. contradiction.
Qed.

Lemma build_error_record_run origin h ctx e st :
  exists rec st', build_error_record origin h ctx e st = (Returned rec, st') /\
    built st' = (built st ++ [(origin, rec)])%list /\
    delegated st' = delegated st /\
    store st' = store st /\ current_hdo st' = current_hdo st /\
    error_id rec = uuid4 (uuids st) /\
    message rec = exn_msg e /\ error_type rec = exn_type e /\
    severity rec = _determine_error_severity e ctx.
Proof.
  unfold build_error_record, bind, new_uuid, gets, now, modify, ret.
  destruct (match ctx_current_step ctx with Some _ => _ | None => _ end) as [a sg].
  eexists _, _. split; [reflexivity|]. repeat split.
Qed.


(** The error path always raises, after building exactly one record. *)
Lemma plan_failed_spec plan ctx e st :
  exists rec e' st', plan_failed plan ctx e st = (Raised e', st') /\
    built st' = (built st ++ [(ByRunner, rec)])%list /\
    delegated st' = delegated st /\
    message rec = exn_msg e /\
    (e' = RuntimeError (failure_message plan rec) /\
     last_error_id st' = Some (JStr (error_id rec))
     \/ record_error_kind e') /\
    (error_context_ok (cur_meta st) -> e' = RuntimeError (failure_message plan rec)).
Proof.
  unfold plan_failed. unfold bind at 1, gets at 1.
  destruct (build_error_record_run ByRunner (current_hdo st)
              (default empty_context ctx) e st)
    as (rec & s1 & Hr1 & Hb1 & Hd1 & Hs1 & Hh1 & _ & Hmsg & _).
  rewrite (bind_run _ _ _ _ _ Hr1).
  unfold bind at 1, _insert_error_record at 1, modify at 1.
  set (s2 := with_inserted _ s1).
  destruct (record_hdo_error_spec rec s2) as (r & s3 & Hr3 & [Hb3 Hd3] & Hres & Hok).
  assert (Hmeta : cur_meta s2 = cur_meta st).
  { unfold cur_meta. simpl. rewrite Hs1, Hh1. reflexivity. }
  exists rec. destruct r as [[]|e3].
  - rewrite (bind_run _ _ _ _ _ Hr3). eexists _, s3. split; [reflexivity|].
    split; [rewrite Hb3; exact Hb1|]. split; [rewrite Hd3; exact Hd1|].
    split; [exact Hmsg|]. split; [left; split; [reflexivity | exact Hres]|].
    intros _. reflexivity.
  - rewrite (bind_fail _ _ _ _ _ Hr3). exists e3, s3. split; [reflexivity|].
    split; [rewrite Hb3; exact Hb1|]. split; [rewrite Hd3; exact Hd1|].
    split; [exact Hmsg|]. split; [right; exact Hres|].
    intros H. rewrite <- Hmeta in H. specialize (Hok H). discriminate.
Qed.

(** *** What one call of [orchestra_invoke] does *)

Lemma orchestra_invoke_spec args ictx st :
  match precheck args ictx st with
  | Some e => orchestra_invoke args ictx st = (Raised e, st)
  | None =>
      let '(took, out) :=
        delegate (a_agent_id args) (a_action args) (a_parameters args)
                 (store st, ic_hdo ictx) (a_timeout_seconds args) (clock st)
                 (length (delegated st)) in
      match out with
      | Returned res =>
          exists st1, orchestra_invoke args ictx st = (Returned res, st1) /\
            delegated_once args took false st st1 /\ built st1 = built st
      | Raised e0 =>
          exists rec st1,
            orchestra_invoke args ictx st
            = (Raised (RuntimeError ("Agent " ++ a_agent_id args ++
                                     " failed; error_id=" ++ error_id rec)), st1) /\
            delegated_once args took true st st1 /\
            built st1 = (built st ++ [(ByInvoke, rec)])%list /\
            message rec = exn_msg e0
      end
  end.
Proof.
  unfold precheck, orchestra_invoke.
  destruct (String.eqb (a_agent_id args) ""); [reflexivity|].
  destruct (String.eqb (a_action args) ""); [reflexivity|].
  destruct (String.eqb (ic_process_id ictx) ""); [reflexivity|].
  unfold bind, new_uuid, now, gets, modify, try_finally, try_except,
    _post_sidecar_event, call_delegate, build_error_record,
    _insert_error_record, ret, raise, lift.
  simpl.
  destruct (_validate_heir_ids _ _ _) as [[]|e]; [|reflexivity].
  destruct (delegate _ _ _ _ _ _ _) as [took out] eqn:Hd.
  destruct out as [res|e0]; simpl.
  - eexists. split; [reflexivity|]. split; [split; reflexivity | reflexivity].
  - eexists (mkErrorRecord (uuid4 (S (uuids st))) _ _ _ _ _ _ _ _ _ _ _ _), _.
    split; [reflexivity|].
    split; [split; reflexivity|]. split; reflexivity.
Qed.

(** *** Error records against delegations *)

Global Instance tally_preorder : PreOrder tally.
Proof.
  split.
  - intros st. reflexivity.
  - intros a b c Hab Hbc. unfold tally in *. lia.
Qed.

Lemma tally_quiet st st' :
  built st' = built st -> delegated st' = delegated st -> tally st st'.
Proof. intros Hb Hd. unfold tally. rewrite Hb, Hd. reflexivity. Qed.

Ltac tally_leaf :=
  lazymatch goal with
  | |- keeps tally (modify _) => intros ?; apply tally_quiet; reflexivity
  | |- keeps tally (mutate _) => intros ?; apply tally_quiet; reflexivity
  | |- keeps tally (sleep _) => intros ?; apply tally_quiet; reflexivity
  | |- keeps tally new_list => intros ?; apply tally_quiet; reflexivity
  | |- keeps tally new_dict => intros ?; apply tally_quiet; reflexivity
  | |- keeps tally (touch _) => intros ?; apply tally_quiet; reflexivity
  end.

Ltac tally_auto := repeat first [ tally_leaf | keeps_step ].


Lemma tally_meta_set key v : keeps tally (meta_set key v).
Proof. unfold meta_set. tally_auto. Qed.













(** *** A run with invalid identifiers *)



(** *** Retries *)

Lemma invoke_step_raises step ctx st :
  always_raises step ->
  exists e st1, _invoke_step step ctx st = (Raised e, st1) /\
    store st1 = store st /\ current_hdo st1 = current_hdo st.
Proof.
  intros Hfail. unfold _invoke_step.
  unfold bind at 1, gets at 1. unfold bind at 1, gets at 1.
  set (args := mkInvokeArgs _ _ _ _ _ _). set (ictx := mkInvokeContext _ _ _ _).
  pose proof (orchestra_invoke_spec args ictx st) as H.
  destruct (precheck args ictx st) as [e|].
  - rewrite (bind_fail _ _ _ _ _ H). exists e, st. repeat split.
  - destruct (Hfail (store st, ic_hdo ictx) (a_timeout_seconds args) (clock st)
                (length (delegated st))) as (took & e0 & Hd).
    subst args. cbn [a_agent_id a_action a_parameters] in H. rewrite Hd in H.
    destruct H as (rec & st1 & H & Hdo & _).
    rewrite (bind_fail _ _ _ _ _ H). eexists _, st1. split; [reflexivity|].
    split; [apply (do_store _ _ _ _ _ Hdo) | apply (do_hdo _ _ _ _ _ Hdo)].
Qed.

Lemma retry_count_snoc lg sid entry :
  _get_step_retry_count (lg ++ [entry]) sid
  = (_get_step_retry_count lg sid
     + (if is_failed_entry_of sid entry then 1 else 0))%Z.
Proof.
  unfold _get_step_retry_count. rewrite filter_app, length_app.
  cbn [filter list_filter]. destruct (is_failed_entry_of sid entry) eqn:E.
  - rewrite decide_True by reflexivity. simpl. lia.
  - rewrite decide_False by discriminate. simpl. lia.
Qed.

Lemma retry_count_nonneg lg sid : (0 <= _get_step_retry_count lg sid)%Z.
Proof. unfold _get_step_retry_count. lia. Qed.

Lemma started_entry_not_failed step ts :
  is_failed_entry_of (step_id step) (started_entry step ts) = false.
Proof.
  unfold is_failed_entry_of, entry_step_id, started_entry. simpl.
  rewrite lookup_insert_eq. rewrite String.eqb_refl. reflexivity.
Qed.

Lemma failed_entry_failed step ts d e :
  is_failed_entry_of (step_id step) (failed_entry step ts d e) = true.
Proof.
  unfold is_failed_entry_of, entry_step_id, failed_entry. simpl.
  rewrite lookup_insert_eq. rewrite String.eqb_refl. reflexivity.
Qed.

Lemma should_retry_agent_failure lg step e :
  PyStr.mem "agent_failure" (step_retry_on step) = true ->
  _should_retry_step lg step e
  = negb (step_max_retries step <=? 0)%Z &&
    negb (_get_step_retry_count lg (step_id step) >=? step_max_retries step)%Z.
Proof.
  intros H. unfold _should_retry_step. rewrite H.
  destruct (step_max_retries step <=? 0)%Z; [reflexivity|].
  destruct (_ >=? _)%Z; [reflexivity|].
  destruct (_ && _); reflexivity.
Qed.

(** With a delegate that fails at every attempt and a policy that retries
    every failure, a step leaves in the log as many failed entries as
    [max_retries] says (and one when [max_retries] is less), counting those
    that were there. *)
Lemma execute_step_always_failing step ctx l depth st :
  when step = None ->
  always_raises step ->
  PyStr.mem "agent_failure" (step_retry_on step) = true ->
  log (current_hdo st) = Some l ->
  (step_max_retries step - _get_step_retry_count (cur_log st) (step_id step) - 1
   < Z.of_nat depth)%Z ->
  (0 < depth)%nat ->
  exists e st', _execute_step depth step ctx st = (Raised e, st') /\
    _get_step_retry_count (cur_log st') (step_id step)
    = Z.max (_get_step_retry_count (cur_log st) (step_id step) + 1)
            (step_max_retries step).
Proof.
  intros Hw Hfail Hon. revert st.
  induction depth as [|depth IH]; intros st Hl Hdepth Hpos; [lia|].
  cbn [_execute_step]. unfold bind at 1, gets at 1.
  rewrite (should_execute_always _ _ Hw). cbn [negb].
  unfold bind at 1, now, gets at 1.
  destruct (record_run (started_entry step (isoformat (clock st)))
              (isoformat (clock st)) st l Hl) as (s1 & Hr1 & Hlog1 & Ho1).
  destruct (invoke_step_raises step ctx s1 Hfail) as (e & s1' & Hinv & Hs & Hh).
  unfold try_except. unfold _record_step_start at 1.
  rewrite (bind_run _ _ _ _ _ Hr1), (bind_fail _ _ _ _ _ Hinv).
  unfold bind at 1, now, gets at 1.
  assert (Hl1 : log (current_hdo s1') = Some l).
  { rewrite Hh, (ol_log _ _ Ho1). exact Hl. }
  assert (Hlog1' : cur_log s1' = cur_log s1).
  { unfold cur_log. rewrite Hs, Hh. reflexivity. }
  destruct (record_run (failed_entry step (isoformat (clock s1'))
                          (clock s1' - clock st) e)
              (isoformat (clock s1')) s1' l Hl1) as (s2 & Hr2 & Hlog2 & Ho2).
  unfold _record_step_failure at 1.
  rewrite (bind_run _ _ _ _ _ Hr2).
  unfold bind at 1, gets at 1.
  assert (Hcount : _get_step_retry_count (cur_log s2) (step_id step)
                   = (_get_step_retry_count (cur_log st) (step_id step) + 1)%Z).
  { rewrite Hlog2, Hlog1', Hlog1, !retry_count_snoc,
      started_entry_not_failed, failed_entry_failed. lia. }
  rewrite (should_retry_agent_failure _ _ _ Hon), Hcount.
  pose proof (retry_count_nonneg (cur_log st) (step_id step)) as Hnn.
  rewrite Z.geb_leb.
  destruct (Z.leb_spec (step_max_retries step) 0) as [Hmax|Hmax]; cbn [negb andb].
  { exists e, s2. split; [reflexivity|]. rewrite Hcount. lia. }
  destruct (Z.leb_spec (step_max_retries step)
              (_get_step_retry_count (cur_log st) (step_id step) + 1))
    as [Hge|Hge]; cbn [negb].
  { exists e, s2. split; [reflexivity|]. rewrite Hcount. lia. }
  unfold bind at 1, sleep, modify.
  set (s3 := with_clock _ s2).
  destruct (IH s3) as (e' & s4 & Hrun & Hfin).
  { change (log (current_hdo s2) = Some l). rewrite (ol_log _ _ Ho2). exact Hl1. }
  { change (cur_log s3) with (cur_log s2). rewrite Hcount. lia. }
  { change (cur_log s3) with (cur_log s2) in *. lia. }
  exists e', s4. split; [exact Hrun|].
  rewrite Hfin. change (cur_log s3) with (cur_log s2). rewrite Hcount. lia.
Qed.

(** C2, on the code.  For a step that always runs, whose delegate raises
    at every attempt and whose policy lists agent_failure (so that every
    failure matches), with [max_retries = N >= 0] and no failed entry of
    that step in the log yet: the step ends by raising, and the log then
    holds [max 1 N] failed entries of the step: one for [N = 0], and [N],
    not [N + 1], for [N >= 1].  The failure just recorded is counted as a
    retry already made. *)
Theorem C2_failed_entries_when_retries_run_out (step : Step)
    (ctx : option CallContext) (l : loc) (st : St) (N : Z) :
  when step = None ->
  always_raises step ->
  PyStr.mem "agent_failure" (step_retry_on step) = true ->
  log (current_hdo st) = Some l ->
  step_max_retries step = N -> (0 <= N)%Z ->
  _get_step_retry_count (cur_log st) (step_id step) = 0%Z ->
  exists e st', _execute_step (retry_depth step) step ctx st = (Raised e, st') /\
    _get_step_retry_count (cur_log st') (step_id step) = Z.max 1 N /\
    ((1 <= N)%Z ->
     _get_step_retry_count (cur_log st') (step_id step) <> (N + 1)%Z).
Proof.
  intros Hw Hfail Hon Hl HN Hpos Hzero.
  destruct (execute_step_always_failing step ctx l (retry_depth step) st
              Hw Hfail Hon Hl) as (e & st' & Hrun & Hcount).
  { unfold retry_depth. rewrite HN, Hzero. lia. }
  { unfold retry_depth. lia. }
  exists e, st'. split; [exact Hrun|].
  rewrite Hcount, Hzero, HN. split; [reflexivity | lia].
Qed.

(** *** Completion *)


(** *** The caller's HDO *)

(** C4, on the code.  [hdo.copy()] is a shallow copy: the runner's HDO
    shares the caller's log list.  Whenever the caller's HDO has a log, the
    list it refers to has grown by the end of the call, whether the call
    returns or raises: seen through the caller's own HDO, the log is the
    old one followed by the start_orchestration entry and what came
    after. *)
Theorem C4_callers_log_is_appended_to (plan : Plan) (hdo : HDO)
    (ctx : option CallContext) (s : Store) (t : Z) (n : nat)
    (l : loc) (xs : list LogEntry) :
  log hdo = Some l -> lists s !! l = Some xs ->
  let '(r, st') := run_altitude_plan plan hdo ctx (start_state s t n plan hdo) in
  log_of s hdo = Some xs /\
  exists more,
    log_of (store st') hdo
    = Some (xs ++ start_entry (isoformat t) plan :: more)%list /\
    log_of (store st') hdo <> log_of s hdo.
Proof.
  intros Hl Hxs. rewrite run_altitude_plan_unfold.
  destruct (try_except _ _ _) as [r st'] eqn:Hrun.
  assert (Hold : log_of s hdo = Some xs) by (unfold log_of; rewrite Hl; exact Hxs).
  split; [exact Hold|].
  assert (H0 : cur_log (entered s t n plan hdo) = xs).
  { rewrite cur_log_entered. unfold log_at. cbn [fst snd]. rewrite Hold. reflexivity. }
  assert (Hl0 : log (current_hdo (entered s t n plan hdo)) = Some l).
  { rewrite <- Hl. destruct hdo. reflexivity. }
  (* the log after initialization, and from there on *)
  assert (Hgrow : exists more,
             cur_log st' = (xs ++ start_entry (isoformat t) plan :: more)%list).
  { unfold try_except, plan_body in Hrun.
    destruct (initialize_run (entered s t n plan hdo))
      as (s1 & Hr1 & Hlog1 & _).
    rewrite (bind_run _ _ _ _ _ Hr1) in Hrun.
    rewrite H0 in Hlog1. simpl in Hlog1.
    match type of Hrun with
    | (let (_, _) := ?m s1 in _) = _ => destruct (m s1) as [rb s2] eqn:Hb
    end.
    assert (Hf : frame (fun _ => True) s1 s2).
    { eapply keeps_run; [|exact Hb].
      repeat first
        [ apply keeps_for_each_steps; exact I
        | apply keeps_complete_hdo_execution | keeps_step ]. }
    assert (Hf' : frame (fun _ => True) s2 st').
    { destruct rb as [h|e].
      - inversion Hrun; subst. reflexivity.
      - eapply keeps_run; [|exact Hrun]. apply keeps_plan_failed. exact I. }
    destruct (frame_prefix _ _ _ Hf) as [m1 Hm1].
    destruct (frame_prefix _ _ _ Hf') as [m2 Hm2].
    exists (m1 ++ m2)%list. rewrite Hm2, Hm1, Hlog1, <- !app_assoc. reflexivity. }
  destruct Hgrow as [more Hmore]. exists more.
  assert (Hf : frame (fun _ => True) (entered s t n plan hdo) st').
  { eapply keeps_run; [|exact Hrun].
    apply keeps_try_except; [apply _ | apply keeps_plan_body; exact I |].
    intros e. apply keeps_plan_failed. exact I. }
  pose proof (fr_logref _ _ _ Hf l Hl0) as Hl'.
  assert (Hnew : log_of (store st') hdo
                 = Some (xs ++ start_entry (isoformat t) plan :: more)%list).
  { unfold cur_log, log_at, log_of in Hmore. simpl in Hmore. rewrite Hl' in Hmore.
    unfold log_of. rewrite Hl.
    destruct (lists (store st') !! l) as [ys|]; simpl in Hmore.
    - rewrite Hmore. reflexivity.
    - destruct xs; discriminate. }
  split; [exact Hnew|]. rewrite Hnew, Hold. intros Heq. inversion Heq as [Heq'].
  apply (f_equal length) in Heq'. rewrite length_app in Heq'. simpl in Heq'. lia.
Qed.

(** *** The timeout of a step *)








(** *** A step whose delegate returns *)

Lemma payload_updated_refl st : payload_updated st st.
Proof. split; reflexivity. Qed.

Lemma payload_updated_trans a b c :
  payload_updated a b -> payload_updated b c -> payload_updated a c.
Proof. intros [] []. split; congruence. Qed.

Lemma payload_update_key (up : Dict) p st :
  up !! "idempotency_key" = None ->
  cur_meta (with_store
              (with_dicts (<[p := dict_update up (dict_at (store st) p)]>
                             (dicts (store st))) (store st)) st)
    !! "idempotency_key"
  = cur_meta st !! "idempotency_key".
Proof.
  intros Hup. unfold cur_meta, meta_at, meta_of, dict_at. simpl.
  destruct (meta (current_hdo st)) as [m|]; [|reflexivity].
  destruct (decide (p = m)) as [->|Hne].
  - rewrite lookup_insert_eq. simpl. unfold dict_update.
    rewrite lookup_union_r by exact Hup. reflexivity.
  - rewrite lookup_insert_ne by exact Hne. reflexivity.
Qed.

Lemma apply_hdo_updates_run u st :
  u_meta u = None ->
  (forall up, u_payload u = Some up ->
     is_Some (payload (current_hdo st)) /\ up !! "idempotency_key" = None) ->
  exists st', _apply_hdo_updates u st = (Returned tt, st') /\
              payload_updated st st'.
Proof.
  intros Hmeta Hpay. unfold _apply_hdo_updates. rewrite Hmeta.
  assert (H1 : exists s1,
    (match u_payload u with
     | Some up => let* h := gets current_hdo in dict_update_at "payload" (payload h) up
     | None => ret tt
     end) st = (Returned tt, s1) /\ payload_updated st s1).
  { destruct (u_payload u) as [up|].
    - destruct (Hpay up eq_refl) as [[p Hp] Hup].
      unfold bind, gets, dict_update_at, mutate. rewrite Hp.
      eexists. split; [reflexivity|].
      split; try reflexivity. apply payload_update_key. exact Hup.
    - exists st. split; [reflexivity | apply payload_updated_refl]. }
  destruct H1 as (s1 & Hr1 & Hu1).
  rewrite (bind_run _ _ _ _ _ Hr1).
  unfold bind at 1, ret at 1.
  destruct (u_stage u), (u_validated u), (u_promoted_to u);
    unfold bind, ret, mutate;
    (eexists; split; [reflexivity|]);
    (eapply payload_updated_trans; [exact Hu1|]); split; reflexivity.
Qed.

Lemma execute_step_succeeds depth step ctx st l took res u :
  when step = None ->
  log (current_hdo st) = Some l ->
  agent_id step <> "" -> action step <> "" ->
  process_id (current_hdo st) <> "" ->
  ids_check st = Returned tt ->
  answers step took res ->
  res_hdo_updates res = Some u -> u_meta u = None ->
  (forall up, u_payload u = Some up ->
     is_Some (payload (current_hdo st)) /\ up !! "idempotency_key" = None) ->
  exists st', _execute_step (S depth) step ctx st = (Returned tt, st') /\
    cur_log st' =
      (cur_log st ++
       [started_entry step (isoformat (clock st));
        completed_entry step (isoformat (clock st + Z.max 0 took))
          (Z.max 0 took) (result_summary str_result res)])%list /\
    log (current_hdo st') = Some l /\
    payload (current_hdo st') = payload (current_hdo st) /\
    process_id (current_hdo st') = process_id (current_hdo st) /\
    ids_check st' = Returned tt /\
    current_plan st' = current_plan st /\
    clock st' = (clock st + Z.max 0 took)%Z.
Proof.
  intros Hw Hl Hagent Haction Hpid Hids Hans Hres Hmeta Hpay.
  cbn [_execute_step]. unfold bind at 1, gets at 1.
  rewrite (should_execute_always _ _ Hw). cbn [negb].
  unfold bind at 1, now, gets at 1.
  destruct (record_run (started_entry step (isoformat (clock st)))
              (isoformat (clock st)) st l Hl) as (s1 & Hr1 & Hlog1 & Ho1).
  (* the invocation *)
  assert (Hinv : exists s2, _invoke_step step ctx s1 = (Returned res, s2) /\
            cur_log s2 = cur_log s1 /\ log (current_hdo s2) = Some l /\
            payload (current_hdo s2) = payload (current_hdo st) /\
            process_id (current_hdo s2) = process_id (current_hdo st) /\
            ids_check s2 = Returned tt /\
            current_plan s2 = current_plan st /\
            clock s2 = (clock st + Z.max 0 took)%Z).
  { unfold _invoke_step. unfold bind at 1, gets at 1. unfold bind at 1, gets at 1.
    set (args := mkInvokeArgs _ _ _ _ _ _). set (ictx := mkInvokeContext _ _ _ _).
    pose proof (orchestra_invoke_spec args ictx s1) as H.
    assert (Hpre : precheck args ictx s1 = None).
    { unfold precheck, args, ictx.
      cbn [a_agent_id a_action ic_process_id ic_hdo].
      destruct (String.eqb_spec (agent_id step) ""); [contradiction|].
      destruct (String.eqb_spec (action step) ""); [contradiction|].
      rewrite (ol_pid _ _ Ho1).
      destruct (String.eqb_spec (process_id (current_hdo st)) ""); [contradiction|].
      rewrite <- (ol_pid _ _ Ho1). fold (ids_check s1).
      rewrite (only_logged_ids_check _ _ Ho1), Hids. reflexivity. }
    rewrite Hpre in H. subst args.
    cbn [a_agent_id a_action a_parameters] in H. rewrite Hans in H.
    destruct H as (s1' & H & Hdo & _).
    rewrite (bind_run _ _ _ _ _ H). rewrite Hres.
    destruct (apply_hdo_updates_run u s1') as (s2 & Hr2 & Hu2); [exact Hmeta | |].
    { intros up Hup. destruct (Hpay up Hup) as [Hp Hk]. split; [|exact Hk].
      rewrite (do_hdo _ _ _ _ _ Hdo), (ol_payload _ _ Ho1). exact Hp. }
    rewrite (bind_run _ _ _ _ _ Hr2). unfold ret.
    exists s2. split; [reflexivity|].
    assert (Hm1' : cur_meta s1' = cur_meta s1).
    { unfold cur_meta. rewrite (do_store _ _ _ _ _ Hdo), (do_hdo _ _ _ _ _ Hdo).
      reflexivity. }
    split.
    { unfold cur_log, log_at, log_of. cbn [fst snd].
      rewrite (pu_lists _ _ Hu2), (pu_log _ _ Hu2),
        (do_store _ _ _ _ _ Hdo), (do_hdo _ _ _ _ _ Hdo). reflexivity. }
    split.
    { rewrite (pu_log _ _ Hu2), (do_hdo _ _ _ _ _ Hdo), (ol_log _ _ Ho1). exact Hl. }
    split.
    { rewrite (pu_payload _ _ Hu2), (do_hdo _ _ _ _ _ Hdo). apply (ol_payload _ _ Ho1). }
    split.
    { rewrite (pu_pid _ _ Hu2), (do_hdo _ _ _ _ _ Hdo). apply (ol_pid _ _ Ho1). }
    split.
    { rewrite <- Hids. rewrite <- (only_logged_ids_check _ _ Ho1).
      apply ids_check_ext.
      - rewrite (pu_pid _ _ Hu2), (do_hdo _ _ _ _ _ Hdo). reflexivity.
      - rewrite (pu_key _ _ Hu2), Hm1'. reflexivity. }
    split.
    { rewrite (pu_plan _ _ Hu2), (do_plan _ _ _ _ _ Hdo). apply (ol_plan _ _ Ho1). }
    rewrite (pu_clock _ _ Hu2), (do_clock _ _ _ _ _ Hdo), (ol_clock _ _ Ho1).
    reflexivity. }
  destruct Hinv as (s2 & Hr2 & Hlog2 & Hl2 & Hp2 & Hpid2 & Hids2 & Hplan2 & Hc2).
  unfold try_except. unfold _record_step_start at 1.
  rewrite (bind_run _ _ _ _ _ Hr1), (bind_run _ _ _ _ _ Hr2).
  unfold bind at 1, now, gets at 1.
  destruct (record_run
              (completed_entry step (isoformat (clock s2)) (clock s2 - clock st)
                 (result_summary str_result res))
              (isoformat (clock s2)) s2 l Hl2) as (s3 & Hr3 & Hlog3 & Ho3).
  unfold _record_step_completion. rewrite Hr3.
  exists s3. split; [reflexivity|].
  split.
  { rewrite Hlog3, Hlog2, Hlog1, Hc2, <- app_assoc.
    replace (clock st + Z.max 0 took - clock st)%Z with (Z.max 0 took) by lia.
    reflexivity. }
  split; [rewrite (ol_log _ _ Ho3); exact Hl2|].
  split; [rewrite (ol_payload _ _ Ho3); exact Hp2|].
  split; [rewrite (ol_pid _ _ Ho3); exact Hpid2|].
  split; [rewrite (only_logged_ids_check _ _ Ho3); exact Hids2|].
  split; [rewrite (ol_plan _ _ Ho3); exact Hplan2|].
  rewrite (ol_clock _ _ Ho3). exact Hc2.
Qed.

End RunnerFacts.

(** ** Successful runs, and the two-step scenario *)

Section Scenario.
Context (uuid4 : nat -> string)
        (isoformat : Z -> string)
        (strftime : Z -> string)
        (py_str : JVal -> string)
        (str_result : AgentResult -> string).

Abbreviation simulated := (_delegate_to_agent isoformat strftime py_str).

Lemma scenario_run (plan : Plan) (hdo : HDO) (ctx : option CallContext)
    (s : Store) (t : Z) (n : nat) (a b : Step) :
  steps plan = Some [a; b] ->
  agent_id a = "input-mapper" -> action a = "map" -> when a = None ->
  agent_id b = "input-validator" -> action b = "validate" -> when b = None ->
  process_id hdo = "PROC-demo-20250101-120000-001" ->
  _validate_heir_ids (process_id hdo) s hdo = Returned tt ->
  is_Some (payload hdo) ->
  log_at (s, hdo) = [] ->
  exists s2 sa sb,
    for_each (default [] (steps plan))
      (fun step => _execute_step uuid4 isoformat py_str str_result simulated
                     (retry_depth step) step ctx)
      (initialized isoformat s t n plan hdo) = (Returned tt, s2) /\
    clock s2 = (t + 800)%Z /\
    cur_log s2 =
      [start_entry (isoformat t) plan;
       started_entry a (isoformat t);
       completed_entry a (isoformat (t + 500)) 500 sa;
       started_entry b (isoformat (t + 500));
       completed_entry b (isoformat (t + 800)) 300 sb].
Proof.
  intros Hsteps Haa Hac Haw Hba Hbc Hbw Hpid Hids Hpay Hlog.
  destruct (initialize_run isoformat (entered s t n plan hdo))
    as (st0 & Hinit & Hlog0 & [l Hl] & _ & Hkey & Hpid0 & _ & _ & Hplan0 & Hclk0
        & _ & Hpay0).
  assert (Hst0 : initialized isoformat s t n plan hdo = st0).
  { unfold initialized. rewrite Hinit. reflexivity. }
  rewrite cur_log_entered, Hlog in Hlog0. simpl in Hlog0, Hclk0, Hplan0.
  assert (Hids0 : ids_check st0 = Returned tt).
  { rewrite (ids_check_ext _ _ Hpid0 Hkey). unfold ids_check, entered.
    cbn [store current_hdo]. rewrite dict_copy_id. exact Hids. }
  assert (Hp0 : process_id (current_hdo st0) <> "").
  { rewrite Hpid0. unfold entered. cbn [current_hdo].
    rewrite dict_copy_id, Hpid. discriminate. }
  assert (Hpay0' : is_Some (payload (current_hdo st0))).
  { rewrite Hpay0. unfold entered. cbn [current_hdo].
    rewrite dict_copy_id. exact Hpay. }
  edestruct (execute_step_succeeds uuid4 isoformat py_str str_result simulated
               (Z.to_nat (step_max_retries a)) a ctx st0 l)
    as (st1 & Hrun1 & Hlog1 & Hl1 & Hpay1 & Hpid1 & Hids1 & Hplan1 & Hclk1).
  { exact Haw. }
  { exact Hl. }
  { rewrite Haa. discriminate. }
  { rewrite Hac. discriminate. }
  { exact Hp0. }
  { exact Hids0. }
  { intros h timeout now calls. unfold _delegate_to_agent. rewrite Haa.
    change (select_category "input-mapper") with Mapper.
    cbv [behaviour _simulate_mapper]. reflexivity. }
  { reflexivity. }
  { reflexivity. }
  { intros up Hup. split; [exact Hpay0'|].
    simpl in Hup. injection Hup as <-.
    rewrite lookup_insert_ne by discriminate.
    apply lookup_singleton_ne. discriminate. }
  edestruct (execute_step_succeeds uuid4 isoformat py_str str_result simulated
               (Z.to_nat (step_max_retries b)) b ctx st1 l)
    as (st2 & Hrun2 & Hlog2 & Hl2 & Hpay2 & Hpid2 & Hids2 & Hplan2 & Hclk2).
  { exact Hbw. }
  { exact Hl1. }
  { rewrite Hba. discriminate. }
  { rewrite Hbc. discriminate. }
  { rewrite Hpid1. exact Hp0. }
  { exact Hids1. }
  { intros h timeout now calls. unfold _delegate_to_agent. rewrite Hba.
    change (select_category "input-validator") with Validator.
    cbv [behaviour _simulate_validator]. reflexivity. }
  { reflexivity. }
  { reflexivity. }
  { intros up Hup. split; [rewrite Hpay1; exact Hpay0'|].
    simpl in Hup. injection Hup as <-.
    apply lookup_singleton_ne. discriminate. }
  eexists st2, _, _. rewrite Hst0, Hsteps.
  change (default [] (Some [a; b])) with [a; b]. cbn [for_each].
  split; [|split].
  - unfold retry_depth, bind. rewrite Hrun1, Hrun2. reflexivity.
  - rewrite Hclk2, Hclk1, Hclk0. simpl. lia.
  - rewrite Hlog2, Hlog1, Hlog0, Hclk1, Hclk0.
    change (Z.max 0 500) with 500%Z. change (Z.max 0 300) with 300%Z.
    replace (t + 500 + 300)%Z with (t + 800)%Z by lia. reflexivity.
Qed.


End Scenario.

(** ** The properties on sample inputs *)



Lemma C2_witness :
  exists e st',
    _execute_step Sample.uuid4 Sample.isoformat Sample.py_str Sample.str_result
      Sample.simulation (retry_depth Sample.rollback) Sample.rollback None
      (Sample.idle Sample.rollback_plan Sample.demo_hdo) = (Raised e, st') /\
    _get_step_retry_count (cur_log st') "s3" = 1%Z.
Proof.
  destruct (C2_failed_entries_when_retries_run_out
              Sample.uuid4 Sample.isoformat Sample.py_str Sample.str_result
              Sample.simulation Sample.rollback None 1%positive
              (Sample.idle Sample.rollback_plan Sample.demo_hdo) 1%Z)
    as (e & st' & Hrun & Hcount & _).
  - reflexivity.
  - intros h timeout now calls. eexists _, _. vm_compute. reflexivity.
  - reflexivity.
  - reflexivity.
  - reflexivity.
  - lia.
  - vm_compute. reflexivity.
  - exists e, st'. split; [exact Hrun | exact Hcount].
Defined.

(** The whole invocation on the plan of that step: one retry is allowed,
    none is made; the log holds one failed entry of the step when the
    runner raises. *)
Example rollback_run_fails_once :
  step_max_retries Sample.rollback = 1%Z /\
  let '(r, st') :=
    Sample.run Sample.simulation Sample.rollback_plan Sample.demo_hdo in
  has_raised r = true /\
  map (fun x => (le_action x, le_status x)) (cur_log st')
  = [("start_orchestration", "started"); ("migrate", "started");
     ("migrate", "failed")] /\
  length (delegated st') = 1.
Proof. vm_compute. repeat split; reflexivity. Qed.


Lemma C4_witness :
  log_of Sample.objects Sample.demo_hdo = Some [] /\
  log_of (store (Sample.run Sample.simulation Sample.demo_plan Sample.demo_hdo).2)
         Sample.demo_hdo
  <> Some [].
Proof.
  pose proof (C4_callers_log_is_appended_to
                Sample.uuid4 Sample.isoformat Sample.py_str Sample.str_result
                Sample.simulation Sample.demo_plan Sample.demo_hdo None
                Sample.objects 0 0 1%positive [] eq_refl eq_refl) as HC.
  unfold Sample.run.
  destruct (run_altitude_plan _ _ _ _ _ _ _ _ _) as [r st'].
  destruct HC as (H0 & more & _ & Hne).
  split; [exact H0|]. cbn [snd]. rewrite <- H0. exact Hne.
Defined.





Lemma C10_witness :
  Forall (fun p =>
            _evaluate_condition_expression (log_at p)
              "enforcer.promotion_decision == true" = false)
         (trace (Sample.run Sample.simulation Sample.demo_plan Sample.demo_hdo).2).
Proof.
  assert (H : Forall made (log_at (Sample.objects, Sample.demo_hdo)))
    by (vm_compute; constructor).
  pose proof (C10_promotion_condition_never_holds
                Sample.uuid4 Sample.isoformat Sample.py_str Sample.str_result
                Sample.simulation Sample.demo_plan Sample.demo_hdo None
                Sample.objects 0 0 H) as HC.
  unfold Sample.run.
  destruct (run_altitude_plan _ _ _ _ _ _ _ _ _) as [r st'].
  destruct HC as (_ & _ & HF). cbn [snd].
  eapply Forall_impl; [exact HF|].
  intros p (_ & Hexpr & _). apply Hexpr. apply PyStrFacts.occurs_in_refl.
Defined.

(** * Further properties of the code *)

(** ** Regular expressions and the identifier patterns *)

Module ReFacts.
Import Re ReSpec PyStrFacts.

Lemma append_empty_r (s : string) : s ++ "" = s.
Proof.
  induction s as [|c s IH]; [reflexivity|].
  rewrite append_cons, IH. reflexivity.
Qed.






























End ReFacts.

(** ** Identifier validation *)





(** ** Dependencies between steps *)

Lemma completed_steps_snoc (lg : list LogEntry) (entry : LogEntry) :
  completed_steps (lg ++ [entry])%list
  = if opt_truthy (entry_step_id entry) &&
       PyStr.mem (le_status entry) ["completed"; "failed"]
    then match entry_step_id entry with
         | Some (JStr sid) => <[sid := le_status entry]> (completed_steps lg)
         | _ => completed_steps lg
         end
    else completed_steps lg.
Proof. unfold completed_steps. rewrite fold_left_app. reflexivity. Qed.

Lemma last_snoc_filter (P : LogEntry -> bool) (lg : list LogEntry) (entry : LogEntry) :
  last (filter (fun e => P e = true) (lg ++ [entry])%list)
  = if P entry then Some entry else last (filter (fun e => P e = true) lg).
Proof.
  rewrite filter_app. destruct (P entry) eqn:H.
  - rewrite filter_cons_True by exact H. rewrite filter_nil.
    apply last_snoc.
  - rewrite filter_cons_False by congruence. rewrite filter_nil, app_nil_r.
    reflexivity.
Qed.

(** The dict that both dependency checks build maps a step id to the status
    of the last entry that settles it. *)
Lemma completed_steps_lookup (lg : list LogEntry) (sid : string) :
  completed_steps lg !! sid = last_settled lg sid.
Proof.
  unfold last_settled.
  induction lg as [|entry lg IH] using rev_ind; [reflexivity|].
  rewrite completed_steps_snoc, last_snoc_filter. unfold settles at 1.
  destruct (entry_step_id entry) as [[| | |s| |]|] eqn:He;
    cbn [opt_truthy truthy];
    try (destruct (_ && _); exact IH); try exact IH.
  destruct (String.eqb s sid) eqn:Hs, (negb (String.eqb s "")) eqn:Hn,
    (PyStr.mem (le_status entry) ["completed"; "failed"]) eqn:Hm;
    cbn [andb fmap option_fmap option_map]; try exact IH.
  - apply String.eqb_eq in Hs. subst s. apply lookup_insert_eq.
  - apply String.eqb_neq in Hs. rewrite lookup_insert_ne by exact Hs. exact IH.
Qed.

Lemma dependency_checks_spec (lg : list LogEntry)
    (step_ids : list string) :
  (_all_dependencies_successful lg step_ids = true
   <-> forall sid, In sid step_ids -> last_settled lg sid = Some "completed") /\
  (_any_dependencies_failed lg step_ids = true
   <-> exists sid, In sid step_ids /\ last_settled lg sid = Some "failed").
Proof.
  assert (Hall : forallb (fun step_id =>
                   match completed_steps lg !! step_id with
                   | Some status => String.eqb status "completed"
                   | None => false
                   end) step_ids = true
                 <-> forall sid, In sid step_ids ->
                       last_settled lg sid = Some "completed").
  { rewrite forallb_forall. split; intros H sid Hin; specialize (H sid Hin);
      rewrite completed_steps_lookup in *.
    - destruct (last_settled lg sid); [|discriminate].
      apply String.eqb_eq in H. subst. reflexivity.
    - rewrite H. reflexivity. }
  assert (Hany : existsb (fun step_id =>
                   match completed_steps lg !! step_id with
                   | Some status => String.eqb status "failed"
                   | None => false
                   end) step_ids = true
                 <-> exists sid, In sid step_ids /\
                       last_settled lg sid = Some "failed").
  { rewrite existsb_exists. split; intros (sid & Hin & H); exists sid;
      (split; [exact Hin|]); rewrite completed_steps_lookup in *.
    - destruct (last_settled lg sid); [|discriminate].
      apply String.eqb_eq in H. subst. reflexivity.
    - rewrite H. reflexivity. }
  destruct step_ids as [|d ds]; [|split; [exact Hall | exact Hany]].
  split; simpl.
  - split; [intros _ sid [] | reflexivity].
  - split; [discriminate | intros (sid & [] & _)].
Qed.

(** X3.  The two dependency checks read the log as follows.  The outcome
    of a step is the status of the last completed or failed entry that
    carries its (non-empty) step id.  [_all_dependencies_successful] holds
    when that outcome is completed for every dependency, and
    [_any_dependencies_failed] when it is failed for some dependency; with
    no dependencies the first holds and the second does not. *)
Theorem dependency_checks_read_last_outcome (lg : list LogEntry)
    (step_ids : list string) :
  (_all_dependencies_successful lg step_ids = true
   <-> forall sid, In sid step_ids -> last_settled lg sid = Some "completed") /\
  (_any_dependencies_failed lg step_ids = true
   <-> exists sid, In sid step_ids /\ last_settled lg sid = Some "failed").
Proof. apply dependency_checks_spec. Qed.

(** X4.  On one and the same log, dependencies that are all successful
    have none failed: a step waiting on_success and a step waiting
    on_failure for the same dependencies are never both executed. *)
Theorem success_excludes_failure (lg : list LogEntry) (step_ids : list string) :
  _all_dependencies_successful lg step_ids = true ->
  _any_dependencies_failed lg step_ids = false.
Proof.
  intros Hall. apply not_true_is_false. intros Hany.
  destruct (dependency_checks_spec lg step_ids) as [[Ha _] [Hb _]].
  destruct (Hb Hany) as (sid & Hin & Hf).
  rewrite (Ha Hall sid Hin) in Hf. discriminate.
Qed.

(** ** The snapshot of an HDO in an error record *)

Lemma copy_keys_lookup (hdo_meta : Dict) (keys : list string) (acc : Dict)
    (k : string) :
  fold_left
    (fun snapshot_meta key =>
       match hdo_meta !! key with
       | Some v => <[key := v]> snapshot_meta
       | None => snapshot_meta
       end) keys acc !! k
  = if PyStr.mem k keys
    then match hdo_meta !! k with
         | Some v => Some v
         | None => acc !! k
         end
    else acc !! k.
Proof.
  revert acc. induction keys as [|key keys IH]; intros acc; [reflexivity|].
  cbn [fold_left]. rewrite IH. unfold PyStr.mem. cbn [existsb].
  fold (PyStr.mem k keys).
  destruct (String.eqb k key) eqn:Hk; cbn [orb].
  - apply String.eqb_eq in Hk. subst key.
    destruct (hdo_meta !! k) as [v|] eqn:Hv.
    + rewrite lookup_insert_eq. destruct (PyStr.mem k keys); reflexivity.
    + destruct (PyStr.mem k keys); reflexivity.
  - apply String.eqb_neq in Hk.
    destruct (hdo_meta !! key) as [v|]; [|reflexivity].
    rewrite lookup_insert_ne by congruence. reflexivity.
Qed.

Lemma last_n_suffix {A} (n : nat) (xs : list A) :
  last_n n xs `suffix_of` xs /\ length (last_n n xs) = Nat.min n (length xs).
Proof.
  unfold last_n. split.
  - apply suffix_drop.
  - rewrite length_drop. lia.
Qed.

Section SnapshotFacts.
Context (uuid4 : nat -> string)
        (isoformat : Z -> string)
        (py_str : JVal -> string).

(** X5.  The snapshot that goes into an error record is redacted.  Of [meta]
    it has the allow-listed keys (plan_id, plan_version, plan_hash,
    idempotency_key, error_context) with their values and no other key; of
    the log it has the last ten entries, all of it when there are no more
    than ten; of the payload it has the names of the keys only.  The log
    that [build_error_record] snapshots is the one of this function. *)
Theorem snapshot_is_redacted (s : Store) (hdo : HDO) :
  let snapshot := _create_hdo_snapshot py_str s hdo in
  (forall hdo_meta, meta_of s hdo = Some hdo_meta ->
     exists sm, sn_meta snapshot = Some sm /\
       forall k, sm !! k = if PyStr.mem k safe_meta_keys then hdo_meta !! k
                           else None) /\
  (forall lg, log_of s hdo = Some lg ->
     exists sl, sn_log snapshot = Some sl /\ sl `suffix_of` lg /\
       length sl = Nat.min 10 (length lg)) /\
  (forall hdo_payload, payload_of s hdo = Some hdo_payload ->
     exists ps, sn_payload_summary snapshot = Some ps /\
       forall k, In k (ps_keys ps) <-> is_Some (hdo_payload !! k)) /\
  (forall origin ctx e st rec st',
     build_error_record uuid4 isoformat py_str origin hdo ctx e st
     = (Returned rec, st') ->
     snapshot_log rec = sn_log (_create_hdo_snapshot py_str (store st) hdo)).
Proof.
  cbn zeta. unfold _create_hdo_snapshot. cbn [sn_meta sn_log sn_payload_summary].
  split; [|split; [|split]].
  - intros hdo_meta ->. eexists. split; [reflexivity|]. intros k.
    unfold copy_safe_keys. rewrite copy_keys_lookup.
    destruct (PyStr.mem k safe_meta_keys); [|apply lookup_empty].
    destruct (hdo_meta !! k); [reflexivity | apply lookup_empty].
  - intros lg ->. eexists. split; [reflexivity|]. apply last_n_suffix.
  - intros hdo_payload ->. eexists. split; [reflexivity|]. intros k.
    cbn [ps_keys]. rewrite in_map_iff. split.
    + intros ([k' v] & <- & Hin). apply list_elem_of_In in Hin.
      apply elem_of_map_to_list in Hin. exists v. exact Hin.
    + intros [v Hv]. exists (k, v). split; [reflexivity|].
      apply list_elem_of_In. apply elem_of_map_to_list. exact Hv.
  - intros origin ctx e st rec st' H.
    unfold build_error_record, bind, new_uuid, gets, now, modify, ret in H.
    destruct (ctx_current_step ctx); injection H as <- _; reflexivity.
Qed.

End SnapshotFacts.

(** ** Registry, error log and sidecar *)

Global Instance still_preorder {X} (f : St -> X) : PreOrder (still f).
Proof.
  split.
  - intros st. reflexivity.
  - intros a b c Hab Hbc. unfold still in *. congruence.
Qed.

Lemma within_le (lo hi : nat) (indices : list nat) :
  within lo hi indices -> lo <= hi.
Proof.
  revert lo. induction indices as [|i rest IH]; intros lo; simpl; [lia|].
  intros [Hi Hr]. specialize (IH _ Hr). lia.
Qed.

Lemma within_weaken (lo lo' hi : nat) (indices : list nat) :
  lo' <= lo -> within lo hi indices -> within lo' hi indices.
Proof. destruct indices; simpl; [lia|]. intros H [Hi Hr]. split; [lia | exact Hr]. Qed.

Lemma within_app (a b c : nat) (xs ys : list nat) :
  within a b xs -> within b c ys -> within a c (xs ++ ys).
Proof.
  revert a. induction xs as [|x xs IH]; intros a; simpl.
  - intros Hab. apply within_weaken. exact Hab.
  - intros [Hx Hr] Hys. split; [exact Hx | apply IH; assumption].
Qed.

Lemma within_bounds (lo hi : nat) (indices : list nat) :
  within lo hi indices -> Forall (fun i => lo <= i < hi) indices.
Proof.
  revert lo. induction indices as [|i rest IH]; intros lo; simpl; [constructor|].
  intros [Hi Hr]. pose proof (within_le _ _ _ Hr) as Hle.
  constructor; [lia|]. eapply Forall_impl; [apply IH; exact Hr|].
  simpl. intros j Hj. lia.
Qed.

Lemma within_NoDup (lo hi : nat) (indices : list nat) :
  within lo hi indices -> NoDup indices.
Proof.
  revert lo. induction indices as [|i rest IH]; intros lo; simpl; [constructor|].
  intros [Hi Hr]. constructor; [|apply (IH _ Hr)].
  intros Hin. pose proof (within_bounds _ _ _ Hr) as Hb.
  rewrite Forall_forall in Hb. specialize (Hb _ Hin). lia.
Qed.

Lemma paired_app (e1 e2 : list SidecarEvent) (c1 c2 : list (string * string * bool)) :
  paired e1 c1 -> paired e2 c2 -> paired (e1 ++ e2) (c1 ++ c2).
Proof.
  revert e1. induction c1 as [|[[agent action] raised] c1 IH]; intros e1.
  - destruct e1 as [|x [|y e1]]; simpl; try contradiction. intros _ H. exact H.
  - destruct e1 as [|x [|y e1]]; simpl; try contradiction.
    intros (H1 & H2 & H3 & H4 & H5 & H6) H.
    repeat split; try assumption. apply IH; assumption.
Qed.

Lemma paired_length (events : list SidecarEvent)
    (calls : list (string * string * bool)) :
  paired events calls -> length events = 2 * length calls.
Proof.
  revert events. induction calls as [|[[agent action] raised] calls IH];
    intros events.
  - destruct events as [|x [|y events]]; simpl; try contradiction. reflexivity.
  - destruct events as [|x [|y events]]; simpl; try contradiction.
    intros (_ & _ & _ & _ & _ & H). rewrite (IH _ H). lia.
Qed.

Section LedgerFacts.
Context (uuid4 : nat -> string)
        (isoformat : Z -> string)
        (strftime : Z -> string)
        (py_str : JVal -> string)
        (str_result : AgentResult -> string)
        (delegate : Delegate).

Abbreviation new_uuid := (new_uuid uuid4).
Abbreviation build_error_record := (build_error_record uuid4 isoformat py_str).
Abbreviation _post_sidecar_event := (_post_sidecar_event isoformat).
Abbreviation call_delegate := (call_delegate delegate).
Abbreviation orchestra_invoke := (orchestra_invoke uuid4 isoformat py_str delegate).
Abbreviation _initialize_hdo_execution := (_initialize_hdo_execution isoformat).
Abbreviation _record_step_start := (_record_step_start isoformat).
Abbreviation _record_step_completion := (_record_step_completion isoformat str_result).
Abbreviation _record_step_failure := (_record_step_failure isoformat).
Abbreviation _record_step_skipped := (_record_step_skipped isoformat).
Abbreviation _complete_hdo_execution := (_complete_hdo_execution isoformat).
Abbreviation _invoke_step := (_invoke_step uuid4 isoformat py_str delegate).
Abbreviation _execute_step :=
  (_execute_step uuid4 isoformat py_str str_result delegate).
Abbreviation run_altitude_plan :=
  (run_altitude_plan uuid4 isoformat py_str str_result delegate).
Abbreviation plan_body := (plan_body uuid4 isoformat py_str str_result delegate).
Abbreviation plan_failed := (plan_failed uuid4 isoformat py_str).
Abbreviation initialized := (initialized isoformat).
Abbreviation ledger := (ledger uuid4).
Abbreviation attempt := (attempt uuid4 isoformat py_str str_result delegate).

Ltac keeps_step :=
  lazymatch goal with
  | |- keeps ?R (ret _) => apply (keeps_ret R)
  | |- keeps ?R (raise _) => apply (keeps_raise R)
  | |- keeps ?R (gets _) => apply (keeps_gets R)
  | |- keeps ?R now => apply (keeps_gets R)
  | |- keeps ?R (lift _) => intros ?; reflexivity
  | |- keeps ?R (bind _ _) => apply (keeps_bind R); [|intros ?]
  | |- keeps ?R (try_except _ _) => apply (keeps_try_except R); [|intros ?]
  | |- keeps ?R (try_finally _ _) => apply (keeps_try_finally R)
  | |- keeps ?R (for_each _ _) => apply (keeps_for_each R); intros ?
  | |- keeps _ (match ?x with _ => _ end) => destruct x
  end.


Global Instance ledger_preorder : PreOrder ledger.
Proof.
  split.
  - intros st. split.
    + reflexivity.
    + exists [], []. rewrite !app_nil_r. repeat split. simpl. lia.
    + exists [], []. rewrite !app_nil_r. repeat split.
  - intros a b c [Ha1 (n1 & i1 & Hb1 & Hi1 & Hm1 & Hw1) (e1 & c1 & Hs1 & Hd1 & Hp1)]
           [Ha2 (n2 & i2 & Hb2 & Hi2 & Hm2 & Hw2) (e2 & c2 & Hs2 & Hd2 & Hp2)].
    split.
    + etransitivity; eassumption.
    + exists (n1 ++ n2)%list, (i1 ++ i2)%list.
      rewrite Hb2, Hb1, Hi2, Hi1, !map_app, Hm1, Hm2, !app_assoc.
      repeat split. eapply within_app; eassumption.
    + exists (e1 ++ e2)%list, (c1 ++ c2)%list.
      rewrite Hs2, Hs1, Hd2, Hd1, !app_assoc.
      repeat split. apply paired_app; assumption.
Qed.

Lemma ledger_quiet st st' :
  active_orchestrations st' = active_orchestrations st ->
  built st' = built st -> inserted st' = inserted st ->
  sidecar st' = sidecar st -> delegated st' = delegated st ->
  uuids st' = uuids st -> ledger st st'.
Proof.
  intros Ha Hb Hi Hs Hd Hu. split.
  - rewrite Ha. reflexivity.
  - exists [], []. rewrite Hb, Hi, Hu, !app_nil_r. repeat split. simpl. lia.
  - exists [], []. rewrite Hs, Hd, !app_nil_r. repeat split.
Qed.

Ltac ledger_leaf :=
  lazymatch goal with
  | |- keeps ledger (modify _) => intros ?; apply ledger_quiet; reflexivity
  | |- keeps ledger (mutate _) => intros ?; apply ledger_quiet; reflexivity
  | |- keeps ledger (sleep _) => intros ?; apply ledger_quiet; reflexivity
  | |- keeps ledger new_list => intros ?; apply ledger_quiet; reflexivity
  | |- keeps ledger new_dict => intros ?; apply ledger_quiet; reflexivity
  | |- keeps ledger (touch _) => intros ?; apply ledger_quiet; reflexivity
  end.

Ltac ledger_auto := repeat first [ ledger_leaf | keeps_step ].

Lemma ledger_log_append entry : keeps ledger (log_append entry).
Proof. unfold log_append. ledger_auto. Qed.

Lemma ledger_meta_set key v : keeps ledger (meta_set key v).
Proof. unfold meta_set. ledger_auto. Qed.

Lemma ledger_dict_update_at key ref u : keeps ledger (dict_update_at key ref u).
Proof. unfold dict_update_at. ledger_auto. Qed.

Lemma ledger_ensure_meta : keeps ledger ensure_meta.
Proof. unfold ensure_meta. ledger_auto. Qed.

Lemma ledger_initialize_hdo_execution : keeps ledger _initialize_hdo_execution.
Proof.
  unfold _initialize_hdo_execution, ensure_log, ensure_altitude_trace.
  repeat first [ apply ledger_log_append | apply ledger_ensure_meta
               | apply ledger_dict_update_at | ledger_leaf | keeps_step ].
Qed.

Lemma ledger_complete_hdo_execution : keeps ledger _complete_hdo_execution.
Proof.
  unfold _complete_hdo_execution.
  repeat first [ apply ledger_log_append | ledger_leaf | keeps_step ].
Qed.

Lemma ledger_apply_hdo_updates u : keeps ledger (_apply_hdo_updates u).
Proof.
  unfold _apply_hdo_updates.
  repeat first [ apply ledger_dict_update_at | ledger_leaf | keeps_step ].
Qed.

Lemma ledger_record_hdo_error rec : keeps ledger (_record_hdo_error rec).
Proof.
  unfold _record_hdo_error.
  repeat first [ apply ledger_ensure_meta | apply ledger_meta_set
               | ledger_leaf | keeps_step ].
Qed.

Lemma ledger_orchestra_invoke args ictx : keeps ledger (orchestra_invoke args ictx).
Proof.
  intros st. unfold orchestra_invoke.
  destruct (String.eqb (a_agent_id args) ""); [reflexivity|].
  destruct (String.eqb (a_action args) ""); [reflexivity|].
  destruct (String.eqb (ic_process_id ictx) ""); [reflexivity|].
  unfold bind, new_uuid, now, gets, modify, try_finally, try_except,
    _post_sidecar_event, call_delegate, build_error_record,
    _insert_error_record, ret, raise, lift.
  simpl.
  destruct (_validate_heir_ids _ _ _) as [[]|e]; [|reflexivity].
  destruct (delegate _ _ _ _ _ _ _) as [took out] eqn:Hd.
  destruct out as [res|e0]; simpl.
  - split; simpl.
    + rewrite delete_insert_eq. apply delete_subseteq.
    + exists [], []. rewrite !app_nil_r. repeat split. simpl. lia.
    + eexists [_; _], [_]. split; [rewrite <- app_assoc; reflexivity|].
      split; [reflexivity|]. simpl. repeat split.
  - split; simpl.
    + rewrite delete_insert_eq. apply delete_subseteq.
    + eexists [(ByInvoke, _)], [S (uuids st)].
      split; [reflexivity|]. split; [reflexivity|]. split; [reflexivity|].
      simpl. lia.
    + eexists [_; _], [_]. split; [rewrite <- app_assoc; reflexivity|].
      split; [reflexivity|]. simpl. repeat split.
Qed.

Lemma ledger_execute_step depth step ctx : keeps ledger (_execute_step depth step ctx).
Proof.
  induction depth as [|depth IH]; cbn [_execute_step].
  - keeps_step.
  - unfold _record_step_skipped, _record_step_start, _record_step_completion,
      _record_step_failure, _invoke_step.
    repeat first
      [ exact IH | apply ledger_log_append | apply ledger_orchestra_invoke
      | apply ledger_apply_hdo_updates | ledger_leaf | keeps_step ].
Qed.

Lemma ledger_plan_body plan ctx : keeps ledger (plan_body plan ctx).
Proof.
  unfold plan_body.
  repeat first
    [ apply ledger_initialize_hdo_execution | apply ledger_complete_hdo_execution
    | apply ledger_execute_step | keeps_step ].
Qed.

Lemma ledger_plan_failed plan ctx e : keeps ledger (plan_failed plan ctx e).
Proof.
  intros st. unfold plan_failed. unfold bind at 1, gets at 1.
  destruct (build_error_record_run uuid4 isoformat py_str ByRunner (current_hdo st)
              (default empty_context ctx) e st)
    as (rec & s1 & Hr1 & Hb1 & Hd1 & Hs1 & Hh1 & Hid & _).
  rewrite (bind_run _ _ _ _ _ Hr1).
  unfold bind at 1, _insert_error_record at 1, modify at 1.
  set (s2 := with_inserted _ s1).
  assert (H12 : ledger st s2).
  { revert Hr1. unfold build_error_record, bind, new_uuid, gets, now,
      modify, ret.
    destruct (match ctx_current_step (default empty_context ctx) with
              | Some _ => _ | None => _ end) as [a sg].
    intros Hr1. injection Hr1 as Hrec Hs. subst s2. rewrite <- Hs. split; simpl.
    - reflexivity.
    - eexists [(ByRunner, _)], [uuids st]. rewrite <- Hrec.
      split; [reflexivity|]. split; [reflexivity|]. split; [reflexivity|].
      simpl. lia.
    - exists [], []. rewrite !app_nil_r. repeat split. }
  etransitivity; [exact H12|].
  refine (keeps_bind ledger _ _ (ledger_record_hdo_error rec) _ s2).
  intros ?. apply (keeps_raise ledger).
Qed.

Lemma ledger_run_altitude_plan plan hdo ctx :
  keeps ledger (run_altitude_plan plan hdo ctx).
Proof.
  unfold run_altitude_plan.
  repeat first
    [ apply ledger_plan_body | apply ledger_plan_failed | ledger_leaf | keeps_step ].
Qed.

Lemma orchestra_invoke_registry args ictx st :
  active_orchestrations st !! uuid4 (uuids st) = None ->
  active_orchestrations (orchestra_invoke args ictx st).2
  = active_orchestrations st.
Proof.
  intros Hfresh. unfold orchestra_invoke.
  destruct (String.eqb (a_agent_id args) ""); [reflexivity|].
  destruct (String.eqb (a_action args) ""); [reflexivity|].
  destruct (String.eqb (ic_process_id ictx) ""); [reflexivity|].
  unfold bind, new_uuid, now, gets, modify, try_finally, try_except,
    _post_sidecar_event, call_delegate, build_error_record,
    _insert_error_record, ret, raise, lift.
  simpl.
  destruct (_validate_heir_ids _ _ _) as [[]|e]; [|reflexivity].
  destruct (delegate _ _ _ _ _ _ _) as [took out] eqn:Hd.
  destruct out as [res|e0]; simpl; apply delete_insert_id; exact Hfresh.
Qed.

(** X6.  The registry of active orchestrations is cleaned up.  After
    [orchestra_invoke], whether it returned or raised,
    [get_active_orchestrations] shows no orchestration that was not
    registered before the call, and exactly those registered before when
    the execution id that [uuid4] hands out is new.  The same holds of a
    whole invocation of [run_altitude_plan]: it registers nothing that
    stays. *)
Theorem registry_is_cleaned_up :
  (forall args ictx st,
      let st' := (orchestra_invoke args ictx st).2 in
      exists active,
        get_active_orchestrations st' = (Returned active, st') /\
        active ⊆ active_orchestrations st /\
        (active_orchestrations st !! uuid4 (uuids st) = None ->
         active = active_orchestrations st)) /\
  (forall plan hdo ctx st,
      let st' := (run_altitude_plan plan hdo ctx st).2 in
      exists active,
        get_active_orchestrations st' = (Returned active, st') /\
        active ⊆ active_orchestrations st).
Proof.
  split.
  - intros args ictx st st'. exists (active_orchestrations st').
    split; [reflexivity|]. split.
    + apply (lg_active _ _ _ (ledger_orchestra_invoke args ictx st)).
    + apply orchestra_invoke_registry.
  - intros plan hdo ctx st st'. exists (active_orchestrations st').
    split; [reflexivity|].
    apply (lg_active _ _ _ (ledger_run_altitude_plan plan hdo ctx st)).
Qed.

(** X7.  No error record is lost.  The records that an invocation of
    [run_altitude_plan] builds, inside [orchestra_invoke] and on its own
    error path, are the records it inserts into the error log, in the same
    order. *)
Theorem error_records_are_inserted plan hdo ctx st :
  let st' := (run_altitude_plan plan hdo ctx st).2 in
  exists new_records,
    built st' = (built st ++ new_records)%list /\
    inserted st' = (inserted st ++ map snd new_records)%list.
Proof.
  destruct (lg_records _ _ _ (ledger_run_altitude_plan plan hdo ctx st))
    as (nb & indices & Hb & Hi & _).
  exists nb. split; assumption.
Qed.

(** X8.  When [uuid4] never hands out the same identifier twice, the error
    records that one invocation builds have error ids that differ from one
    another. *)
Theorem error_ids_are_distinct plan hdo ctx st :
  Inj (=) (=) uuid4 ->
  let st' := (run_altitude_plan plan hdo ctx st).2 in
  exists new_records,
    built st' = (built st ++ new_records)%list /\
    NoDup (map (fun p => error_id p.2) new_records).
Proof.
  intros Hinj.
  destruct (lg_records _ _ _ (ledger_run_altitude_plan plan hdo ctx st))
    as (nb & indices & Hb & _ & Hm & Hw).
  exists nb. split; [exact Hb|]. rewrite Hm.
  apply (NoDup_fmap_2 uuid4). apply (within_NoDup _ _ _ Hw).
Qed.

(** X9.  The sidecar is told of every delegation.  The events that an
    invocation of [run_altitude_plan] posts are, for each delegation in
    turn, an [orchestration_started] event followed by an
    [orchestration_completed] event when the delegate returned and by an
    [orchestration_failed] event when it raised; so there are twice as many
    events as delegations. *)
Theorem sidecar_events_are_paired plan hdo ctx st :
  let st' := (run_altitude_plan plan hdo ctx st).2 in
  exists new_events new_calls,
    sidecar st' = (sidecar st ++ new_events)%list /\
    delegated st' = (delegated st ++ new_calls)%list /\
    paired new_events new_calls /\
    length new_events = 2 * length new_calls.
Proof.
  destruct (lg_events _ _ _ (ledger_run_altitude_plan plan hdo ctx st))
    as (ne & nc & Hs & Hd & Hp).
  exists ne, nc. repeat split; try assumption. apply paired_length. exact Hp.
Qed.

End LedgerFacts.

(** ** Retries come to an end *)

Lemma bind_ext_at {A B} (m : M A) (k k' : A -> M B) st :
  (forall a s1, m st = (Returned a, s1) -> k a s1 = k' a s1) ->
  bind m k st = bind m k' st.
Proof.
  intros H. unfold bind. destruct (m st) as [[a|e] s1]; [|reflexivity].
  apply H. reflexivity.
Qed.

Lemma try_except_ext_at {A} (m : M A) (h h' : Exn -> M A) st :
  (forall e s1, m st = (Raised e, s1) -> h e s1 = h' e s1) ->
  try_except m h st = try_except m h' st.
Proof.
  intros H. unfold try_except. destruct (m st) as [[a|e] s1]; [reflexivity|].
  apply H. reflexivity.
Qed.

Lemma retry_count_app lg1 lg2 sid :
  _get_step_retry_count (lg1 ++ lg2) sid
  = (_get_step_retry_count lg1 sid + _get_step_retry_count lg2 sid)%Z.
Proof.
  unfold _get_step_retry_count. rewrite filter_app, length_app. lia.
Qed.

Lemma retry_count_prefix lg1 lg2 sid :
  lg1 `prefix_of` lg2 ->
  (_get_step_retry_count lg1 sid <= _get_step_retry_count lg2 sid)%Z.
Proof.
  intros [rest ->]. rewrite retry_count_app.
  pose proof (retry_count_nonneg rest sid). lia.
Qed.

Lemma should_retry_left lg step e :
  _should_retry_step lg step e = true ->
  (_get_step_retry_count lg (step_id step) < step_max_retries step)%Z.
Proof.
  unfold _should_retry_step.
  destruct (Z.leb_spec (step_max_retries step) 0); [discriminate|].
  rewrite Z.geb_leb.
  destruct (Z.leb_spec (step_max_retries step)
              (_get_step_retry_count lg (step_id step))); [discriminate|].
  intros _. lia.
Qed.

Lemma cur_log_with_clock c st : cur_log (with_clock c st) = cur_log st.
Proof. reflexivity. Qed.

Lemma delegated_with_clock c st : delegated (with_clock c st) = delegated st.
Proof. reflexivity. Qed.

Section RetryFacts.
Context (uuid4 : nat -> string)
        (isoformat : Z -> string)
        (strftime : Z -> string)
        (py_str : JVal -> string)
        (str_result : AgentResult -> string)
        (delegate : Delegate).

Abbreviation new_uuid := (new_uuid uuid4).
Abbreviation build_error_record := (build_error_record uuid4 isoformat py_str).
Abbreviation _post_sidecar_event := (_post_sidecar_event isoformat).
Abbreviation call_delegate := (call_delegate delegate).
Abbreviation orchestra_invoke := (orchestra_invoke uuid4 isoformat py_str delegate).
Abbreviation _initialize_hdo_execution := (_initialize_hdo_execution isoformat).
Abbreviation _record_step_start := (_record_step_start isoformat).
Abbreviation _record_step_completion := (_record_step_completion isoformat str_result).
Abbreviation _record_step_failure := (_record_step_failure isoformat).
Abbreviation _record_step_skipped := (_record_step_skipped isoformat).
Abbreviation _complete_hdo_execution := (_complete_hdo_execution isoformat).
Abbreviation _invoke_step := (_invoke_step uuid4 isoformat py_str delegate).
Abbreviation _execute_step :=
  (_execute_step uuid4 isoformat py_str str_result delegate).
Abbreviation run_altitude_plan :=
  (run_altitude_plan uuid4 isoformat py_str str_result delegate).
Abbreviation plan_body := (plan_body uuid4 isoformat py_str str_result delegate).
Abbreviation plan_failed := (plan_failed uuid4 isoformat py_str).
Abbreviation initialized := (initialized isoformat).
Abbreviation ledger := (ledger uuid4).
Abbreviation attempt := (attempt uuid4 isoformat py_str str_result delegate).

Ltac keeps_step :=
  lazymatch goal with
  | |- keeps ?R (ret _) => apply (keeps_ret R)
  | |- keeps ?R (raise _) => apply (keeps_raise R)
  | |- keeps ?R (gets _) => apply (keeps_gets R)
  | |- keeps ?R now => apply (keeps_gets R)
  | |- keeps ?R (lift _) => intros ?; reflexivity
  | |- keeps ?R (bind _ _) => apply (keeps_bind R); [|intros ?]
  | |- keeps ?R (try_except _ _) => apply (keeps_try_except R); [|intros ?]
  | |- keeps ?R (try_finally _ _) => apply (keeps_try_finally R)
  | |- keeps ?R (for_each _ _) => apply (keeps_for_each R); intros ?
  | |- keeps _ (match ?x with _ => _ end) => destruct x
  end.


Ltac still_leaf :=
  lazymatch goal with
  | |- keeps (still _) (modify _) => intros ?; reflexivity
  | |- keeps (still _) (mutate _) => intros ?; reflexivity
  | |- keeps (still _) (sleep _) => intros ?; reflexivity
  | |- keeps (still _) new_list => intros ?; reflexivity
  | |- keeps (still _) new_dict => intros ?; reflexivity
  | |- keeps (still _) (touch _) => intros ?; reflexivity
  end.

Ltac still_auto := repeat first [ still_leaf | keeps_step ].

Lemma undelegated_log_append entry : keeps (still delegated) (log_append entry).
Proof. unfold log_append. still_auto. Qed.

Lemma undelegated_dict_update_at key ref u :
  keeps (still delegated) (dict_update_at key ref u).
Proof. unfold dict_update_at. still_auto. Qed.

Lemma undelegated_apply_hdo_updates u :
  keeps (still delegated) (_apply_hdo_updates u).
Proof.
  unfold _apply_hdo_updates.
  repeat first [ apply undelegated_dict_update_at | still_leaf | keeps_step ].
Qed.

Lemma undelegated_record_step_start step t :
  keeps (still delegated) (_record_step_start step t).
Proof.
  unfold _record_step_start.
  repeat first [ apply undelegated_log_append | still_leaf | keeps_step ].
Qed.

Lemma undelegated_record_step_completion step t1 t2 d res :
  keeps (still delegated) (_record_step_completion step t1 t2 d res).
Proof.
  unfold _record_step_completion.
  repeat first [ apply undelegated_log_append | still_leaf | keeps_step ].
Qed.

Lemma undelegated_record_step_failure step t1 t2 d e :
  keeps (still delegated) (_record_step_failure step t1 t2 d e).
Proof.
  unfold _record_step_failure.
  repeat first [ apply undelegated_log_append | still_leaf | keeps_step ].
Qed.

Lemma undelegated_record_step_skipped step :
  keeps (still delegated) (_record_step_skipped step).
Proof.
  unfold _record_step_skipped.
  repeat first [ apply undelegated_log_append | still_leaf | keeps_step ].
Qed.

(** One call of [orchestra_invoke] delegates once at most. *)
Lemma orchestra_invoke_delegates_once args ictx st :
  length (delegated (orchestra_invoke args ictx st).2) <= length (delegated st) + 1.
Proof.
  pose proof (orchestra_invoke_spec uuid4 isoformat py_str delegate args ictx st) as H.
  destruct (precheck args ictx st).
  - rewrite H. simpl. lia.
  - destruct (delegate _ _ _ _ _ _ _) as [took [res|e0]].
    + destruct H as (st1 & -> & Hd & _). cbn [snd].
      rewrite (do_delegated _ _ _ _ _ Hd), length_app. simpl. lia.
    + destruct H as (rec & st1 & -> & Hd & _). cbn [snd].
      rewrite (do_delegated _ _ _ _ _ Hd), length_app. simpl. lia.
Qed.

Lemma invoke_step_delegates_once step ctx st :
  length (delegated (_invoke_step step ctx st).2) <= length (delegated st) + 1.
Proof.
  unfold _invoke_step. unfold bind at 1, gets at 1. unfold bind at 1, gets at 1.
  unfold bind at 1.
  pose proof (orchestra_invoke_delegates_once
    (mkInvokeArgs (agent_id step) (action step) (step_parameters step)
       (step_id step) (altitude step) (default 120%Z (timeout_seconds step)))
    (mkInvokeContext (process_id (current_hdo st)) (current_hdo st)
       (current_plan st) (default empty_context ctx)) st) as H.
  destruct (orchestra_invoke _ _ st) as [[res|e] s1]; cbn [snd] in *; [|exact H].
  assert (Hk : keeps (still delegated)
                 ((match res_hdo_updates res with
                   | Some updates => _apply_hdo_updates updates
                   | None => ret tt
                   end) ;;; ret res)).
  { repeat first [ apply undelegated_apply_hdo_updates | keeps_step ]. }
  specialize (Hk s1). unfold still in Hk. rewrite Hk. exact H.
Qed.

Lemma attempt_delegates_once step ctx t st :
  length (delegated (attempt step ctx t st).2) <= length (delegated st) + 1.
Proof.
  unfold attempt. unfold bind at 1.
  pose proof (undelegated_record_step_start step t st) as H1. unfold still in H1.
  destruct (_record_step_start step t st) as [[[]|e] s1]; cbn [snd] in *;
    [|rewrite H1; lia].
  unfold bind at 1.
  pose proof (invoke_step_delegates_once step ctx s1) as H2.
  destruct (_invoke_step step ctx s1) as [[res|e] s2]; cbn [snd] in *;
    [|rewrite <- H1; exact H2].
  unfold bind at 1, now at 1, gets at 1.
  pose proof (undelegated_record_step_completion step t (clock s2)
                (clock s2 - t)%Z res s2) as H3. unfold still in H3.
  rewrite H3, <- H1. exact H2.
Qed.

Lemma attempt_frame step ctx t :
  keeps (frame (fun _ => True)) (attempt step ctx t).
Proof.
  unfold attempt.
  repeat first
    [ keeps_step
    | lazymatch goal with
      | |- keeps _ (_record_step_start _ _) => apply keeps_record_step_start
      | |- keeps _ (_record_step_completion _ _ _ _ _) =>
          apply keeps_record_step_completion
      | |- keeps _ (_invoke_step _ _) => apply keeps_invoke_step; exact I
      end ].
Qed.

(** The state in which a retry starts. *)
Lemma retry_state step ctx t st l e s3 s4 :
  log (current_hdo st) = Some l ->
  attempt step ctx t st = (Raised e, s3) ->
  _record_step_failure step t (clock s3) (clock s3 - t)%Z e s3 = (Returned tt, s4) ->
  _should_retry_step (cur_log s4) step e = true ->
  log (current_hdo s4) = Some l /\
  delegated s4 = delegated s3 /\
  1 <= attempts_left step (cur_log s4) /\
  attempts_left step (cur_log s4) < attempts_left step (cur_log st).
Proof.
  intros Hl Hbody Hrec Hagain.
  pose proof (keeps_run _ _ _ _ _ (attempt_frame step ctx t) Hbody) as Hf.
  pose proof (fr_logref _ _ _ Hf l Hl) as Hl3.
  pose proof (frame_prefix _ _ _ Hf) as Hpre.
  destruct (record_run
              (failed_entry step (isoformat (clock s3)) (clock s3 - t)%Z e)
              (isoformat (clock s3)) s3 l Hl3) as (s4' & Hrun & Hlog & Hol).
  unfold _record_step_failure in Hrec. rewrite Hrun in Hrec.
  injection Hrec as <-.
  apply should_retry_left in Hagain. rewrite Hlog in Hagain |- *.
  rewrite retry_count_snoc, failed_entry_failed in Hagain.
  pose proof (retry_count_prefix _ _ (step_id step) Hpre) as Hle.
  pose proof (retry_count_nonneg (cur_log st) (step_id step)) as H0.
  split; [rewrite (ol_log _ _ Hol); exact Hl3|].
  split; [apply (ol_delegated _ _ Hol)|].
  unfold attempts_left. rewrite retry_count_snoc, failed_entry_failed. lia.
Qed.

Lemma execute_step_unfold depth step ctx :
  _execute_step (S depth) step ctx
  = (let* go := gets (fun st => _should_execute_step (cur_log st) step) in
     if negb go then _record_step_skipped step
     else
       let* start_time := now in
       try_except (attempt step ctx start_time)
         (fun e =>
            let* end_time := now in
            let duration_ms := (end_time - start_time)%Z in
            _record_step_failure step start_time end_time duration_ms e ;;;
            let* again := gets (fun st => _should_retry_step (cur_log st) step e) in
            if again then
              sleep (step_backoff_seconds step * 1000) ;;;
              _execute_step depth step ctx
            else raise e)).
Proof. reflexivity. Qed.

Lemma execute_step_fuel step ctx d1 :
  forall d2 st l,
    log (current_hdo st) = Some l ->
    attempts_left step (cur_log st) < d1 ->
    attempts_left step (cur_log st) < d2 ->
    _execute_step d1 step ctx st = _execute_step d2 step ctx st.
Proof.
  induction d1 as [|d1 IH]; intros d2 st l Hl H1 H2; [lia|].
  destruct d2 as [|d2]; [lia|].
  rewrite !execute_step_unfold.
  apply bind_ext_at. intros go s1 Hgo. injection Hgo as _ <-.
  destruct (negb go); [reflexivity|].
  apply bind_ext_at. intros t s2 Hnow. injection Hnow as _ <-.
  apply try_except_ext_at. intros e s3 Hbody.
  apply bind_ext_at. intros t' s3' Hnow. injection Hnow as <- <-.
  apply bind_ext_at. intros [] s4 Hrec.
  apply bind_ext_at. intros again s4' Hag. injection Hag as <- <-.
  destruct (_should_retry_step (cur_log s4) step e) eqn:Hagain; [|reflexivity].
  destruct (retry_state step ctx t st l e s3 s4 Hl Hbody Hrec Hagain)
    as (Hl4 & _ & Hpos & Hless).
  apply bind_ext_at. intros [] s5 Hsleep.
  assert (Hs5 : s5 = with_clock
                       (clock s4 + Z.max 0 (step_backoff_seconds step * 1000)) s4)
    by (unfold sleep, modify in Hsleep; congruence).
  subst s5.
  apply (IH d2 _ l).
  - exact Hl4.
  - rewrite cur_log_with_clock. lia.
  - rewrite cur_log_with_clock. lia.
Qed.

Lemma execute_step_attempts step ctx depth :
  forall st l,
    log (current_hdo st) = Some l ->
    length (delegated (_execute_step depth step ctx st).2)
    <= length (delegated st) + Nat.max 1 (attempts_left step (cur_log st)).
Proof.
  induction depth as [|depth IH]; intros st l Hl; [simpl; lia|].
  rewrite execute_step_unfold. unfold bind at 1, gets at 1.
  destruct (negb (_should_execute_step (cur_log st) step)).
  { pose proof (undelegated_record_step_skipped step st) as H.
    unfold still in H. rewrite H. lia. }
  unfold bind at 1, now at 1, gets at 1. unfold try_except.
  pose proof (attempt_delegates_once step ctx (clock st) st) as Hb.
  destruct (attempt step ctx (clock st) st) as [[[]|e] s3] eqn:Hbody;
    cbn [snd] in Hb |- *; [lia|].
  unfold bind at 1, now at 1, gets at 1. unfold bind at 1.
  pose proof (undelegated_record_step_failure step (clock st) (clock s3)
                (clock s3 - clock st)%Z e s3) as Hf. unfold still in Hf.
  destruct (_record_step_failure step (clock st) (clock s3)
              (clock s3 - clock st)%Z e s3) as [[[]|e'] s4] eqn:Hrec;
    cbn [snd] in Hf |- *; [|rewrite Hf; lia].
  unfold bind at 1, gets at 1.
  destruct (_should_retry_step (cur_log s4) step e) eqn:Hagain;
    [|unfold raise; cbn [snd]; rewrite Hf; lia].
  destruct (retry_state step ctx (clock st) st l e s3 s4 Hl Hbody Hrec Hagain)
    as (Hl4 & _ & Hpos & Hless).
  unfold bind at 1, sleep at 1, modify at 1.
  specialize (IH (with_clock (clock s4 + Z.max 0 (step_backoff_seconds step * 1000)) s4)
                 l Hl4).
  rewrite cur_log_with_clock, delegated_with_clock, Hf in IH. lia.
Qed.

(** X10.  Retries come to an end by themselves.  For a step run on an HDO that
    has a log, executing it with any nesting depth from
    [max_retries + 1] on gives one and the same outcome and state, so the
    recursion of [_execute_step] is never cut short; and the step is
    delegated at most as many times as the policy allows retries beyond the
    failed entries that the log already holds of it, once at least being
    allowed. *)
Theorem retries_come_to_an_end step ctx st l :
  log (current_hdo st) = Some l ->
  (forall depth, retry_depth step <= depth ->
     _execute_step depth step ctx st
     = _execute_step (retry_depth step) step ctx st) /\
  length (delegated (_execute_step (retry_depth step) step ctx st).2)
  <= length (delegated st) + Nat.max 1 (attempts_left step (cur_log st)) /\
  attempts_left step (cur_log st) <= Z.to_nat (step_max_retries step).
Proof.
  intros Hl.
  pose proof (retry_count_nonneg (cur_log st) (step_id step)) as H0.
  assert (Hle : attempts_left step (cur_log st) <= Z.to_nat (step_max_retries step))
    by (unfold attempts_left; lia).
  split; [|split; [apply (execute_step_attempts _ _ _ _ l Hl) | exact Hle]].
  intros depth Hd. unfold retry_depth in *.
  apply (execute_step_fuel step ctx depth _ st l Hl); lia.
Qed.

End RetryFacts.

(** ** Steps that are skipped *)

Lemma last_settled_snoc (lg : list LogEntry) (entry : LogEntry) (sid : string) :
  last_settled (lg ++ [entry])%list sid
  = if settles sid entry then Some (le_status entry) else last_settled lg sid.
Proof.
  unfold last_settled. rewrite last_snoc_filter.
  destruct (settles sid entry); reflexivity.
Qed.

Lemma skipped_entry_settles_nothing step t sid :
  settles sid (skipped_entry step t) = false.
Proof.
  unfold settles, entry_step_id, skipped_entry. cbn [le_details le_status].
  rewrite lookup_insert_eq.
  destruct (String.eqb (step_id step) sid), (negb (String.eqb (step_id step) ""));
    reflexivity.
Qed.

Lemma unsettled_not_due lg step deps :
  waits_for step deps -> deps <> [] ->
  (forall d, In d deps -> last_settled lg d = None) ->
  _should_execute_step lg step = false.
Proof.
  intros (w & Hw & Hc & Hd) Hne Hun. unfold _should_execute_step.
  rewrite Hw. cbn [mbind option_bind]. rewrite Hd. cbn [default].
  assert (Hs : _all_dependencies_successful lg deps = false).
  { apply not_true_is_false. intros H.
    destruct (dependency_checks_spec lg deps) as [[Ha _] _].
    destruct deps as [|d ds]; [congruence|].
    specialize (Ha H d (or_introl eq_refl)).
    rewrite (Hun d (or_introl eq_refl)) in Ha. discriminate. }
  assert (Hf : _any_dependencies_failed lg deps = false).
  { apply not_true_is_false. intros H.
    destruct (dependency_checks_spec lg deps) as [_ [Hb _]].
    destruct (Hb H) as (d & Hin & Hd'). rewrite (Hun d Hin) in Hd'. discriminate. }
  destruct Hc as [-> | ->]; cbn [default]; simpl; assumption.
Qed.

Section StepFacts.
Context (uuid4 : nat -> string)
        (isoformat : Z -> string)
        (strftime : Z -> string)
        (py_str : JVal -> string)
        (str_result : AgentResult -> string)
        (delegate : Delegate).

Abbreviation new_uuid := (new_uuid uuid4).
Abbreviation build_error_record := (build_error_record uuid4 isoformat py_str).
Abbreviation _post_sidecar_event := (_post_sidecar_event isoformat).
Abbreviation call_delegate := (call_delegate delegate).
Abbreviation orchestra_invoke := (orchestra_invoke uuid4 isoformat py_str delegate).
Abbreviation _initialize_hdo_execution := (_initialize_hdo_execution isoformat).
Abbreviation _record_step_start := (_record_step_start isoformat).
Abbreviation _record_step_completion := (_record_step_completion isoformat str_result).
Abbreviation _record_step_failure := (_record_step_failure isoformat).
Abbreviation _record_step_skipped := (_record_step_skipped isoformat).
Abbreviation _complete_hdo_execution := (_complete_hdo_execution isoformat).
Abbreviation _invoke_step := (_invoke_step uuid4 isoformat py_str delegate).
Abbreviation _execute_step :=
  (_execute_step uuid4 isoformat py_str str_result delegate).
Abbreviation run_altitude_plan :=
  (run_altitude_plan uuid4 isoformat py_str str_result delegate).
Abbreviation plan_body := (plan_body uuid4 isoformat py_str str_result delegate).
Abbreviation plan_failed := (plan_failed uuid4 isoformat py_str).
Abbreviation initialized := (initialized isoformat).
Abbreviation ledger := (ledger uuid4).
Abbreviation attempt := (attempt uuid4 isoformat py_str str_result delegate).

Ltac keeps_step :=
  lazymatch goal with
  | |- keeps ?R (ret _) => apply (keeps_ret R)
  | |- keeps ?R (raise _) => apply (keeps_raise R)
  | |- keeps ?R (gets _) => apply (keeps_gets R)
  | |- keeps ?R now => apply (keeps_gets R)
  | |- keeps ?R (lift _) => intros ?; reflexivity
  | |- keeps ?R (bind _ _) => apply (keeps_bind R); [|intros ?]
  | |- keeps ?R (try_except _ _) => apply (keeps_try_except R); [|intros ?]
  | |- keeps ?R (try_finally _ _) => apply (keeps_try_finally R)
  | |- keeps ?R (for_each _ _) => apply (keeps_for_each R); intros ?
  | |- keeps _ (match ?x with _ => _ end) => destruct x
  end.


Lemma not_due_skipped depth step ctx st l :
  _should_execute_step (cur_log st) step = false ->
  log (current_hdo st) = Some l ->
  exists st',
    _execute_step (S depth) step ctx st = (Returned tt, st') /\
    cur_log st' = (cur_log st ++ [skipped_entry step (isoformat (clock st))])%list /\
    delegated st' = delegated st /\ built st' = built st /\
    forall sid, last_settled (cur_log st') sid = last_settled (cur_log st) sid.
Proof.
  intros Hgo Hl.
  destruct (record_step_skipped_run isoformat step st l Hl)
    as (st' & Hrun & Hlog & Hd & Hb).
  exists st'. cbn [_execute_step]. unfold bind at 1, gets at 1.
  rewrite Hgo. cbn [negb]. split; [exact Hrun|]. split; [exact Hlog|].
  split; [exact Hd|]. split; [exact Hb|].
  intros sid. rewrite Hlog, last_settled_snoc, skipped_entry_settles_nothing.
  reflexivity.
Qed.

(** X11.  A step that waits for steps that did not run is skipped.  When [step]
    waits, on_success or on_failure, for one or more steps none of which
    has a completed or failed entry in the log, executing it appends one
    skipped entry and does nothing else: nothing is delegated, no error
    record is built; and since a skipped entry settles no outcome, the
    steps that wait for [step] are skipped in their turn. *)
Theorem skipping_propagates depth step ctx st l deps :
  waits_for step deps -> deps <> [] ->
  (forall d, In d deps -> last_settled (cur_log st) d = None) ->
  log (current_hdo st) = Some l ->
  exists st',
    _execute_step (S depth) step ctx st = (Returned tt, st') /\
    cur_log st' = (cur_log st ++ [skipped_entry step (isoformat (clock st))])%list /\
    delegated st' = delegated st /\ built st' = built st /\
    forall sid, last_settled (cur_log st') sid = last_settled (cur_log st) sid.
Proof.
  intros Hw Hne Hun Hl. apply (not_due_skipped depth step ctx st l); [|exact Hl].
  apply (unsettled_not_due _ _ deps); assumption.
Qed.

(** ** Completion *)

Lemma complete_hdo_execution_run st l :
  log (current_hdo st) = Some l ->
  exists st', _complete_hdo_execution st = (Returned tt, st') /\
    cur_log st' =
      (cur_log st ++
       [complete_entry (isoformat (clock st)) (current_plan st)
          (Z.of_nat (length (filter (fun entry => carries_step_id entry = true)
                               (cur_log st))))])%list /\
    stage (current_hdo st') = Some "output" /\
    validated (current_hdo st') = Some true /\
    timestamp_last_touched (current_hdo st') = Some (isoformat (clock st)).
Proof.
  intros Hl.
  unfold _complete_hdo_execution, log_append, touch, bind, gets, now, ret, mutate.
  simpl. rewrite Hl. simpl.
  eexists. split; [reflexivity|]. simpl.
  repeat split; try reflexivity.
  unfold cur_log, log_at, log_of, list_at. simpl. rewrite Hl, lookup_insert_eq.
  reflexivity.
Qed.

Lemma step_entries_carry_step_id step t d summary e :
  step_id step <> "" ->
  carries_step_id (started_entry step t) = true /\
  carries_step_id (completed_entry step t d summary) = true /\
  carries_step_id (failed_entry step t d e) = true /\
  carries_step_id (skipped_entry step t) = true.
Proof.
  intros Hne. apply String.eqb_neq in Hne.
  unfold carries_step_id, entry_step_id, started_entry, completed_entry,
    failed_entry, skipped_entry. cbn [le_details].
  rewrite !lookup_insert_eq. cbn [opt_truthy truthy]. rewrite Hne.
  repeat split; reflexivity.
Qed.

Lemma runner_entries_carry_none t plan k :
  carries_step_id (start_entry t plan) = false /\
  carries_step_id (complete_entry t plan k) = false.
Proof. split; reflexivity. Qed.

Lemma run_completes plan hdo ctx s t n s2 :
  for_each (default [] (steps plan))
    (fun step => _execute_step (retry_depth step) step ctx)
    (initialized s t n plan hdo) = (Returned tt, s2) ->
  exists h st',
    run_altitude_plan plan hdo ctx (start_state s t n plan hdo)
      = (Returned h, st') /\
    log_at (store st', h) =
      (cur_log s2 ++
       [complete_entry (isoformat (clock s2)) plan
          (Z.of_nat (length (filter (fun entry => carries_step_id entry = true)
                               (cur_log s2))))])%list.
Proof.
  intros Hsteps. rewrite run_altitude_plan_unfold.
  unfold try_except, plan_body, initialized in *.
  destruct (initialize_run isoformat (entered s t n plan hdo))
    as (s1 & Hr1 & _ & [l Hl1] & _ & _ & _ & _ & _ & Hp1 & _ & _).
  rewrite Hr1 in Hsteps. cbn [snd] in Hsteps.
  rewrite (bind_run _ _ _ _ _ Hr1), (bind_run _ _ _ _ _ Hsteps).
  assert (Hf : frame (fun _ => True) s1 s2).
  { eapply keeps_run; [|exact Hsteps]. apply keeps_for_each_steps. exact I. }
  destruct (complete_hdo_execution_run s2 l (fr_logref _ _ _ Hf l Hl1))
    as (s3 & Hr3 & Hlog3 & _).
  rewrite (bind_run _ _ _ _ _ Hr3). unfold gets.
  exists (current_hdo s3), s3. split; [reflexivity|].
  change (log_at (store s3, current_hdo s3)) with (cur_log s3).
  rewrite Hlog3, (fr_plan _ _ _ Hf), Hp1. reflexivity.
Qed.

End StepFacts.

Section CompletionFacts.
Context (uuid4 : nat -> string)
        (isoformat : Z -> string)
        (strftime : Z -> string)
        (py_str : JVal -> string)
        (str_result : AgentResult -> string).

(** X12.  [total_steps_executed] counts entries, not steps.  The number that
    [_complete_hdo_execution] writes into the complete_orchestration entry
    is the number of entries of the log that carry a step id, and every
    started, completed, failed and skipped entry of a step with a
    non-empty id carries one.  In the two-step scenario, where both steps
    complete at the first attempt, it is 4. *)
Theorem total_steps_executed_counts_entries :
  (forall st l, log (current_hdo st) = Some l ->
     exists st', _complete_hdo_execution isoformat st = (Returned tt, st') /\
       cur_log st' =
         (cur_log st ++
          [complete_entry (isoformat (clock st)) (current_plan st)
             (Z.of_nat (length (filter (fun entry => carries_step_id entry = true)
                                  (cur_log st))))])%list) /\
  (forall step ts d summary e, step_id step <> "" ->
     carries_step_id (started_entry step ts) = true /\
     carries_step_id (completed_entry step ts d summary) = true /\
     carries_step_id (failed_entry step ts d e) = true /\
     carries_step_id (skipped_entry step ts) = true) /\
  (forall plan hdo ctx s t n a b,
     steps plan = Some [a; b] ->
     step_id a = "s1" -> agent_id a = "input-mapper" -> action a = "map" ->
     when a = None ->
     step_id b = "s2" -> agent_id b = "input-validator" ->
     action b = "validate" -> when b = None ->
     process_id hdo = "PROC-demo-20250101-120000-001" ->
     _validate_heir_ids (process_id hdo) s hdo = Returned tt ->
     is_Some (payload hdo) ->
     log_at (s, hdo) = [] ->
     exists h st',
       run_altitude_plan uuid4 isoformat py_str str_result
         (_delegate_to_agent isoformat strftime py_str) plan hdo ctx
         (start_state s t n plan hdo) = (Returned h, st') /\
       last (log_at (store st', h))
       = Some (complete_entry (isoformat (t + 800)) plan 4)).
Proof.
  split; [|split].
  - intros st l Hl.
    destruct (complete_hdo_execution_run isoformat st l Hl) as (st' & Hr & Hlog & _).
    exists st'. split; assumption.
  - intros step ts d summary e Hne. apply step_entries_carry_step_id. exact Hne.
  - intros plan hdo ctx s t n a b Hsteps Hai Haa Hac Haw Hbi Hba Hbc Hbw
           Hpid Hids Hpay Hlog.
    destruct (scenario_run uuid4 isoformat strftime py_str str_result
                plan hdo ctx s t n a b Hsteps Haa Hac Haw Hba Hbc Hbw
                Hpid Hids Hpay Hlog) as (s2 & sa & sb & Hloop & Hclk & Hlog2).
    destruct (run_completes uuid4 isoformat py_str str_result _
                plan hdo ctx s t n s2 Hloop) as (h & st' & Hrun & Hlog').
    exists h, st'. split; [exact Hrun|].
    rewrite Hlog', last_snoc, Hclk, Hlog2. do 3 f_equal.
    assert (Ha : step_id a <> "") by (rewrite Hai; discriminate).
    assert (Hb : step_id b <> "") by (rewrite Hbi; discriminate).
    destruct (step_entries_carry_step_id a (isoformat t) 0%Z JNull
                (ValueError "") Ha) as (Ha1 & _).
    destruct (step_entries_carry_step_id a (isoformat (t + 500)) 500%Z sa
                (ValueError "") Ha) as (_ & Ha2 & _).
    destruct (step_entries_carry_step_id b (isoformat (t + 500)) 0%Z JNull
                (ValueError "") Hb) as (Hb1 & _).
    destruct (step_entries_carry_step_id b (isoformat (t + 800)) 300%Z sb
                (ValueError "") Hb) as (_ & Hb2 & _).
    rewrite filter_cons_False by (rewrite (proj1 (runner_entries_carry_none _ _ 0%Z));
                                  discriminate).
    rewrite filter_cons_True by exact Ha1.
    rewrite filter_cons_True by exact Ha2.
    rewrite filter_cons_True by exact Hb1.
    rewrite filter_cons_True by exact Hb2.
    reflexivity.
Qed.

End CompletionFacts.

(** ** Writing the HDO *)

Section HdoFacts.
Context (uuid4 : nat -> string)
        (isoformat : Z -> string)
        (strftime : Z -> string)
        (py_str : JVal -> string)
        (str_result : AgentResult -> string)
        (delegate : Delegate).

Abbreviation new_uuid := (new_uuid uuid4).
Abbreviation build_error_record := (build_error_record uuid4 isoformat py_str).
Abbreviation _post_sidecar_event := (_post_sidecar_event isoformat).
Abbreviation call_delegate := (call_delegate delegate).
Abbreviation orchestra_invoke := (orchestra_invoke uuid4 isoformat py_str delegate).
Abbreviation _initialize_hdo_execution := (_initialize_hdo_execution isoformat).
Abbreviation _record_step_start := (_record_step_start isoformat).
Abbreviation _record_step_completion := (_record_step_completion isoformat str_result).
Abbreviation _record_step_failure := (_record_step_failure isoformat).
Abbreviation _record_step_skipped := (_record_step_skipped isoformat).
Abbreviation _complete_hdo_execution := (_complete_hdo_execution isoformat).
Abbreviation _invoke_step := (_invoke_step uuid4 isoformat py_str delegate).
Abbreviation _execute_step :=
  (_execute_step uuid4 isoformat py_str str_result delegate).
Abbreviation run_altitude_plan :=
  (run_altitude_plan uuid4 isoformat py_str str_result delegate).
Abbreviation plan_body := (plan_body uuid4 isoformat py_str str_result delegate).
Abbreviation plan_failed := (plan_failed uuid4 isoformat py_str).
Abbreviation initialized := (initialized isoformat).
Abbreviation ledger := (ledger uuid4).
Abbreviation attempt := (attempt uuid4 isoformat py_str str_result delegate).

Ltac keeps_step :=
  lazymatch goal with
  | |- keeps ?R (ret _) => apply (keeps_ret R)
  | |- keeps ?R (raise _) => apply (keeps_raise R)
  | |- keeps ?R (gets _) => apply (keeps_gets R)
  | |- keeps ?R now => apply (keeps_gets R)
  | |- keeps ?R (lift _) => intros ?; reflexivity
  | |- keeps ?R (bind _ _) => apply (keeps_bind R); [|intros ?]
  | |- keeps ?R (try_except _ _) => apply (keeps_try_except R); [|intros ?]
  | |- keeps ?R (try_finally _ _) => apply (keeps_try_finally R)
  | |- keeps ?R (for_each _ _) => apply (keeps_for_each R); intros ?
  | |- keeps _ (match ?x with _ => _ end) => destruct x
  end.


(** X13.  [_initialize_hdo_execution] always returns.  Afterwards the HDO has a
    log, to which the start_orchestration entry has been appended, and a
    [meta] with an [altitude_trace]; a log, a meta mapping and an altitude
    trace that the HDO had before are kept as they were, as is every other
    key of [meta]; [timestamp_last_touched] is the instant of the call. *)
Theorem initialize_prepares_the_hdo st :
  exists st', _initialize_hdo_execution st = (Returned tt, st') /\
    cur_log st' =
      (cur_log st ++ [start_entry (isoformat (clock st)) (current_plan st)])%list /\
    is_Some (log (current_hdo st')) /\
    is_Some (meta (current_hdo st')) /\
    is_Some (cur_meta st' !! "altitude_trace") /\
    (forall k, k <> "altitude_trace" -> cur_meta st' !! k = cur_meta st !! k) /\
    (forall v, cur_meta st !! "altitude_trace" = Some v ->
               cur_meta st' !! "altitude_trace" = Some v) /\
    (forall l, log (current_hdo st) = Some l -> log (current_hdo st') = Some l) /\
    (forall m, meta (current_hdo st) = Some m -> meta (current_hdo st') = Some m) /\
    timestamp_last_touched (current_hdo st') = Some (isoformat (clock st)).
Proof.
  unfold _initialize_hdo_execution, ensure_log, ensure_altitude_trace,
    ensure_meta, log_append, touch, dict_update_at, bind, gets, now, ret,
    mutate, new_list, new_dict.
  unfold cur_meta, meta_at, meta_of, cur_log, log_at, log_of, list_at, dict_at.
  simpl.
  destruct (log (current_hdo st)) as [l|] eqn:Hl; simpl; rewrite ?Hl;
  destruct (meta (current_hdo st)) as [m|] eqn:Hm; simpl; rewrite ?Hm; simpl;
  repeat match goal with
    | |- context [match ?x !! "altitude_trace" with _ => _ end] =>
        destruct (x !! "altitude_trace") eqn:?; simpl; rewrite ?Hl, ?Hm; simpl
    end;
  try (rewrite lookup_empty in *; discriminate);
  repeat progress (rewrite ?Hl, ?Hm; simpl);
  (eexists; split; [reflexivity|]); simpl;
  rewrite ?Hl, ?Hm, ?lookup_insert_eq; simpl;
  repeat split; eauto;
  try (intros; congruence);
  unfold dict_update;
  try (intros k Hk; rewrite lookup_union_r; [reflexivity|];
       apply lookup_singleton_ne; congruence);
  try (eexists; apply lookup_union_Some_l; apply lookup_singleton_eq).
Qed.

(** X14.  [_record_hdo_error] keeps count.  When the error context of the HDO
    is absent or is a mapping with a numeric [error_count], the call
    returns; [meta.error_context] then has the error id of the record as
    [last_error_id] and an [error_count] one higher than before (1 for a
    new context); its other entries (retry_count, max_retries) and the
    other keys of [meta] are as they were. *)
Theorem record_hdo_error_counts rec st :
  error_context_ok (cur_meta st) ->
  exists st' o',
    _record_hdo_error rec st = (Returned tt, st') /\
    cur_meta st' !! "error_context" = Some (JObj o') /\
    assoc_get "last_error_id" o' = Some (JStr (error_id rec)) /\
    assoc_get "error_count" o'
    = Some (JNum (count_of (context_before (cur_meta st)) + 1)) /\
    (forall k, k <> "last_error_id" -> k <> "error_count" ->
               assoc_get k o' = assoc_get k (context_before (cur_meta st))) /\
    (forall k, k <> "error_context" -> cur_meta st' !! k = cur_meta st !! k).
Proof.
  intros Hok. unfold _record_hdo_error.
  destruct (ensure_meta_run st) as (s1 & m & Hr1 & Hm1 & Hcm1 & _).
  rewrite (bind_run _ _ _ _ _ Hr1).
  unfold bind at 1, gets at 1.
  (* the context to update *)
  assert (Hctx : exists s2,
    (match cur_meta s1 !! "error_context" with
     | Some _ => ret tt
     | None => meta_set "error_context" initial_error_context
     end) s1 = (Returned tt, s2) /\
    meta (current_hdo s2) = Some m /\
    cur_meta s2 !! "error_context" = Some (JObj (context_before (cur_meta st))) /\
    (forall k, k <> "error_context" -> cur_meta s2 !! k = cur_meta st !! k)).
  { rewrite Hcm1. unfold error_context_ok, context_before in *.
    destruct (cur_meta st !! "error_context") as [v|] eqn:Hv.
    - destruct v as [| | | | |o]; try contradiction.
      exists s1. split; [reflexivity|]. split; [exact Hm1|].
      rewrite Hcm1. split; [exact Hv | reflexivity].
    - destruct (meta_set_run "error_context" initial_error_context s1 m Hm1)
        as (s2 & Hr2 & Hm2 & Hcm2 & _).
      exists s2. split; [exact Hr2|]. split; [exact Hm2|].
      rewrite Hcm2, Hcm1. split; [apply lookup_insert_eq|].
      intros k Hk. apply lookup_insert_ne. congruence. }
  destruct Hctx as (s2 & Hr2 & Hm2 & Hc2 & Hk2).
  rewrite (bind_run _ _ _ _ _ Hr2).
  unfold bind at 1, gets at 1. rewrite Hc2.
  set (o := context_before (cur_meta st)) in *.
  destruct (meta_set_run "error_context"
              (JObj (assoc_set "last_error_id" (JStr (error_id rec)) o)) s2 m Hm2)
    as (s3 & Hr3 & Hm3 & Hcm3 & _).
  rewrite (bind_run _ _ _ _ _ Hr3).
  unfold bind at 1, gets at 1. rewrite Hcm3, lookup_insert_eq.
  rewrite assoc_get_set_ne by discriminate.
  assert (Hcount : exists n, (assoc_get "error_count" o = Some (JNum n) \/
                              exists b, assoc_get "error_count" o = Some (JBool b) /\
                                        n = (if b then 1 else 0)%Z) /\
                             count_of o = n).
  { unfold count_of. subst o. unfold error_context_ok, context_before in *.
    destruct (cur_meta st !! "error_context") as [v|] eqn:Hv.
    - destruct v as [| | | | |o]; try contradiction.
      destruct (assoc_get "error_count" o) as [[|b|n| | |]|]; try contradiction.
      + exists (if b then 1 else 0)%Z. split; [right; exists b; split|]; reflexivity.
      + exists n. split; [left|]; reflexivity.
    - exists 0%Z. split; [left|]; reflexivity. }
  destruct Hcount as (n & Hn & Hcn).
  set (o1 := assoc_set "last_error_id" (JStr (error_id rec)) o) in *.
  destruct (meta_set_run "error_context"
              (JObj (assoc_set "error_count" (JNum (n + 1)) o1)) s3 m Hm3)
    as (s4 & Hr4 & Hm4 & Hcm4 & _).
  exists s4, (assoc_set "error_count" (JNum (n + 1)) o1).
  split.
  { destruct Hn as [Hn | (b & Hn & ->)]; rewrite Hn; exact Hr4. }
  rewrite Hcm4, Hcm3, lookup_insert_eq.
  split; [reflexivity|].
  split; [rewrite assoc_get_set_ne by discriminate; apply assoc_get_set_eq|].
  split; [rewrite assoc_get_set_eq, Hcn; reflexivity|].
  split.
  - intros k Hne1 Hne2. subst o1.
    rewrite assoc_get_set_ne by exact Hne2.
    rewrite assoc_get_set_ne by exact Hne1. reflexivity.
  - intros k Hk. rewrite !lookup_insert_ne by congruence. apply Hk2. exact Hk.
Qed.

(** X15.  Updates of a delegate are merged into the HDO.  With an HDO that has
    a payload and an update without a [meta] part, [_apply_hdo_updates]
    returns: a key of the payload has the value of the update when the
    update has it and its old value otherwise, and stage, validated and
    promoted_to are replaced where the update names them and kept where it
    does not; the log is not touched.  With an HDO that has no payload and
    an update that has one, it raises KeyError and applies nothing. *)
Theorem hdo_updates_are_merged u st :
  (forall p, u_meta u = None -> payload (current_hdo st) = Some p ->
     exists st',
       _apply_hdo_updates u st = (Returned tt, st') /\
       (forall k,
          dict_at (store st') p !! k
          = match u_payload u with
            | Some up =>
                match up !! k with
                | Some v => Some v
                | None => dict_at (store st) p !! k
                end
            | None => dict_at (store st) p !! k
            end) /\
       stage (current_hdo st') = from_option Some (stage (current_hdo st)) (u_stage u) /\
       validated (current_hdo st')
       = from_option Some (validated (current_hdo st)) (u_validated u) /\
       promoted_to (current_hdo st')
       = from_option Some (promoted_to (current_hdo st)) (u_promoted_to u) /\
       lists (store st') = lists (store st)) /\
  (forall up, u_payload u = Some up -> payload (current_hdo st) = None ->
     _apply_hdo_updates u st = (Raised (KeyError "payload"), st)).
Proof.
  split.
  - intros p Hmeta Hp. unfold _apply_hdo_updates. rewrite Hmeta.
    unfold bind, gets, dict_update_at, mutate, ret. rewrite ?Hp.
    destruct (u_payload u) as [up|], (u_stage u), (u_validated u),
      (u_promoted_to u); rewrite ?Hp; simpl;
      (eexists; split; [reflexivity|]); simpl;
      (split; [|repeat split; reflexivity]);
      intros k; unfold dict_at; simpl; rewrite ?lookup_insert_eq; simpl;
      try reflexivity;
      unfold dict_update; destruct (up !! k) as [v|] eqn:Hk;
      try (apply lookup_union_Some_l; exact Hk);
      rewrite lookup_union_r by exact Hk; reflexivity.
  - intros up Hup Hp. unfold _apply_hdo_updates. rewrite Hup.
    unfold bind, gets, dict_update_at. rewrite Hp. reflexivity.
Qed.

End HdoFacts.

(** ** The simulated sub-agents *)

Lemma is_str_spec (v : JVal) (s : string) : is_str v s = true <-> v = JStr s.
Proof.
  destruct v; simpl; try (split; [discriminate | intros H; discriminate]).
  rewrite String.eqb_eq. split; [intros ->; reflexivity | intros H; injection H as ->; reflexivity].
Qed.

Section SimulationFacts.
Context (isoformat : Z -> string)
        (strftime : Z -> string)
        (py_str : JVal -> string).

(** X16.  The simulated delegate raises in two cases only: for an agent of the
    db category when the mode parameter (plan when absent) is neither plan
    nor apply, and for an agent of the notifier category when the channels
    parameter has no length.  Whenever it returns, the result has
    hdo_updates, and these have no [meta] part. *)
Theorem simulation_raises_only (agent_id action : string) (parameters : Dict)
    (hdo : Store * HDO) (timeout_seconds t : Z) (calls : nat) :
  let outcome :=
    (_delegate_to_agent isoformat strftime py_str agent_id action parameters
       hdo timeout_seconds t calls).2 in
  (has_raised outcome = true
   <-> (select_category agent_id = DbAgent /\
        param parameters "mode" (JStr "plan") <> JStr "plan" /\
        param parameters "mode" (JStr "plan") <> JStr "apply")
       \/ (select_category agent_id = Notifier /\
           py_len (param parameters "channels" (JList [JStr "email"])) = None)) /\
  (forall res, outcome = Returned res ->
     exists u, res_hdo_updates res = Some u /\ u_meta u = None).
Proof.
  cbn zeta. unfold _delegate_to_agent.
  destruct (select_category agent_id) eqn:Hc; cbn [behaviour].
  - split.
    + split; [discriminate | intros [[H _]|[H _]]; discriminate].
    + intros res H. injection H as <-. eexists. split; reflexivity.
  - split.
    + split; [discriminate | intros [[H _]|[H _]]; discriminate].
    + intros res H. injection H as <-. eexists. split; reflexivity.
  - split.
    + split; [discriminate | intros [[H _]|[H _]]; discriminate].
    + intros res H. injection H as <-. eexists. split; reflexivity.
  - unfold _simulate_db_agent.
    destruct (is_str (param parameters "mode" (JStr "plan")) "plan") eqn:H1.
    { apply is_str_spec in H1. split.
      + split; [discriminate | intros [(_ & H & _)|[H _]]; [congruence | discriminate]].
      + intros res H. injection H as <-. eexists. split; reflexivity. }
    destruct (is_str (param parameters "mode" (JStr "plan")) "apply") eqn:H2.
    { apply is_str_spec in H2. split.
      + split; [discriminate | intros [(_ & _ & H)|[H _]]; [congruence | discriminate]].
      + intros res H. injection H as <-. eexists. split; reflexivity. }
    split.
    + split; [|reflexivity]. intros _. left. split; [reflexivity|].
      split; intros H; apply is_str_spec in H; congruence.
    + intros res H. discriminate.
  - split.
    + split; [discriminate | intros [[H _]|[H _]]; discriminate].
    + intros res H. injection H as <-. eexists. split; reflexivity.
  - unfold _simulate_notifier.
    destruct (py_len (param parameters "channels" (JList [JStr "email"]))) eqn:Hl.
    + split.
      * split; [discriminate | intros [[H _]|[_ H]]; discriminate].
      * intros res H. injection H as <-. eexists. split; reflexivity.
    + split.
      * split; [intros _; right; split; reflexivity | reflexivity].
      * intros res H. discriminate.
  - split.
    + split; [discriminate | intros [[H _]|[H _]]; discriminate].
    + intros res H. injection H as <-. eexists. split; reflexivity.
  - split.
    + split; [discriminate | intros [[H _]|[H _]]; discriminate].
    + intros res H. injection H as <-. eexists. split; reflexivity.
Qed.

End SimulationFacts.

(** ** From a failed entry of the log to the error record *)

Section CorrelationFacts.
Context (uuid4 : nat -> string)
        (isoformat : Z -> string)
        (strftime : Z -> string)
        (py_str : JVal -> string)
        (str_result : AgentResult -> string)
        (delegate : Delegate).

Abbreviation new_uuid := (new_uuid uuid4).
Abbreviation build_error_record := (build_error_record uuid4 isoformat py_str).
Abbreviation _post_sidecar_event := (_post_sidecar_event isoformat).
Abbreviation call_delegate := (call_delegate delegate).
Abbreviation orchestra_invoke := (orchestra_invoke uuid4 isoformat py_str delegate).
Abbreviation _initialize_hdo_execution := (_initialize_hdo_execution isoformat).
Abbreviation _record_step_start := (_record_step_start isoformat).
Abbreviation _record_step_completion := (_record_step_completion isoformat str_result).
Abbreviation _record_step_failure := (_record_step_failure isoformat).
Abbreviation _record_step_skipped := (_record_step_skipped isoformat).
Abbreviation _complete_hdo_execution := (_complete_hdo_execution isoformat).
Abbreviation _invoke_step := (_invoke_step uuid4 isoformat py_str delegate).
Abbreviation _execute_step :=
  (_execute_step uuid4 isoformat py_str str_result delegate).
Abbreviation run_altitude_plan :=
  (run_altitude_plan uuid4 isoformat py_str str_result delegate).
Abbreviation plan_body := (plan_body uuid4 isoformat py_str str_result delegate).
Abbreviation plan_failed := (plan_failed uuid4 isoformat py_str).
Abbreviation initialized := (initialized isoformat).
Abbreviation ledger := (ledger uuid4).
Abbreviation attempt := (attempt uuid4 isoformat py_str str_result delegate).

Ltac keeps_step :=
  lazymatch goal with
  | |- keeps ?R (ret _) => apply (keeps_ret R)
  | |- keeps ?R (raise _) => apply (keeps_raise R)
  | |- keeps ?R (gets _) => apply (keeps_gets R)
  | |- keeps ?R now => apply (keeps_gets R)
  | |- keeps ?R (lift _) => intros ?; reflexivity
  | |- keeps ?R (bind _ _) => apply (keeps_bind R); [|intros ?]
  | |- keeps ?R (try_except _ _) => apply (keeps_try_except R); [|intros ?]
  | |- keeps ?R (try_finally _ _) => apply (keeps_try_finally R)
  | |- keeps ?R (for_each _ _) => apply (keeps_for_each R); intros ?
  | |- keeps _ (match ?x with _ => _ end) => destruct x
  end.





(** X18.  A call that is not valid leaves no trace.  When [agent_id], [action]
    or the process id of the context is empty, or the identifiers do not
    pass [_validate_heir_ids], [orchestra_invoke] raises the error of the
    first of these checks that fails, in this order, and the state is as it
    was: no execution id has been drawn, nothing registered, no event
    posted, no delegate called, no error record built. *)
Theorem invalid_calls_leave_no_trace args ictx st :
  (a_agent_id args = "" ->
   orchestra_invoke args ictx st
   = (Raised (ValueError "agent_id is required"), st)) /\
  (a_agent_id args <> "" -> a_action args = "" ->
   orchestra_invoke args ictx st
   = (Raised (ValueError "action is required"), st)) /\
  (a_agent_id args <> "" -> a_action args <> "" -> ic_process_id ictx = "" ->
   orchestra_invoke args ictx st
   = (Raised (ValueError "process_id is required in context"), st)) /\
  (forall e,
     a_agent_id args <> "" -> a_action args <> "" -> ic_process_id ictx <> "" ->
     _validate_heir_ids (ic_process_id ictx) (store st) (ic_hdo ictx) = Raised e ->
     orchestra_invoke args ictx st = (Raised e, st)).
Proof.
  pose proof (orchestra_invoke_spec uuid4 isoformat py_str delegate args ictx st) as H.
  unfold precheck in H.
  split; [|split; [|split]].
  - intros Ha. rewrite Ha in H. exact H.
  - intros Ha Hac. apply String.eqb_neq in Ha. rewrite Ha, Hac in H. exact H.
  - intros Ha Hac Hp. apply String.eqb_neq in Ha, Hac. rewrite Ha, Hac, Hp in H.
    exact H.
  - intros e Ha Hac Hp Hv. apply String.eqb_neq in Ha, Hac, Hp.
    rewrite Ha, Hac, Hp, Hv in H. exact H.
Qed.

End CorrelationFacts.

(** ** The shape of the log *)

Section LogShape.
Context (uuid4 : nat -> string)
        (isoformat : Z -> string)
        (strftime : Z -> string)
        (py_str : JVal -> string)
        (str_result : AgentResult -> string)
        (delegate : Delegate).

Abbreviation new_uuid := (new_uuid uuid4).
Abbreviation build_error_record := (build_error_record uuid4 isoformat py_str).
Abbreviation _post_sidecar_event := (_post_sidecar_event isoformat).
Abbreviation call_delegate := (call_delegate delegate).
Abbreviation orchestra_invoke := (orchestra_invoke uuid4 isoformat py_str delegate).
Abbreviation _initialize_hdo_execution := (_initialize_hdo_execution isoformat).
Abbreviation _record_step_start := (_record_step_start isoformat).
Abbreviation _record_step_completion := (_record_step_completion isoformat str_result).
Abbreviation _record_step_failure := (_record_step_failure isoformat).
Abbreviation _record_step_skipped := (_record_step_skipped isoformat).
Abbreviation _complete_hdo_execution := (_complete_hdo_execution isoformat).
Abbreviation _invoke_step := (_invoke_step uuid4 isoformat py_str delegate).
Abbreviation _execute_step :=
  (_execute_step uuid4 isoformat py_str str_result delegate).
Abbreviation run_altitude_plan :=
  (run_altitude_plan uuid4 isoformat py_str str_result delegate).
Abbreviation plan_body := (plan_body uuid4 isoformat py_str str_result delegate).
Abbreviation plan_failed := (plan_failed uuid4 isoformat py_str).
Abbreviation initialized := (initialized isoformat).
Abbreviation ledger := (ledger uuid4).
Abbreviation attempt := (attempt uuid4 isoformat py_str str_result delegate).

Ltac keeps_step :=
  lazymatch goal with
  | |- keeps ?R (ret _) => apply (keeps_ret R)
  | |- keeps ?R (raise _) => apply (keeps_raise R)
  | |- keeps ?R (gets _) => apply (keeps_gets R)
  | |- keeps ?R now => apply (keeps_gets R)
  | |- keeps ?R (lift _) => intros ?; reflexivity
  | |- keeps ?R (bind _ _) => apply (keeps_bind R); [|intros ?]
  | |- keeps ?R (try_except _ _) => apply (keeps_try_except R); [|intros ?]
  | |- keeps ?R (try_finally _ _) => apply (keeps_try_finally R)
  | |- keeps ?R (for_each _ _) => apply (keeps_for_each R); intros ?
  | |- keeps _ (match ?x with _ => _ end) => destruct x
  end.


Ltac still_leaf :=
  lazymatch goal with
  | |- keeps (still _) (modify _) => intros ?; reflexivity
  | |- keeps (still _) (mutate _) => intros ?; reflexivity
  | |- keeps (still _) (sleep _) => intros ?; reflexivity
  | |- keeps (still _) new_dict => intros ?; reflexivity
  | |- keeps (still _) (touch _) => intros ?; reflexivity
  end.

Lemma unlogged_dict_update_at key ref u :
  keeps (still log_view) (dict_update_at key ref u).
Proof. unfold dict_update_at. repeat first [ still_leaf | keeps_step ]. Qed.

Lemma unlogged_apply_hdo_updates u : keeps (still log_view) (_apply_hdo_updates u).
Proof.
  unfold _apply_hdo_updates.
  repeat first [ apply unlogged_dict_update_at | still_leaf | keeps_step ].
Qed.

Lemma unlogged_orchestra_invoke args ictx :
  keeps (still log_view) (orchestra_invoke args ictx).
Proof.
  intros st.
  pose proof (orchestra_invoke_spec uuid4 isoformat py_str delegate args ictx st) as H.
  destruct (precheck args ictx st).
  - rewrite H. reflexivity.
  - destruct (delegate _ _ _ _ _ _ _) as [took [res|e0]].
    + destruct H as (st1 & -> & Hd & _). cbn [snd]. unfold still, log_view, cur_log.
      rewrite (do_store _ _ _ _ _ Hd), (do_hdo _ _ _ _ _ Hd). reflexivity.
    + destruct H as (rec & st1 & -> & Hd & _). cbn [snd]. unfold still, log_view, cur_log.
      rewrite (do_store _ _ _ _ _ Hd), (do_hdo _ _ _ _ _ Hd). reflexivity.
Qed.

Lemma unlogged_invoke_step step ctx : keeps (still log_view) (_invoke_step step ctx).
Proof.
  unfold _invoke_step.
  repeat first [ apply unlogged_orchestra_invoke | apply unlogged_apply_hdo_updates
               | keeps_step ].
Qed.

(** What one attempt appends. *)
Lemma attempt_log step ctx t st l :
  log (current_hdo st) = Some l ->
  let '(r, st') := attempt step ctx t st in
  log (current_hdo st') = Some l /\
  match r with
  | Returned _ =>
      exists t' d summary,
        cur_log st' = (cur_log st ++ [started_entry step (isoformat t);
                                      completed_entry step t' d summary])%list
  | Raised _ =>
      cur_log st' = (cur_log st ++ [started_entry step (isoformat t)])%list
  end.
Proof.
  intros Hl. unfold attempt.
  destruct (record_run (started_entry step (isoformat t)) (isoformat t) st l Hl)
    as (s1 & Hr1 & Hlog1 & Hol1).
  unfold _record_step_start at 1. rewrite (bind_run _ _ _ _ _ Hr1).
  pose proof (unlogged_invoke_step step ctx s1) as H2.
  unfold bind at 1.
  destruct (_invoke_step step ctx s1) as [[res|e] s2]; cbn [snd] in H2;
    unfold still, log_view in H2; injection H2 as Hlog2 Hl2.
  - unfold bind at 1, now at 1, gets at 1.
    assert (Hl2' : log (current_hdo s2) = Some l)
      by (rewrite Hl2, (ol_log _ _ Hol1); exact Hl).
    unfold _record_step_completion.
    match goal with
    | |- context [log_append ?entry ;;; touch ?ts] =>
        destruct (record_run entry ts s2 l Hl2') as (s3 & Hr3 & Hlog3 & Hol3)
    end.
    rewrite Hr3. split; [rewrite (ol_log _ _ Hol3); exact Hl2'|].
    eexists _, _, _. rewrite Hlog3, Hlog2, Hlog1, <- app_assoc. reflexivity.
  - split; [rewrite Hl2, (ol_log _ _ Hol1); exact Hl|].
    rewrite Hlog2. exact Hlog1.
Qed.

Lemma execute_step_trace step ctx depth :
  forall st l,
    log (current_hdo st) = Some l ->
    let '(r, st') := _execute_step depth step ctx st in
    log (current_hdo st') = Some l /\
    exists new,
      cur_log st' = (cur_log st ++ new)%list /\
      (depth = 0 /\ new = [] \/ step_trace step new).
Proof.
  induction depth as [|depth IH]; intros st l Hl.
  { cbn. split; [exact Hl|]. exists []. rewrite app_nil_r.
    split; [reflexivity | left; split; reflexivity]. }
  rewrite execute_step_unfold. unfold bind at 1, gets at 1.
  destruct (negb (_should_execute_step (cur_log st) step)).
  { unfold _record_step_skipped, bind at 1, now at 1, gets at 1.
    match goal with
    | |- context [log_append ?entry ;;; touch ?ts] =>
        destruct (record_run entry ts st l Hl) as (s1 & Hr1 & Hlog1 & Hol1)
    end.
    rewrite Hr1. split; [rewrite (ol_log _ _ Hol1); exact Hl|].
    eexists. split; [exact Hlog1|]. right. constructor. }
  unfold bind at 1, now at 1, gets at 1. unfold try_except.
  pose proof (attempt_log step ctx (clock st) st l Hl) as Ha.
  destruct (attempt step ctx (clock st) st) as [[[]|e] s3].
  { destruct Ha as (Hl3 & t' & d & summary & Hlog3).
    split; [exact Hl3|]. eexists. split; [exact Hlog3|]. right. constructor. }
  destruct Ha as (Hl3 & Hlog3).
  unfold bind at 1, now at 1, gets at 1. unfold _record_step_failure.
  match goal with
  | |- context [log_append ?entry ;;; touch ?ts] =>
      destruct (record_run entry ts s3 l Hl3) as (s4 & Hr4 & Hlog4 & Hol4)
  end.
  rewrite (bind_run _ _ _ _ _ Hr4). unfold bind at 1, gets at 1.
  assert (Hl4 : log (current_hdo s4) = Some l)
    by (rewrite (ol_log _ _ Hol4); exact Hl3).
  destruct (_should_retry_step (cur_log s4) step e).
  - unfold bind at 1, sleep at 1, modify at 1.
    specialize (IH (with_clock (clock s4 + Z.max 0 (step_backoff_seconds step * 1000)) s4)
                   l Hl4).
    destruct (_execute_step depth step ctx _) as [r5 s5].
    destruct IH as (Hl5 & rest & Hlog5 & Hrest).
    split; [exact Hl5|].
    exists (started_entry step (isoformat (clock st)) ::
            failed_entry step (isoformat (clock s3)) (clock s3 - clock st)%Z e :: rest).
    split.
    + rewrite Hlog5, cur_log_with_clock, Hlog4, Hlog3, <- !app_assoc. reflexivity.
    + right. destruct Hrest as [[_ ->]|Hrest]; constructor. exact Hrest.
  - unfold raise. split; [exact Hl4|]. eexists. split.
    + rewrite Hlog4, Hlog3, <- app_assoc. reflexivity.
    + right. constructor.
Qed.

Lemma for_each_traces ctx (xs : list Step) :
  forall st l,
    log (current_hdo st) = Some l ->
    let '(r, st') :=
      for_each xs (fun step => _execute_step (retry_depth step) step ctx) st in
    log (current_hdo st') = Some l /\
    exists reached traces,
      reached `prefix_of` xs /\
      Forall2 step_trace reached traces /\
      cur_log st' = (cur_log st ++ concat traces)%list /\
      (r = Returned tt -> reached = xs).
Proof.
  induction xs as [|x xs IH]; intros st l Hl.
  { cbn. split; [exact Hl|]. exists [], []. rewrite app_nil_r.
    split; [reflexivity|]. split; [constructor|]. split; reflexivity. }
  cbn [for_each]. unfold bind at 1.
  pose proof (execute_step_trace x ctx (retry_depth x) st l Hl) as Hx.
  destruct (_execute_step (retry_depth x) x ctx st) as [[[]|e] s1];
    destruct Hx as (Hl1 & new & Hlog1 & [[H0 _]|Hnew]); try discriminate.
  - specialize (IH s1 l Hl1).
    destruct (for_each xs _ s1) as [r s2].
    destruct IH as (Hl2 & reached & traces & Hpre & Htr & Hlog2 & Hret).
    split; [exact Hl2|]. exists (x :: reached), (new :: traces).
    split; [apply prefix_cons; exact Hpre|].
    split; [constructor; assumption|].
    split; [rewrite Hlog2, Hlog1, <- app_assoc; reflexivity|].
    intros Hr. rewrite (Hret Hr). reflexivity.
  - split; [exact Hl1|]. exists [x], [new].
    split; [apply prefix_cons, prefix_nil|].
    split; [constructor; [exact Hnew | constructor]|].
    split; [cbn; rewrite app_nil_r; exact Hlog1 | discriminate].
Qed.

Lemma unlogged_meta_set key v : keeps (still log_view) (meta_set key v).
Proof. unfold meta_set. repeat first [ still_leaf | keeps_step ]. Qed.

Lemma unlogged_ensure_meta : keeps (still log_view) ensure_meta.
Proof. unfold ensure_meta. repeat first [ still_leaf | keeps_step ]. Qed.

Lemma unlogged_record_hdo_error rec : keeps (still log_view) (_record_hdo_error rec).
Proof.
  unfold _record_hdo_error.
  repeat first [ apply unlogged_ensure_meta | apply unlogged_meta_set
               | still_leaf | keeps_step ].
Qed.

Lemma unlogged_plan_failed plan ctx e : keeps (still log_view) (plan_failed plan ctx e).
Proof.
  intros st. unfold plan_failed. unfold bind at 1, gets at 1.
  destruct (build_error_record_run uuid4 isoformat py_str ByRunner (current_hdo st)
              (default empty_context ctx) e st)
    as (rec & s1 & Hr1 & _ & _ & Hs1 & Hh1 & _).
  rewrite (bind_run _ _ _ _ _ Hr1).
  unfold bind at 1, _insert_error_record at 1, modify at 1.
  set (s2 := with_inserted _ s1).
  assert (H12 : still log_view st s2).
  { unfold still, log_view, cur_log. subst s2. cbn [store current_hdo with_inserted].
    rewrite Hs1, Hh1. reflexivity. }
  etransitivity; [exact H12|].
  refine (keeps_bind (still log_view) _ _ (unlogged_record_hdo_error rec) _ s2).
  intros ?. apply (keeps_raise (still log_view)).
Qed.

(** X19.  The entries of a step are bracketed.  Executing a step on an HDO
    that has a log appends either one skipped entry, or a started entry
    followed by the completed entry of that step, or a started entry
    followed by the failed entry of that step and, when the step is
    retried, by the entries of the retry, which are again of this shape.
    So every started entry is followed at once by the completed or failed
    entry of its attempt, and all the entries are of this one step. *)
Theorem step_entries_are_bracketed step ctx depth st l :
  log (current_hdo st) = Some l ->
  let '(r, st') := _execute_step (S depth) step ctx st in
  exists new,
    cur_log st' = (cur_log st ++ new)%list /\ step_trace step new.
Proof.
  intros Hl. pose proof (execute_step_trace step ctx (S depth) st l Hl) as H.
  destruct (_execute_step (S depth) step ctx st) as [r st'].
  destruct H as (_ & new & Hlog & [[H0 _]|Hnew]); [discriminate|].
  exists new. split; assumption.
Qed.

(** X20.  The log of an invocation.  What [run_altitude_plan] appends to the
    log it is given is the start_orchestration entry, then for each step it
    gets to, in the order of the plan, the bracketed entries of that step,
    and, when it returns, the complete_orchestration entry after the
    entries of all the steps; when it raises, the entries stop with those
    of the step that failed. *)
Theorem log_of_an_invocation plan hdo ctx s t n :
  let '(r, st') := run_altitude_plan plan hdo ctx (start_state s t n plan hdo) in
  exists reached traces,
    reached `prefix_of` default [] (steps plan) /\
    Forall2 step_trace reached traces /\
    match r with
    | Returned h =>
        reached = default [] (steps plan) /\
        exists t' k,
          log_at (store st', h) =
            (log_at (s, hdo) ++
             start_entry (isoformat t) plan :: concat traces ++
             [complete_entry t' plan k])%list
    | Raised _ =>
        cur_log st' =
          (log_at (s, hdo) ++ start_entry (isoformat t) plan :: concat traces)%list
    end.
Proof.
  rewrite run_altitude_plan_unfold. unfold try_except, plan_body.
  destruct (initialize_run isoformat (entered s t n plan hdo))
    as (s1 & Hr1 & Hlog1 & [l Hl1] & _ & _ & _ & _ & _ & Hp1 & Hc1 & _).
  rewrite (bind_run _ _ _ _ _ Hr1). unfold bind at 1.
  rewrite cur_log_entered in Hlog1. cbn [clock current_plan entered] in Hlog1, Hp1.
  pose proof (for_each_traces ctx (default [] (steps plan)) s1 l Hl1) as Hf.
  pose proof (keeps_for_each_steps uuid4 isoformat py_str str_result delegate
                (fun _ => True) (default [] (steps plan)) ctx I s1) as Hfr.
  destruct (for_each _ _ s1) as [[[]|e] s2]; cbn [snd] in Hfr;
    destruct Hf as (Hl2 & reached & traces & Hpre & Htr & Hlog2 & Hret).
  - destruct (complete_run isoformat s2 l Hl2) as (s3 & Hr3 & [k Hlog3] & _).
    rewrite (bind_run _ _ _ _ _ Hr3). unfold gets.
    exists reached, traces. split; [exact Hpre|]. split; [exact Htr|].
    split; [apply Hret; reflexivity|].
    eexists _, k. change (log_at (store s3, current_hdo s3)) with (cur_log s3).
    rewrite Hlog3, Hlog2, Hlog1, (fr_plan _ _ _ Hfr), Hp1, <- !app_assoc.
    reflexivity.
  - pose proof (unlogged_plan_failed plan ctx e s2) as Hq.
    destruct (plan_failed_spec uuid4 isoformat py_str plan ctx e s2)
      as (rec & e' & s3 & Hr3 & _).
    rewrite Hr3 in Hq |- *. cbn [snd] in Hq.
    unfold still, log_view in Hq. injection Hq as Hq _.
    exists reached, traces. split; [exact Hpre|]. split; [exact Htr|].
    rewrite Hq, Hlog2, Hlog1, <- app_assoc. reflexivity.
Qed.

End LogShape.

(** ** The further properties on sample inputs *)

Lemma sample_uuid4_inj : Inj (=) (=) Sample.uuid4.
Proof.
  intros a b H. unfold Sample.uuid4 in H.
  rewrite !PyStrFacts.append_cons, !PyStrFacts.append_nil in H.
  injection H as H.
  apply (f_equal NilEmpty.uint_of_string) in H.
  rewrite !NilEmpty.usu in H. injection H as H.
  apply (f_equal Nat.of_uint) in H.
  rewrite !DecimalNat.Unsigned.of_to in H. exact H.
Qed.



Lemma dependency_checks_read_last_outcome_witness :
  last_settled Cases.s1_done "s1" = Some "completed".
Proof.
  apply (proj1 (proj1 (dependency_checks_read_last_outcome Cases.s1_done ["s1"]))).
  - vm_compute. reflexivity.
  - left. reflexivity.
Defined.

Lemma success_excludes_failure_witness :
  _any_dependencies_failed Cases.s1_done ["s1"] = false.
Proof.
  apply (success_excludes_failure Cases.s1_done ["s1"]).
  vm_compute. reflexivity.
Defined.

Lemma skipping_propagates_witness :
  exists st',
    _execute_step Sample.uuid4 Sample.isoformat Sample.py_str Sample.str_result
      Sample.simulation 1 Cases.after_s1 None
      (Sample.idle Sample.demo_plan Sample.demo_hdo) = (Returned tt, st') /\
    delegated st' = [].
Proof.
  destruct (skipping_propagates
              Sample.uuid4 Sample.isoformat Sample.py_str Sample.str_result
              Sample.simulation 0 Cases.after_s1 None
              (Sample.idle Sample.demo_plan Sample.demo_hdo) 1%positive ["s1"])
    as (st' & Hrun & _ & Hd & _).
  - eexists. split; [reflexivity|]. split; [left; reflexivity | reflexivity].
  - discriminate.
  - intros d [<-|[]]. vm_compute. reflexivity.
  - reflexivity.
  - exists st'. split; [exact Hrun | exact Hd].
Defined.

Lemma snapshot_is_redacted_witness :
  exists sl,
    sn_log (_create_hdo_snapshot Sample.py_str Sample.objects Sample.demo_hdo)
    = Some sl /\ length sl = 0.
Proof.
  destruct (snapshot_is_redacted Sample.uuid4 Sample.isoformat Sample.py_str
              Sample.objects Sample.demo_hdo) as (_ & Hlog & _).
  destruct (Hlog [] eq_refl) as (sl & Hs & _ & Hlen).
  exists sl. split; [exact Hs | exact Hlen].
Defined.

Lemma registry_is_cleaned_up_witness :
  let st' :=
    (orchestra_invoke Sample.uuid4 Sample.isoformat Sample.py_str Sample.simulation
       (mkInvokeArgs "input-mapper" "map" ∅ "s1" 20000 120)
       (mkInvokeContext "PROC-demo-20250101-120000-001" Sample.demo_hdo
          Sample.demo_plan empty_context)
       (Sample.idle Sample.demo_plan Sample.demo_hdo)).2 in
  exists active,
    get_active_orchestrations st' = (Returned active, st') /\ active = ∅.
Proof.
  destruct (registry_is_cleaned_up Sample.uuid4 Sample.isoformat Sample.py_str
              Sample.str_result Sample.simulation) as [Hinvoke _].
  intros st'.
  destruct (Hinvoke (mkInvokeArgs "input-mapper" "map" ∅ "s1" 20000 120)
              (mkInvokeContext "PROC-demo-20250101-120000-001" Sample.demo_hdo
                 Sample.demo_plan empty_context)
              (Sample.idle Sample.demo_plan Sample.demo_hdo))
    as (active & Hget & _ & Hsame).
  exists active. split; [exact Hget|]. rewrite (Hsame eq_refl). reflexivity.
Defined.

Lemma error_ids_are_distinct_witness :
  NoDup (map (fun p => error_id p.2)
             (built (Sample.run Sample.simulation Sample.rollback_plan
                       Sample.demo_hdo).2)).
Proof.
  pose proof (error_ids_are_distinct
                Sample.uuid4 Sample.isoformat Sample.py_str Sample.str_result
                Sample.simulation Sample.rollback_plan Sample.demo_hdo None
                (Sample.idle Sample.rollback_plan Sample.demo_hdo)
                sample_uuid4_inj) as H.
  cbv zeta in H. destruct H as (new_records & Hb & Hnd).
  assert (Hg : built (Sample.run Sample.simulation Sample.rollback_plan
                        Sample.demo_hdo).2 = new_records) by exact Hb.
  subst new_records. exact Hnd.
Defined.

Lemma retries_come_to_an_end_witness :
  _execute_step Sample.uuid4 Sample.isoformat Sample.py_str Sample.str_result
    Sample.simulation 7 Sample.rollback None
    (Sample.idle Sample.rollback_plan Sample.demo_hdo)
  = _execute_step Sample.uuid4 Sample.isoformat Sample.py_str Sample.str_result
      Sample.simulation (retry_depth Sample.rollback) Sample.rollback None
      (Sample.idle Sample.rollback_plan Sample.demo_hdo).
Proof.
  destruct (retries_come_to_an_end
              Sample.uuid4 Sample.isoformat Sample.py_str Sample.str_result
              Sample.simulation Sample.rollback None
              (Sample.idle Sample.rollback_plan Sample.demo_hdo) 1%positive eq_refl)
    as (Hfuel & _).
  apply Hfuel. vm_compute. lia.
Defined.

Lemma total_steps_executed_counts_entries_witness :
  exists h st',
    Sample.run Sample.simulation Sample.demo_plan Sample.demo_hdo
    = (Returned h, st') /\
    last (log_at (store st', h))
    = Some (complete_entry (Sample.isoformat 800) Sample.demo_plan 4).
Proof.
  destruct (total_steps_executed_counts_entries
              Sample.uuid4 Sample.isoformat Sample.strftime Sample.py_str
              Sample.str_result) as (_ & _ & HC).
  apply (HC Sample.demo_plan Sample.demo_hdo None Sample.objects 0%Z 0
            Sample.s1 Sample.s2);
    first [ reflexivity | eexists; reflexivity ].
Defined.

Lemma initialize_prepares_the_hdo_witness :
  exists st',
    _initialize_hdo_execution Sample.isoformat
      (Sample.idle Sample.demo_plan Sample.demo_hdo) = (Returned tt, st') /\
    is_Some (cur_meta st' !! "altitude_trace").
Proof.
  destruct (initialize_prepares_the_hdo Sample.isoformat
              (Sample.idle Sample.demo_plan Sample.demo_hdo))
    as (st' & Hrun & _ & _ & _ & Htrace & _).
  exists st'. split; [exact Hrun | exact Htrace].
Defined.

Lemma record_hdo_error_counts_witness :
  exists st' o',
    _record_hdo_error Cases.sample_record
      (Sample.idle Sample.demo_plan Sample.demo_hdo) = (Returned tt, st') /\
    cur_meta st' !! "error_context" = Some (JObj o') /\
    assoc_get "error_count" o' = Some (JNum 1).
Proof.
  destruct (record_hdo_error_counts Cases.sample_record
              (Sample.idle Sample.demo_plan Sample.demo_hdo))
    as (st' & o' & Hrun & Hctx & _ & Hcount & _).
  - vm_compute. exact I.
  - exists st', o'. split; [exact Hrun|]. split; [exact Hctx | exact Hcount].
Defined.

Lemma hdo_updates_are_merged_witness :
  exists st',
    _apply_hdo_updates Cases.sample_update
      (Sample.idle Sample.demo_plan Sample.demo_hdo) = (Returned tt, st') /\
    stage (current_hdo st') = Some "middle".
Proof.
  destruct (hdo_updates_are_merged Cases.sample_update
              (Sample.idle Sample.demo_plan Sample.demo_hdo)) as [Hmerge _].
  destruct (Hmerge 1%positive eq_refl eq_refl) as (st' & Hrun & _ & Hstage & _).
  exists st'. split; [exact Hrun | exact Hstage].
Defined.

Lemma simulation_raises_only_witness :
  has_raised
    (Sample.simulation "middle-db-agent" "migrate" {[ "mode" := JStr "rollback" ]}
       (Sample.objects, Sample.demo_hdo) 120%Z 0%Z 0).2 = true.
Proof.
  apply (proj1 (simulation_raises_only Sample.isoformat Sample.strftime
                  Sample.py_str "middle-db-agent" "migrate"
                  {[ "mode" := JStr "rollback" ]}
                  (Sample.objects, Sample.demo_hdo) 120%Z 0%Z 0)).
  left. split; [reflexivity|]. split; vm_compute; discriminate.
Defined.


Lemma step_entries_are_bracketed_witness :
  exists new,
    cur_log (_execute_step Sample.uuid4 Sample.isoformat Sample.py_str
               Sample.str_result Sample.simulation 1 Sample.s1 None
               (Sample.idle Sample.demo_plan Sample.demo_hdo)).2
    = new /\ step_trace Sample.s1 new.
Proof.
  pose proof (step_entries_are_bracketed
                Sample.uuid4 Sample.isoformat Sample.py_str Sample.str_result
                Sample.simulation Sample.s1 None 0
                (Sample.idle Sample.demo_plan Sample.demo_hdo) 1%positive eq_refl)
    as H.
  destruct (_execute_step _ _ _ _ _ 1 Sample.s1 None _) as [r st'].
  destruct H as (new & Hlog & Htrace). exists new. split; [exact Hlog | exact Htrace].
Defined.

Lemma invalid_calls_leave_no_trace_witness :
  orchestra_invoke Sample.uuid4 Sample.isoformat Sample.py_str Sample.simulation
    (mkInvokeArgs "" "map" ∅ "s1" 20000 120)
    (mkInvokeContext "PROC-demo-20250101-120000-001" Sample.demo_hdo
       Sample.demo_plan empty_context)
    (Sample.idle Sample.demo_plan Sample.demo_hdo)
  = (Raised (ValueError "agent_id is required"),
     Sample.idle Sample.demo_plan Sample.demo_hdo).
Proof.
  apply (proj1 (invalid_calls_leave_no_trace
                  Sample.uuid4 Sample.isoformat Sample.py_str Sample.simulation
                  (mkInvokeArgs "" "map" ∅ "s1" 20000 120)
                  (mkInvokeContext "PROC-demo-20250101-120000-001" Sample.demo_hdo
                     Sample.demo_plan empty_context)
                  (Sample.idle Sample.demo_plan Sample.demo_hdo))).
  reflexivity.
Defined.

